(** * HumanCode debug orchestrator: phase machine, adapter registry,
      session breakpoints, DAP client and the two debug adapters.

    A shallow embedding of the TypeScript sources
      - [opencode/src/session/debug-phase.ts]   (namespace [DebugPhase])
      - [opencode/src/tool/transition-phase.ts]
      - [debugger/src/adapter/registry.ts]      ([detectType])
      - [debugger/src/session/state.ts], [session/manager.ts]
      - [debugger/src/tools/breakpoints.ts], [tools/execution.ts]
      - [debugger/src/dap/client.ts]            (class [DapClient])
      - [debugger/src/adapter/python.ts], [adapter/node.ts]
    together with the properties the specification states about them. *)

From Stdlib Require Import ZArith String Ascii List Bool Lia DecimalString.
From stdpp Require Import base option list gmap strings.


Local Open Scope Z_scope.

(** ** Results of fallible code

    A function that may [throw new Error(msg)] returns [Throw msg]. *)
Inductive Result (A : Type) : Type :=
| Ok (a : A)
| Throw (msg : string).
Arguments Ok {A} a.
Arguments Throw {A} msg.

Definition is_ok {A} (r : Result A) : bool :=
  match r with Ok _ => true | Throw _ => false end.

(** The double quote character, for the error messages that quote a value. *)
Definition dquote : string := String "034"%char EmptyString.

(** ** JavaScript numbers holding integers

    A JS [number] is an IEEE-754 double.  On integers, [x + y] is the exact
    sum rounded to the nearest double, ties to the even significand.  Every
    integer of magnitude at most 2^53 is a double, so the rounding only shows
    above that bound (overflow to Infinity, beyond 2^1024, is out of reach of
    the counters below and is not modelled). *)
Module JS.

Definition MAX_EXACT : Z := 2 ^ 53.

Definition round (z : Z) : Z :=
  let a := Z.abs z in
  if a <=? MAX_EXACT then z
  else
    let e := Z.log2 a - 52 in
    let q := a / 2 ^ e in
    let r := a mod 2 ^ e in
    let half := 2 ^ (e - 1) in
    let q' := if r <? half then q
              else if half <? r then q + 1
              else if Z.even q then q else q + 1 in
    Z.sgn z * (q' * 2 ^ e).

Definition add (x y : Z) : Z := round (x + y).

(** [String.prototype.endsWith]: some tail of [s] is [suf]. *)
Fixpoint endsWith (s suf : string) : bool :=
  String.eqb s suf ||
  match s with
  | EmptyString => false
  | String _ s' => endsWith s' suf
  end.

(** [String.prototype.startsWith]. *)
Definition startsWith (s pre : string) : bool := String.prefix pre s.

End JS.

(** ** The debug-workflow phase machine ([namespace DebugPhase]) *)
Module DebugPhase.

Inductive Phase : Set :=
| PLANNING | CODING | BREAKPOINTING | DEBUGGING | EXPLAINING | CONFIRMING.

#[global] Instance Phase_eq_dec : EqDecision Phase.
Proof. solve_decision. Defined.

Definition PHASES : list Phase :=
  [PLANNING; CODING; BREAKPOINTING; DEBUGGING; EXPLAINING; CONFIRMING].

Definition phase_name (p : Phase) : string :=
  match p with
  | PLANNING => "PLANNING"
  | CODING => "CODING"
  | BREAKPOINTING => "BREAKPOINTING"
  | DEBUGGING => "DEBUGGING"
  | EXPLAINING => "EXPLAINING"
  | CONFIRMING => "CONFIRMING"
  end.

Record State : Type := mkState {
  sessionID : string;
  currentPhase : Phase;
  currentStep : Z;
  totalSteps : option Z;
  stepDescriptions : list string;
  autoConfirm : bool
}.

Definition VALID_TRANSITIONS (p : Phase) : list Phase :=
  match p with
  | PLANNING => [CODING]
  | CODING => [BREAKPOINTING]
  | BREAKPOINTING => [DEBUGGING]
  | DEBUGGING => [EXPLAINING]
  | EXPLAINING => [CONFIRMING]
  | CONFIRMING => [PLANNING]
  end.

Definition PHASE_TOOLS (p : Phase) : list string :=
  match p with
  | PLANNING => ["read"; "glob"; "grep"; "task"; "transitionPhase"]
  | CODING =>
      ["read"; "glob"; "grep"; "edit"; "write"; "bash"; "apply_patch";
       "transitionPhase"]
  | BREAKPOINTING =>
      ["debugger_set_breakpoints"; "debugger_remove_breakpoints";
       "debugger_list_breakpoints"; "read"; "transitionPhase"]
  | DEBUGGING =>
      ["debugger_start_debug_session"; "debugger_continue_execution";
       "debugger_step_over"; "debugger_step_into"; "debugger_step_out";
       "debugger_get_variables"; "debugger_get_call_stack";
       "debugger_evaluate_expression"; "debugger_list_breakpoints";
       "transitionPhase"]
  | EXPLAINING => ["transitionPhase"]
  | CONFIRMING => ["debugger_stop_debug_session"; "transitionPhase"]
  end.

(** The in-memory store keyed by session id ([const store = new Map]). *)
Abbreviation Store := (gmap string State).

(** [Array.prototype.join(", ")]. *)
Fixpoint join (sep : string) (l : list string) : string :=
  match l with
  | [] => ""
  | [x] => x
  | x :: rest => x +:+ sep +:+ join sep rest
  end.

Definition create (sid : string) (store : Store) : State * Store :=
  let state := {| sessionID := sid; currentPhase := PLANNING;
                  currentStep := 0; totalSteps := None;
                  stepDescriptions := []; autoConfirm := false |} in
  (state, <[sid := state]> store).

Definition get (sid : string) (store : Store) : option State := store !! sid.

Definition getOrCreate (sid : string) (store : Store) : State * Store :=
  match store !! sid with
  | Some st => (st, store)
  | None => create sid store
  end.

Definition includes (l : list Phase) (p : Phase) : bool :=
  existsb (fun q => bool_decide (q = p)) l.

Definition transition_error (from to : Phase) : string :=
  "Cannot transition from " +:+ phase_name from +:+ " to " +:+ phase_name to
  +:+ ". Valid transitions: "
  +:+ join ", " (map phase_name (VALID_TRANSITIONS from)).

(** [transition(state, to)]: the store is written on success only. *)
Definition transition (state : State) (to : Phase) (store : Store)
  : Result State * Store :=
  let allowed := VALID_TRANSITIONS (currentPhase state) in
  if negb (includes allowed to) then
    (Throw (transition_error (currentPhase state) to), store)
  else
    let nextStep :=
      if bool_decide (currentPhase state = CONFIRMING)
         && bool_decide (to = PLANNING)
      then JS.add (currentStep state) 1
      else currentStep state in
    let next := {| sessionID := sessionID state;
                   currentPhase := to;
                   currentStep := nextStep;
                   totalSteps := totalSteps state;
                   stepDescriptions := stepDescriptions state;
                   autoConfirm := autoConfirm state |} in
    (Ok next, <[sessionID state := next]> store).

Definition toolsForPhase (p : Phase) : list string := PHASE_TOOLS p.

Definition isToolAllowed (p : Phase) (toolID : string) : bool :=
  existsb (String.eqb toolID) (PHASE_TOOLS p).

Definition clear (sid : string) (store : Store) : Store := delete sid store.

(** What [TransitionPhaseTool.execute] reports in [metadata]. *)
Record Metadata : Type := mkMetadata {
  md_phase : Phase;
  md_step : Z;
  md_error : bool
}.

(** [TransitionPhaseTool.execute(args, ctx)]: look the state of the session
    up (creating it when absent), try the transition, and report the new
    state, or the unchanged one with [error] set when [transition] threw. *)
Definition execute (sid : string) (to : Phase) (store : Store)
  : Metadata * Store :=
  let '(state, store1) := getOrCreate sid store in
  match transition state to store1 with
  | (Ok next, store2) =>
      ({| md_phase := currentPhase next; md_step := currentStep next;
          md_error := false |}, store2)
  | (Throw _, store2) =>
      ({| md_phase := currentPhase state; md_step := currentStep state;
          md_error := true |}, store2)
  end.

(** The single successor of a phase in the ring. *)
Definition successor (p : Phase) : Phase :=
  match p with
  | PLANNING => CODING
  | CODING => BREAKPOINTING
  | BREAKPOINTING => DEBUGGING
  | DEBUGGING => EXPLAINING
  | EXPLAINING => CONFIRMING
  | CONFIRMING => PLANNING
  end.

(** A caller that applies [transition] for each requested phase in turn,
    carrying on with the unchanged state when a call throws (as the tests of
    the module and [execute] do). *)
Fixpoint run (state : State) (tos : list Phase) (store : Store)
  : State * Store :=
  match tos with
  | [] => (state, store)
  | to :: rest =>
      match transition state to store with
      | (Ok next, store') => run next rest store'
      | (Throw _, store') => run state rest store'
      end
  end.

(** Number of completed CONFIRMING -> PLANNING edges when the requests [tos]
    are made from phase [p]: a request completes exactly when it names the
    successor of the phase reached so far. *)
Fixpoint completed_cycles (p : Phase) (tos : list Phase) : nat :=
  match tos with
  | [] => 0%nat
  | to :: rest =>
      if bool_decide (to = successor p) then
        ((if bool_decide (p = CONFIRMING) then 1 else 0)
         + completed_cycles to rest)%nat
      else completed_cycles p rest
  end.

(** The list of outcomes (success or failure) of the calls of [run]. *)
Fixpoint outcomes (state : State) (tos : list Phase) (store : Store)
  : list bool :=
  match tos with
  | [] => []
  | to :: rest =>
      match transition state to store with
      | (Ok next, store') => true :: outcomes next rest store'
      | (Throw _, store') => false :: outcomes state rest store'
      end
  end.

End DebugPhase.

(** ** Adapter registry ([adapter/registry.ts]) *)
Module Registry.

Definition detect_error (program : string) : string :=
  "Cannot auto-detect debug type for " +:+ dquote +:+ program +:+ dquote
  +:+ ". Specify type explicitly (" +:+ dquote +:+ "node" +:+ dquote
  +:+ " or " +:+ dquote +:+ "python" +:+ dquote +:+ ").".

(** [detectType(program)]: the adapter type from the file extension. *)
Definition detectType (program : string) : Result string :=
  if JS.endsWith program ".py" then Ok "python"
  else if JS.endsWith program ".js"
          || JS.endsWith program ".ts"
          || JS.endsWith program ".mjs"
          || JS.endsWith program ".cjs"
          || JS.endsWith program ".tsx"
          || JS.endsWith program ".jsx"
  then Ok "node"
  else Throw (detect_error program).

(** The types for which [factories] holds a factory. *)
Definition factories : list string := ["node"; "python"].

End Registry.

(** ** Breakpoint records ([dap/types.ts], [adapter/base.ts],
       [session/state.ts])

    Line and column numbers are JS numbers; they are compared with [===]
    and copied, never computed with, so they are modelled by integers. *)
Record SourceBreakpoint : Type := mkSourceBreakpoint {
  sb_line : Z;
  sb_column : option Z;
  sb_condition : option string;
  sb_hitCondition : option string;
  sb_logMessage : option string
}.

Record BreakpointResult : Type := mkBreakpointResult {
  br_id : option Z;
  br_verified : bool;
  br_line : option Z;
  br_message : option string
}.

Record BreakpointInfo : Type := mkBreakpointInfo {
  line : Z;
  column : option Z;
  condition : option string;
  hitCondition : option string;
  logMessage : option string;
  verified : bool;
  id : option Z
}.

(** ** The adapter interface ([interface DebugAdapter])

    The breakpoint tools only use [setBreakpoints]; an adapter is a state
    of some type [A] together with this operation, which may throw. *)
Class DebugAdapter (A : Type) : Type := {
  adapter_id : A -> string;
  setBreakpoints :
    A -> string -> list SourceBreakpoint -> Result (list BreakpointResult) * A
}.

(** ** Session state ([session/state.ts]) *)
Module Session.

Record SessionState (A : Type) : Type := mkSessionState {
  sid : string;
  adapter : A;
  breakpoints : gmap string (list BreakpointInfo);
  stoppedThreadId : option Z;
  stoppedReason : option string
}.
Arguments mkSessionState {A}.
Arguments sid {A}.
Arguments adapter {A}.
Arguments breakpoints {A}.
Arguments stoppedThreadId {A}.
Arguments stoppedReason {A}.

Definition createSessionState {A} (i : string) (a : A) : SessionState A :=
  {| sid := i; adapter := a; breakpoints := ∅;
     stoppedThreadId := None; stoppedReason := None |}.

Definition with_adapter {A} (s : SessionState A) (a : A) : SessionState A :=
  {| sid := sid s; adapter := a; breakpoints := breakpoints s;
     stoppedThreadId := stoppedThreadId s; stoppedReason := stoppedReason s |}.

Definition with_breakpoints {A} (s : SessionState A)
    (m : gmap string (list BreakpointInfo)) : SessionState A :=
  {| sid := sid s; adapter := adapter s; breakpoints := m;
     stoppedThreadId := stoppedThreadId s; stoppedReason := stoppedReason s |}.

Definition getBreakpointsForFile {A} (state : SessionState A) (file : string)
  : list BreakpointInfo :=
  default [] (breakpoints state !! file).

Definition setBreakpointsForFile {A} (state : SessionState A) (file : string)
    (bps : list BreakpointInfo) : SessionState A :=
  if (length bps =? 0)%nat
  then with_breakpoints state (delete file (breakpoints state))
  else with_breakpoints state (<[file := bps]> (breakpoints state)).

(** [getAllBreakpoints]: the object built from the entries of the map.
    Files are absolute paths, so the keys are ordinary own properties. *)
Definition getAllBreakpoints {A} (state : SessionState A)
  : gmap string (list BreakpointInfo) :=
  breakpoints state.

Definition toSourceBreakpoint (bp : BreakpointInfo) : SourceBreakpoint :=
  {| sb_line := line bp; sb_column := column bp;
     sb_condition := condition bp; sb_hitCondition := hitCondition bp;
     sb_logMessage := logMessage bp |}.

Definition toSourceBreakpoints (infos : list BreakpointInfo)
  : list SourceBreakpoint :=
  map toSourceBreakpoint infos.

End Session.

(** ** The breakpoint tools ([tools/breakpoints.ts])

    Each tool call is modelled as one atomic step on the active session:
    the handler runs to its [await] of the adapter and resumes with the
    adapter's answer, no other tool call in between. *)
Module BreakpointTools.
Import Session.

(** [{ ...bp, verified: false }] *)
Definition unverified (bp : SourceBreakpoint) : BreakpointInfo :=
  {| line := sb_line bp; column := sb_column bp;
     condition := sb_condition bp; hitCondition := sb_hitCondition bp;
     logMessage := sb_logMessage bp; verified := false; id := None |}.

(** [merged.findIndex((e) => e.line === l)] *)
Fixpoint findIndex (l : Z) (merged : list BreakpointInfo) : option nat :=
  match merged with
  | [] => None
  | e :: rest =>
      if line e =? l then Some 0%nat
      else option_map S (findIndex l rest)
  end.

(** One turn of the merge loop. *)
Definition merge_step (merged : list BreakpointInfo) (bp : SourceBreakpoint)
  : list BreakpointInfo :=
  match findIndex (sb_line bp) merged with
  | Some idx => <[idx := unverified bp]> merged
  | None => merged ++ [unverified bp]
  end.

Definition merge (existing : list BreakpointInfo)
    (bps : list SourceBreakpoint) : list BreakpointInfo :=
  fold_left merge_step bps existing.

(** The element of [merged.map((bp, i) => ...)] at index [i], from
    [results[i]] (absent when the adapter returned fewer results). *)
Definition apply_result (bp : BreakpointInfo) (r : option BreakpointResult)
  : BreakpointInfo :=
  {| line := default (line bp) (r ≫= br_line);
     column := column bp; condition := condition bp;
     hitCondition := hitCondition bp; logMessage := logMessage bp;
     verified := default false (br_verified <$> r);
     id := r ≫= br_id |}.

Fixpoint apply_results (merged : list BreakpointInfo)
    (results : list BreakpointResult) : list BreakpointInfo :=
  match merged with
  | [] => []
  | bp :: rest =>
      apply_result bp (head results) :: apply_results rest (tail results)
  end.

(** The same for [remove_breakpoints], which keeps the stored line. *)
Definition apply_result_keep_line (bp : BreakpointInfo)
    (r : option BreakpointResult) : BreakpointInfo :=
  {| line := line bp;
     column := column bp; condition := condition bp;
     hitCondition := hitCondition bp; logMessage := logMessage bp;
     verified := default false (br_verified <$> r);
     id := r ≫= br_id |}.

Fixpoint apply_results_keep_line (remaining : list BreakpointInfo)
    (results : list BreakpointResult) : list BreakpointInfo :=
  match remaining with
  | [] => []
  | bp :: rest =>
      apply_result_keep_line bp (head results)
      :: apply_results_keep_line rest (tail results)
  end.

(** What the tool reports for one breakpoint. *)
Record Reported : Type := mkReported {
  rp_line : Z;
  rp_verified : bool;
  rp_condition : option string
}.

Definition report (bp : BreakpointInfo) : Reported :=
  {| rp_line := line bp; rp_verified := verified bp;
     rp_condition := condition bp |}.

Section Tools.
Context {A : Type} `{DebugAdapter A}.

(** [set_breakpoints({ file, breakpoints })] on the active session. *)
Definition set_breakpoints (file : string) (bps : list SourceBreakpoint)
    (session : SessionState A) : Result (list Reported) * SessionState A :=
  let existing := getBreakpointsForFile session file in
  let merged := merge existing bps in
  match setBreakpoints (adapter session) file (toSourceBreakpoints merged) with
  | (Throw e, a') => (Throw e, with_adapter session a')
  | (Ok results, a') =>
      let updated := apply_results merged results in
      (Ok (map report updated),
       setBreakpointsForFile (with_adapter session a') file updated)
  end.

(** [remove_breakpoints({ file, lines })]; [lines = None] when omitted. *)
Definition remove_breakpoints (file : string) (lines : option (list Z))
    (session : SessionState A) : Result nat * SessionState A :=
  let existing := getBreakpointsForFile session file in
  let remaining :=
    match lines with
    | Some ls =>
        filter (fun bp => negb (existsb (Z.eqb (line bp)) ls) = true) existing
    | None => []
    end in
  if (0 <? length remaining)%nat then
    match setBreakpoints (adapter session) file
            (toSourceBreakpoints remaining) with
    | (Throw e, a') => (Throw e, with_adapter session a')
    | (Ok results, a') =>
        (Ok (length remaining),
         setBreakpointsForFile (with_adapter session a') file
           (apply_results_keep_line remaining results))
    end
  else
    match setBreakpoints (adapter session) file [] with
    | (Throw e, a') => (Throw e, with_adapter session a')
    | (Ok _, a') =>
        (Ok (length remaining),
         setBreakpointsForFile (with_adapter session a') file [])
    end.

(** [list_breakpoints()] *)
Definition list_breakpoints (session : SessionState A)
  : gmap string (list BreakpointInfo) :=
  getAllBreakpoints session.

End Tools.

End BreakpointTools.

(** ** A JS [Map] with insertion order

    [Map.prototype.set] replaces the value of a present key in place and
    appends an absent one; iteration follows insertion order. *)
Module JSMap.
Section JSMap.
Context {V : Type}.

Fixpoint get (k : Z) (m : list (Z * V)) : option V :=
  match m with
  | [] => None
  | (k', v) :: rest => if k' =? k then Some v else get k rest
  end.

Fixpoint set (k : Z) (v : V) (m : list (Z * V)) : list (Z * V) :=
  match m with
  | [] => [(k, v)]
  | (k', v') :: rest =>
      if k' =? k then (k', v) :: rest else (k', v') :: set k v rest
  end.

Fixpoint delete (k : Z) (m : list (Z * V)) : list (Z * V) :=
  match m with
  | [] => []
  | (k', v') :: rest =>
      if k' =? k then rest else (k', v') :: delete k rest
  end.

Definition keys (m : list (Z * V)) : list Z := map fst m.
Definition values (m : list (Z * V)) : list V := map snd m.

End JSMap.
End JSMap.

(** ** The DAP wire client ([dap/client.ts], class [DapClient]) *)
Module Dap.

(** *** Messages ([dap/types.ts])

    Request arguments and response bodies are JSON objects; they are given
    here by the shapes that the adapter sends and reads. *)
Inductive Arguments : Type :=
| ArgsEmpty
| ArgsThread (threadId : Z)
| ArgsStackTrace (threadId : Z) (startFrame levels : Z)
| ArgsScopes (frameId : Z)
| ArgsVariables (variablesReference : Z)
| ArgsSetBreakpoints (path : string) (bps : list SourceBreakpoint)
| ArgsDisconnect (terminateDebuggee : bool).

Record Request : Type := mkRequest {
  rq_seq : Z;
  rq_command : string;
  rq_arguments : option Arguments
}.

Record Scope : Type := mkScope {
  sc_name : string;
  sc_variablesReference : Z
}.

Record Variable_ : Type := mkVariable {
  v_name : string;
  v_value : string;
  v_type : option string;
  v_variablesReference : option Z
}.

Record Frame : Type := mkFrame {
  f_id : Z;
  f_name : string;
  f_path : option string;
  f_line : Z;
  f_column : Z
}.

Record Breakpoint : Type := mkBreakpoint {
  b_id : option Z;
  b_verified : option bool;
  b_line : option Z;
  b_message : option string
}.

Record Body : Type := mkBody {
  breakpoints : option (list Breakpoint);
  stackFrames : option (list Frame);
  scopes : option (list Scope);
  variables : option (list Variable_);
  reason : option string;
  threadId : option Z;
  description : option string
}.

Definition empty_body : Body :=
  {| breakpoints := None; stackFrames := None; scopes := None;
     variables := None; reason := None; threadId := None;
     description := None |}.

Record Response : Type := mkResponse {
  request_seq : Z;
  success : bool;
  command : string;
  message : option string;
  body : option Body
}.

(** A decoded message.  [MOther] stands for every parsed value that is
    neither a response nor an event (a request, or a response whose
    [request_seq] is not a number): [handleMessage] ignores it. *)
Inductive DapMessage : Type :=
| MResponse (r : Response)
| MEvent (event : string) (ebody : option Body)
| MOther.

(** *** The client state

    A promise returned by [sendRequest] is named by a number; [settled]
    records, in order, which promise was resolved or rejected and how, and
    [written] what was passed to [socket.write]. *)
Inductive Outcome : Type :=
| Fulfilled (r : Response)
| Rejected (msg : string).

Abbreviation Promise := nat.
Abbreviation Handler := nat.

Record DapClient : Type := mkDapClient {
  seq : Z;
  pending : list (Z * Promise);
  eventHandlers : gmap string (list Handler);
  buffer : list Byte.byte;
  connected : bool;
  written : list Request;
  settled : list (Promise * Outcome);
  promises : nat
}.

(** [new DapClient(host, port)] *)
Definition new : DapClient :=
  {| seq := 1; pending := []; eventHandlers := ∅; buffer := [];
     connected := false; written := []; settled := []; promises := 0 |}.

Definition set_buffer (c : DapClient) (b : list Byte.byte) : DapClient :=
  {| seq := seq c; pending := pending c; eventHandlers := eventHandlers c;
     buffer := b; connected := connected c; written := written c;
     settled := settled c; promises := promises c |}.

Definition set_handlers (c : DapClient) (h : gmap string (list Handler))
  : DapClient :=
  {| seq := seq c; pending := pending c; eventHandlers := h;
     buffer := buffer c; connected := connected c; written := written c;
     settled := settled c; promises := promises c |}.

(** The socket's connect callback. *)
Definition on_connect (c : DapClient) : DapClient :=
  {| seq := seq c; pending := pending c; eventHandlers := eventHandlers c;
     buffer := buffer c; connected := true; written := written c;
     settled := settled c; promises := promises c |}.

(** The socket's ["close"] listener installed by [connect]. *)
Definition on_close (c : DapClient) : DapClient :=
  {| seq := seq c;
     pending := [];
     eventHandlers := eventHandlers c;
     buffer := buffer c;
     connected := false;
     written := written c;
     settled := settled c
                ++ map (fun p => (p, Rejected "Connection closed"))
                       (JSMap.values (pending c));
     promises := promises c |}.

(** [sendRequest(command, args)]: returns the promise. *)
Definition sendRequest (cmd : string) (args : option Arguments)
    (c : DapClient) : Promise * DapClient :=
  let s := seq c in
  let request := {| rq_seq := s; rq_command := cmd; rq_arguments := args |} in
  let p := promises c in
  (p, {| seq := JS.add s 1;
         pending := JSMap.set s p (pending c);
         eventHandlers := eventHandlers c;
         buffer := buffer c;
         connected := connected c;
         written := written c ++ [request];
         settled := settled c;
         promises := S p |}).

(** [Set.prototype.add] / [delete] on the handlers of an event. *)
Definition set_add (h : Handler) (hs : list Handler) : list Handler :=
  if existsb (Nat.eqb h) hs then hs else hs ++ [h].

Definition set_delete (h : Handler) (hs : list Handler) : list Handler :=
  filter (fun h' => h' ≠ h) hs.

Definition on (event : string) (h : Handler) (c : DapClient) : DapClient :=
  set_handlers c
    (<[event := set_add h (default [] (eventHandlers c !! event))]>
       (eventHandlers c)).

Definition off (event : string) (h : Handler) (c : DapClient) : DapClient :=
  match eventHandlers c !! event with
  | Some hs => set_handlers c (<[event := set_delete h hs]> (eventHandlers c))
  | None => c
  end.

(** [disconnect()]: [socket.destroy()] (the ["close"] event comes later). *)
Definition disconnect (c : DapClient) : DapClient :=
  {| seq := seq c; pending := pending c; eventHandlers := eventHandlers c;
     buffer := buffer c; connected := false; written := written c;
     settled := settled c; promises := promises c |}.

(** What a registered handler can do to the client while it runs: call
    its public methods. *)
Inductive ApiCall : Type :=
| CallSend (cmd : string) (args : option Arguments)
| CallOn (event : string) (h : Handler)
| CallOff (event : string) (h : Handler)
| CallDisconnect.

Definition apply_call (c : DapClient) (call : ApiCall) : DapClient :=
  match call with
  | CallSend cmd args => snd (sendRequest cmd args c)
  | CallOn ev h => on ev h c
  | CallOff ev h => off ev h c
  | CallDisconnect => disconnect c
  end.

(** [response.message ?? `Request failed: ${response.command}`] *)
Definition failure_message (r : Response) : string :=
  default ("Request failed: " +:+ command r) (message r).

(** The [response] branch of [handleMessage]. *)
Definition handleResponse (r : Response) (c : DapClient) : DapClient :=
  match JSMap.get (request_seq r) (pending c) with
  | Some p =>
      {| seq := seq c;
         pending := JSMap.delete (request_seq r) (pending c);
         eventHandlers := eventHandlers c;
         buffer := buffer c;
         connected := connected c;
         written := written c;
         settled := settled c
                    ++ [(p, if success r then Fulfilled r
                            else Rejected (failure_message r))];
         promises := promises c |}
  | None => c
  end.

(** *** Framing *)

Definition CRLFCRLF : list Byte.byte := list_byte_of_string (String "013" (String "010" (String "013" (String "010" EmptyString)))).

Fixpoint starts_with (needle hay : list Byte.byte) : bool :=
  match needle, hay with
  | [], _ => true
  | _ :: _, [] => false
  | n :: needle', h :: hay' => Byte.eqb n h && starts_with needle' hay'
  end.

(** [Buffer.prototype.indexOf]: where the first occurrence starts. *)
Fixpoint indexOf (needle hay : list Byte.byte) : option nat :=
  if starts_with needle hay then Some 0%nat
  else match hay with
       | [] => None
       | _ :: hay' => option_map S (indexOf needle hay')
       end.

Definition code (b : Byte.byte) : N := Byte.to_N b.

Definition is_digit (b : Byte.byte) : bool :=
  ((48 <=? code b) && (code b <=? 57))%N.

(** ASCII case folding, as the [i] flag does on the letters of the
    pattern (a character outside ASCII never folds to an ASCII one). *)
Definition fold_case (b : Byte.byte) : N :=
  if ((65 <=? code b) && (code b <=? 90))%N then (code b + 32)%N else code b.

Definition literal : list Byte.byte := list_byte_of_string "content-length:".

Fixpoint match_literal (lit l : list Byte.byte) : option (list Byte.byte) :=
  match lit, l with
  | [], _ => Some l
  | _ :: _, [] => None
  | x :: lit', b :: l' =>
      if (fold_case b =? code x)%N then match_literal lit' l' else None
  end.

(** The white space of [\s] in one byte: TAB, LF, VT, FF, CR, SP. *)
Definition is_space1 (b : Byte.byte) : bool :=
  let n := code b in
  ((9 <=? n) && (n <=? 13) || (n =? 32))%N.

(** U+00A0, as UTF-8. *)
Definition is_space2 (b1 b2 : Byte.byte) : bool :=
  ((code b1 =? 194) && (code b2 =? 160))%N.

(** U+1680, U+2000..U+200A, U+2028, U+2029, U+202F, U+205F, U+3000 and
    U+FEFF, as UTF-8. *)
Definition is_space3 (b1 b2 b3 : Byte.byte) : bool :=
  let '(x, y, z) := (code b1, code b2, code b3) in
  ((x =? 225) && (y =? 154) && (z =? 128)
   || (x =? 226) && (y =? 128)
      && ((128 <=? z) && (z <=? 138) || (z =? 168) || (z =? 169) || (z =? 175))
   || (x =? 226) && (y =? 129) && (z =? 159)
   || (x =? 227) && (y =? 128) && (z =? 128)
   || (x =? 239) && (y =? 187) && (z =? 191))%N.

(** [\s*]: drop the longest run of white space. *)
Fixpoint skip_space (l : list Byte.byte) : list Byte.byte :=
  match l with
  | [] => []
  | b1 :: r1 =>
      if is_space1 b1 then skip_space r1
      else match r1 with
           | [] => l
           | b2 :: r2 =>
               if is_space2 b1 b2 then skip_space r2
               else match r2 with
                    | [] => l
                    | b3 :: r3 =>
                        if is_space3 b1 b2 b3 then skip_space r3 else l
                    end
           end
  end.

(** [(\d+)]: the longest run of digits. *)
Fixpoint take_digits (l : list Byte.byte) : list Byte.byte :=
  match l with
  | [] => []
  | b :: r => if is_digit b then b :: take_digits r else []
  end.

(** The pattern tried at the start of [l]. *)
Definition match_here (l : list Byte.byte) : option (list Byte.byte) :=
  match match_literal literal l with
  | None => None
  | Some rest =>
      match take_digits (skip_space rest) with
      | [] => None
      | ds => Some ds
      end
  end.

(** [header.match(/Content-Length:\s*(\d+)/i)]: the digits captured by the
    leftmost match.  The header is the UTF-8 decoding of the bytes; the
    letters and digits of the pattern are ASCII, which UTF-8 decodes byte
    for byte, and the white space is recognised on its encodings. *)
Fixpoint header_match (header : list Byte.byte) : option (list Byte.byte) :=
  match match_here header with
  | Some ds => Some ds
  | None =>
      match header with
      | [] => None
      | _ :: rest => header_match rest
      end
  end.

(** [parseInt(digits, 10)] on a run of digits; the value is a JS number. *)
Definition decimal (ds : list Byte.byte) : Z :=
  fold_left (fun acc b => acc * 10 + (Z.of_N (code b) - 48)) ds 0.

Definition parseInt (ds : list Byte.byte) : Z := JS.round (decimal ds).

Section Client.

(** [JSON.parse(content.toString())] cast to a DAP message; [None] when it
    throws.  The parser is the platform's. *)
Variable JSON_parse : list Byte.byte -> option DapMessage.

(** The calls that the handlers registered for [event] make back into the
    client while [handleMessage] runs them, in order.  The handlers are the
    caller's closures. *)
Variable handler_calls : DapClient -> string -> Body -> list ApiCall.

(** [handleMessage(message)] *)
Definition handleMessage (m : DapMessage) (c : DapClient) : DapClient :=
  match m with
  | MResponse r => handleResponse r c
  | MEvent ev b =>
      match eventHandlers c !! ev with
      | Some _ =>
          fold_left apply_call (handler_calls c ev (default empty_body b)) c
      | None => c
      end
  | MOther => c
  end.

(** The loop of [onData]: [None] only when the fuel is used up. *)
Fixpoint drain (fuel : nat) (c : DapClient) : option DapClient :=
  match fuel with
  | O => None
  | S fuel' =>
      match indexOf CRLFCRLF (buffer c) with
      | None => Some c
      | Some headerEnd =>
          let header := take headerEnd (buffer c) in
          match header_match header with
          | None => drain fuel' (set_buffer c (drop (headerEnd + 4) (buffer c)))
          | Some ds =>
              let contentLength := parseInt ds in
              let contentStart := Z.of_nat headerEnd + 4 in
              if Z.of_nat (length (buffer c))
                 <? JS.add contentStart contentLength
              then Some c
              else
                let contentEnd := JS.add contentStart contentLength in
                let content :=
                  take (Z.to_nat contentEnd - Z.to_nat contentStart)
                       (drop (Z.to_nat contentStart) (buffer c)) in
                let c1 :=
                  set_buffer c (drop (Z.to_nat contentEnd) (buffer c)) in
                drain fuel'
                  (match JSON_parse content with
                   | Some m => handleMessage m c1
                   | None => c1
                   end)
          end
      end
  end.

(** [onData(data)]: every turn of the loop that does not leave it drops at
    least the four bytes of the separator, so the length of the buffer is
    fuel enough. *)
Definition onData (data : list Byte.byte) (c : DapClient) : option DapClient :=
  let c0 := set_buffer c (buffer c ++ data) in
  drain (S (length (buffer c0))) c0.

End Client.

End Dap.

(** ** What the two adapters share ([adapter/base.ts]) *)

Record StoppedInfo : Type := mkStoppedInfo {
  si_reason : string;
  si_threadId : option Z;
  si_description : option string
}.

Record Location : Type := mkLocation {
  loc_file : option string;
  loc_line : option Z;
  loc_column : option Z;
  loc_name : option string
}.

Record StopResult : Type := mkStopResult {
  sr_reason : string;
  sr_threadId : option Z;
  sr_location : option Location;
  sr_terminated : bool
}.

(** The callbacks held in an adapter's [stoppedCallbacks]: the one that
    [SessionManager.create] registers through [onStopped], and the
    listener of the [k]-th call of [waitForStop] / [waitForPause]. *)
Inductive Callback : Set :=
| CbTracker
| CbWaiter (k : nat).

#[global] Instance Callback_eq_dec : EqDecision Callback.
Proof. solve_decision. Defined.

(** The operations that resume the debuggee. *)
Inductive ResumeOp : Set := Continue | StepOver | StepIn | StepOut.

(** The effects of an adapter in the order in which they happen:
    arming the timeout of waiter [k], pushing its listener on
    [stoppedCallbacks], subscribing it to the ["terminated"] event and to
    the exit of the child process, and writing a request on the wire. *)
Inductive Effect : Type :=
| EvTimer (k : nat)
| EvListen (k : nat)
| EvSubscribe (k : nat)
| EvOnceExit (k : nat)
| EvWrite (cmd : string).

(** [const idx = a.indexOf(x); if (idx >= 0) a.splice(idx, 1)] *)
Fixpoint remove_first (x : Callback) (l : list Callback) : list Callback :=
  match l with
  | [] => []
  | y :: rest => if bool_decide (y = x) then rest else y :: remove_first x rest
  end.

Definition terminated_result : StopResult :=
  {| sr_reason := "terminated"; sr_threadId := None; sr_location := None;
     sr_terminated := true |}.

(** ** The DAP adapter for Python ([adapter/python.ts]) *)
Module PythonAdapter.

(** What the debug server answers to a request. *)
Record Reply : Type := mkReply {
  ok : bool;
  msg : option string;
  rbody : option Dap.Body
}.

Record T : Type := mkT {
  process : bool;
  client : option Dap.DapClient;
  stoppedCallbacks : list Callback;
  threadId : Z;
  frameIds : list Z;
  initialPausePromise : option nat;
  waiters : nat;
  timers : list nat;
  exitListeners : list nat;
  resolved : list (nat * StopResult);
  events : list Effect
}.

(** [new PythonAdapter()] *)
Definition new : T :=
  {| process := false; client := None; stoppedCallbacks := [];
     threadId := 1; frameIds := []; initialPausePromise := None;
     waiters := 0; timers := []; exitListeners := []; resolved := [];
     events := [] |}.

(** The handler of the ["stopped"] event is handler 0 of the client; the
    ["terminated"] handler of waiter [k] is handler [S k]. *)
Definition stopped_handler : Dap.Handler := 0%nat.
Definition terminated_handler (k : nat) : Dap.Handler := S k.

Definition dap_command (op : ResumeOp) : string :=
  match op with
  | Continue => "continue"
  | StepOver => "next"
  | StepIn => "stepIn"
  | StepOut => "stepOut"
  end.

(** [onStopped(cb)] *)
Definition onStopped (cb : Callback) (a : T) : T :=
  {| process := process a; client := client a;
     stoppedCallbacks := stoppedCallbacks a ++ [cb];
     threadId := threadId a; frameIds := frameIds a;
     initialPausePromise := initialPausePromise a;
     waiters := waiters a; timers := timers a;
     exitListeners := exitListeners a; resolved := resolved a;
     events := events a |}.

(** [waitForStop()]: the executor of the promise runs at once. *)
Definition waitForStop (a : T) : nat * T :=
  let k := waiters a in
  (k,
   {| process := process a;
      client := Dap.on "terminated" (terminated_handler k) <$> client a;
      stoppedCallbacks := stoppedCallbacks a ++ [CbWaiter k];
      threadId := threadId a; frameIds := frameIds a;
      initialPausePromise := initialPausePromise a;
      waiters := S k;
      timers := timers a ++ [k];
      exitListeners :=
        if process a then exitListeners a ++ [k] else exitListeners a;
      resolved := resolved a;
      events :=
        events a ++ [EvTimer k; EvListen k]
        ++ (match client a with Some _ => [EvSubscribe k] | None => [] end)
        ++ (if process a then [EvOnceExit k] else []) |}).

(** [cleanup()] of waiter [k]. *)
Definition cleanup (k : nat) (a : T) : T :=
  {| process := process a;
     client := Dap.off "terminated" (terminated_handler k) <$> client a;
     stoppedCallbacks := remove_first (CbWaiter k) (stoppedCallbacks a);
     threadId := threadId a; frameIds := frameIds a;
     initialPausePromise := initialPausePromise a;
     waiters := waiters a;
     timers := filter (fun t => t ≠ k) (timers a);
     exitListeners := filter (fun t => t ≠ k) (exitListeners a);
     resolved := resolved a;
     events := events a |}.

Definition set_client (a : T) (c : Dap.DapClient) (ev : list Effect) : T :=
  {| process := process a; client := Some c;
     stoppedCallbacks := stoppedCallbacks a;
     threadId := threadId a; frameIds := frameIds a;
     initialPausePromise := initialPausePromise a;
     waiters := waiters a; timers := timers a;
     exitListeners := exitListeners a; resolved := resolved a;
     events := events a ++ ev |}.

Definition set_frameIds (a : T) (ids : list Z) : T :=
  {| process := process a; client := client a;
     stoppedCallbacks := stoppedCallbacks a;
     threadId := threadId a; frameIds := ids;
     initialPausePromise := initialPausePromise a;
     waiters := waiters a; timers := timers a;
     exitListeners := exitListeners a; resolved := resolved a;
     events := events a |}.

Definition set_threadId (a : T) (t : Z) : T :=
  {| process := process a; client := client a;
     stoppedCallbacks := stoppedCallbacks a;
     threadId := t; frameIds := frameIds a;
     initialPausePromise := initialPausePromise a;
     waiters := waiters a; timers := timers a;
     exitListeners := exitListeners a; resolved := resolved a;
     events := events a |}.

Definition resolve (k : nat) (r : StopResult) (a : T) : T :=
  {| process := process a; client := client a;
     stoppedCallbacks := stoppedCallbacks a;
     threadId := threadId a; frameIds := frameIds a;
     initialPausePromise := initialPausePromise a;
     waiters := waiters a; timers := timers a;
     exitListeners := exitListeners a;
     resolved := resolved a ++ [(k, r)];
     events := events a |}.

(** The resume operations up to their [await]: [continue], [stepOver],
    [stepIn] and [stepOut] differ by the command only.  The result names
    the waiter and the promise of the request. *)
Definition resume (op : ResumeOp) (tid : option Z) (a : T)
  : Result (nat * Dap.Promise) * T :=
  match client a with
  | None => (Throw "Not connected", a)
  | Some _ =>
      let '(k, a1) := waitForStop a in
      match client a1 with
      | None => (Throw "Not connected", a1)
      | Some c1 =>
          let '(p, c2) :=
            Dap.sendRequest (dap_command op)
              (Some (Dap.ArgsThread (default (threadId a1) tid))) c1 in
          (Ok (k, p), set_client a1 c2 [EvWrite (dap_command op)])
      end
  end.

Section WithPeer.

(** The answers of the debug server, and [String.prototype.toLowerCase]. *)
Variable peer : Dap.Request -> Reply.
Variable toLowerCase : string -> string.

(** [await this.client.sendRequest(cmd, args)] with the answer of the
    server: the request is written, the response settles its promise. *)
Definition request (cmd : string) (args : option Dap.Arguments)
    (c : Dap.DapClient) : Result Dap.Response * Dap.DapClient :=
  let '(p, c1) := Dap.sendRequest cmd args c in
  let rq := {| Dap.rq_seq := Dap.seq c; Dap.rq_command := cmd;
               Dap.rq_arguments := args |} in
  let r := {| Dap.request_seq := Dap.seq c; Dap.success := ok (peer rq);
              Dap.command := cmd; Dap.message := msg (peer rq);
              Dap.body := rbody (peer rq) |} in
  let c2 := Dap.handleResponse r c1 in
  match snd <$> last (Dap.settled c2) with
  | Some (Dap.Fulfilled r') => (Ok r', c2)
  | Some (Dap.Rejected m) => (Throw m, c2)
  | None => (Throw "unsettled", c2)
  end.

Definition body_of (r : Dap.Response) : Dap.Body :=
  default Dap.empty_body (Dap.body r).

(** [setBreakpoints(file, breakpoints)] *)
Definition setBreakpoints (a : T) (file : string)
    (bps : list SourceBreakpoint) : Result (list BreakpointResult) * T :=
  match client a with
  | None => (Throw "Not connected", a)
  | Some c =>
      match request "setBreakpoints"
              (Some (Dap.ArgsSetBreakpoints file bps)) c with
      | (Throw e, c') => (Throw e, set_client a c' [EvWrite "setBreakpoints"])
      | (Ok response, c') =>
          let bs := default [] (Dap.breakpoints (body_of response)) in
          (Ok (map (fun bp =>
                      {| br_id := Dap.b_id bp;
                         br_verified := default false (Dap.b_verified bp);
                         br_line := Dap.b_line bp;
                         br_message := Dap.b_message bp |}) bs),
           set_client a c' [EvWrite "setBreakpoints"])
      end
  end.

(** [getCallStack(threadId)] *)
Definition getCallStack (tid : option Z) (a : T)
  : Result (list Dap.Frame) * T :=
  match client a with
  | None => (Throw "Not connected", a)
  | Some c =>
      match request "stackTrace"
              (Some (Dap.ArgsStackTrace (default (threadId a) tid) 0 50)) c
      with
      | (Throw e, c') => (Throw e, set_client a c' [EvWrite "stackTrace"])
      | (Ok response, c') =>
          let frames := default [] (Dap.stackFrames (body_of response)) in
          (Ok frames,
           set_frameIds (set_client a c' [EvWrite "stackTrace"])
             (map Dap.f_id frames))
      end
  end.

(** [String.prototype.includes] *)
Fixpoint includes (s sub : string) : bool :=
  String.prefix sub s ||
  match s with
  | EmptyString => false
  | String _ s' => includes s' sub
  end.

(** The scopes that [getVariables] looks into.  An omitted or empty
    [scope] is falsy. *)
Definition targetScopes (scope : option string) (scopes : list Dap.Scope)
  : list Dap.Scope :=
  match scope with
  | Some (String _ _ as name) =>
      filter (fun s => String.eqb (toLowerCase (Dap.sc_name s))
                                  (toLowerCase name) = true) scopes
  | _ =>
      filter (fun s => String.eqb (Dap.sc_name s) "Locals"
                       || String.eqb (Dap.sc_name s) "Local"
                       || includes (toLowerCase (Dap.sc_name s)) "local"
                       = true) scopes
  end.

Definition toVariable (v : Dap.Variable_) : Dap.Variable_ :=
  {| Dap.v_name := Dap.v_name v; Dap.v_value := Dap.v_value v;
     Dap.v_type := Dap.v_type v;
     Dap.v_variablesReference :=
       Some (default 0 (Dap.v_variablesReference v)) |}.

(** The loop of [getVariables] over the chosen scopes. *)
Fixpoint fetch (chosen : list Dap.Scope) (acc : list Dap.Variable_)
    (c : Dap.DapClient) (n : nat)
  : Result (list Dap.Variable_) * Dap.DapClient * nat :=
  match chosen with
  | [] => (Ok acc, c, n)
  | s :: rest =>
      match request "variables"
              (Some (Dap.ArgsVariables (Dap.sc_variablesReference s))) c with
      | (Throw e, c') => (Throw e, c', S n)
      | (Ok response, c') =>
          let vars := default [] (Dap.variables (body_of response)) in
          fetch rest (acc ++ map toVariable vars) c' (S n)
      end
  end.

(** [getVariables(frameId, scope, _maxDepth)] *)
Definition getVariables (frameId : option Z) (scope : option string) (a : T)
  : Result (list Dap.Variable_) * T :=
  match client a with
  | None => (Throw "Not connected", a)
  | Some c =>
      match (match frameId with Some f => Some f | None => head (frameIds a) end)
      with
      | None => (Ok [], a)
      | Some targetFrameId =>
          match request "scopes" (Some (Dap.ArgsScopes targetFrameId)) c with
          | (Throw e, c') => (Throw e, set_client a c' [EvWrite "scopes"])
          | (Ok scopesResponse, c') =>
              let scopes := default [] (Dap.scopes (body_of scopesResponse)) in
              let targets := targetScopes scope scopes in
              let chosen :=
                if (0 <? length targets)%nat then targets else take 1 scopes in
              let '(res, c'', n) := fetch chosen [] c' 0 in
              (res,
               set_client a c''
                 (EvWrite "scopes" :: repeat (EvWrite "variables") n))
          end
      end
  end.

(** The persistent handler of the ["stopped"] event, before it calls the
    callbacks: it records the thread and builds the [StoppedInfo]. *)
Definition on_stopped_event (b : Dap.Body) (a : T) : StoppedInfo * T :=
  let t := default 1 (Dap.threadId b) in
  ({| si_reason := default "breakpoint" (Dap.reason b);
      si_threadId := Some t;
      si_description := Dap.description b |},
   set_threadId a t).

(** The listener of waiter [k] when the debuggee stops: [cleanup()], then
    the call stack is asked for and the promise resolved. *)
Definition waiter_stopped (k : nat) (info : StoppedInfo) (a : T) : T :=
  let a1 := cleanup k a in
  match getCallStack (si_threadId info) a1 with
  | (Ok frames, a2) =>
      resolve k
        {| sr_reason := si_reason info; sr_threadId := si_threadId info;
           sr_location :=
             (fun f => {| loc_file := Dap.f_path f;
                          loc_line := Some (Dap.f_line f);
                          loc_column := Some (Dap.f_column f);
                          loc_name := Some (Dap.f_name f) |}) <$> head frames;
           sr_terminated := false |} a2
  | (Throw _, a2) =>
      resolve k
        {| sr_reason := si_reason info; sr_threadId := si_threadId info;
           sr_location := None; sr_terminated := false |} a2
  end.

(** [start(config)] on the path where debugpy is found, the process is
    spawned and the client connects: the ["stopped"] handler is installed,
    the initial pause armed, and the three requests of the handshake sent.
    A failed request throws. *)
Definition start (a : T) : Result unit * T :=
  let c0 := Dap.on "stopped" stopped_handler (Dap.on_connect Dap.new) in
  let a0 :=
    {| process := true; client := Some c0;
       stoppedCallbacks := stoppedCallbacks a;
       threadId := threadId a; frameIds := frameIds a;
       initialPausePromise := initialPausePromise a;
       waiters := waiters a; timers := timers a;
       exitListeners := exitListeners a; resolved := resolved a;
       events := events a |} in
  let '(k, a1) := waitForStop a0 in
  let a2 :=
    {| process := process a1; client := client a1;
       stoppedCallbacks := stoppedCallbacks a1;
       threadId := threadId a1; frameIds := frameIds a1;
       initialPausePromise := Some k;
       waiters := waiters a1; timers := timers a1;
       exitListeners := exitListeners a1; resolved := resolved a1;
       events := events a1 |} in
  match client a2 with
  | None => (Throw "Not connected", a2)
  | Some c1 =>
      match request "initialize" (Some Dap.ArgsEmpty) c1 with
      | (Throw e, c2) => (Throw e, set_client a2 c2 [EvWrite "initialize"])
      | (Ok _, c2) =>
          match request "launch" (Some Dap.ArgsEmpty) c2 with
          | (Throw e, c3) =>
              (Throw e,
               set_client a2 c3 [EvWrite "initialize"; EvWrite "launch"])
          | (Ok _, c3) =>
              match request "configurationDone" (Some Dap.ArgsEmpty) c3 with
              | (r, c4) =>
                  (match r with Ok _ => Ok tt | Throw e => Throw e end,
                   set_client a2 c4
                     [EvWrite "initialize"; EvWrite "launch";
                      EvWrite "configurationDone"])
              end
          end
      end
  end.

End WithPeer.

End PythonAdapter.

(** ** The CDP adapter for Node.js ([adapter/node.ts]) *)
Module NodeAdapter.

Inductive CdpParams : Type :=
| PEmpty
| PRemoveBreakpoint (breakpointId : string)
| PSetBreakpointByUrl (lineNumber : Z) (url : string)
    (columnNumber : option Z) (condition : option string).

Record CdpRequest : Type := mkCdpRequest {
  cr_id : Z;
  cr_method : string;
  cr_params : CdpParams
}.

Record CdpLocation : Type := mkCdpLocation {
  cl_scriptId : option string;
  cl_lineNumber : Z;
  cl_columnNumber : option Z
}.

(** The [result] of a response, by the fields that the adapter reads. *)
Record CdpResult : Type := mkCdpResult {
  breakpointId : string;
  locations : list CdpLocation
}.

Inductive CdpReply : Type :=
| ReplyError (message : string)
| ReplyResult (r : CdpResult).

Record CallFrame : Type := mkCallFrame {
  functionName : string;
  cf_scriptId : option string;
  cf_lineNumber : option Z;
  cf_columnNumber : option Z
}.

Record T : Type := mkT {
  process : bool;
  ws : bool;
  seq : Z;
  pending : list (Z * nat);
  stoppedCallbacks : list Callback;
  scripts : gmap string string;
  pausedFrames : list CallFrame;
  pausedReason : string;
  pausedThreadId : Z;
  breakpointIds : gmap string (list string);
  initialPausePromise : option nat;
  waiters : nat;
  timers : list nat;
  exitListeners : list nat;
  resolved : list (nat * StopResult);
  sent : list CdpRequest;
  events : list Effect
}.

(** [new NodeAdapter()] *)
Definition new : T :=
  {| process := false; ws := false; seq := 1; pending := [];
     stoppedCallbacks := []; scripts := ∅; pausedFrames := [];
     pausedReason := ""; pausedThreadId := 1; breakpointIds := ∅;
     initialPausePromise := None; waiters := 0; timers := [];
     exitListeners := []; resolved := []; sent := []; events := [] |}.

Definition cdp_method (op : ResumeOp) : string :=
  match op with
  | Continue => "Debugger.resume"
  | StepOver => "Debugger.stepOver"
  | StepIn => "Debugger.stepInto"
  | StepOut => "Debugger.stepOut"
  end.

(** [onStopped(cb)] *)
Definition onStopped (cb : Callback) (a : T) : T :=
  {| process := process a; ws := ws a; seq := seq a; pending := pending a;
     stoppedCallbacks := stoppedCallbacks a ++ [cb];
     scripts := scripts a; pausedFrames := pausedFrames a;
     pausedReason := pausedReason a; pausedThreadId := pausedThreadId a;
     breakpointIds := breakpointIds a;
     initialPausePromise := initialPausePromise a;
     waiters := waiters a; timers := timers a;
     exitListeners := exitListeners a; resolved := resolved a;
     sent := sent a; events := events a |}.

(** [waitForPause()]: the executor of the promise runs at once. *)
Definition waitForPause (a : T) : nat * T :=
  let k := waiters a in
  (k,
   {| process := process a; ws := ws a; seq := seq a; pending := pending a;
      stoppedCallbacks := stoppedCallbacks a ++ [CbWaiter k];
      scripts := scripts a; pausedFrames := pausedFrames a;
      pausedReason := pausedReason a; pausedThreadId := pausedThreadId a;
      breakpointIds := breakpointIds a;
      initialPausePromise := initialPausePromise a;
      waiters := S k;
      timers := timers a ++ [k];
      exitListeners :=
        if process a then exitListeners a ++ [k] else exitListeners a;
      resolved := resolved a;
      sent := sent a;
      events :=
        events a ++ [EvTimer k; EvListen k]
        ++ (if process a then [EvOnceExit k] else []) |}).

(** [cdpSend(method, params)] up to [ws.send]: [None] when the promise is
    rejected at once for want of a connection, else the id. *)
Definition cdpSend (method : string) (params : CdpParams) (a : T)
  : option Z * T :=
  if negb (ws a) then (None, a)
  else
    let i := seq a in
    (Some i,
     {| process := process a; ws := ws a;
        seq := JS.add i 1;
        pending := JSMap.set i (length (sent a)) (pending a);
        stoppedCallbacks := stoppedCallbacks a;
        scripts := scripts a; pausedFrames := pausedFrames a;
        pausedReason := pausedReason a; pausedThreadId := pausedThreadId a;
        breakpointIds := breakpointIds a;
        initialPausePromise := initialPausePromise a;
        waiters := waiters a; timers := timers a;
        exitListeners := exitListeners a; resolved := resolved a;
        sent := sent a ++ [{| cr_id := i; cr_method := method;
                              cr_params := params |}];
        events := events a ++ [EvWrite method] |}).

(** The response branch of [handleCdpMessage]: the entry leaves the
    table. *)
Definition settle (i : Z) (a : T) : T :=
  {| process := process a; ws := ws a; seq := seq a;
     pending := JSMap.delete i (pending a);
     stoppedCallbacks := stoppedCallbacks a;
     scripts := scripts a; pausedFrames := pausedFrames a;
     pausedReason := pausedReason a; pausedThreadId := pausedThreadId a;
     breakpointIds := breakpointIds a;
     initialPausePromise := initialPausePromise a;
     waiters := waiters a; timers := timers a;
     exitListeners := exitListeners a; resolved := resolved a;
     sent := sent a; events := events a |}.

(** The resume operations up to their [await]. *)
Definition resume (op : ResumeOp) (tid : option Z) (a : T)
  : Result (nat * Z) * T :=
  let '(k, a1) := waitForPause a in
  match cdpSend (cdp_method op) PEmpty a1 with
  | (Some i, a2) => (Ok (k, i), a2)
  | (None, a2) => (Throw "Not connected", a2)
  end.

Definition set_breakpointIds (a : T) (file : string) (ids : list string) : T :=
  {| process := process a; ws := ws a; seq := seq a; pending := pending a;
     stoppedCallbacks := stoppedCallbacks a;
     scripts := scripts a; pausedFrames := pausedFrames a;
     pausedReason := pausedReason a; pausedThreadId := pausedThreadId a;
     breakpointIds := <[file := ids]> (breakpointIds a);
     initialPausePromise := initialPausePromise a;
     waiters := waiters a; timers := timers a;
     exitListeners := exitListeners a; resolved := resolved a;
     sent := sent a; events := events a |}.

Definition pathToFileUrl (filePath : string) : string :=
  if JS.startsWith filePath "file://" then filePath
  else "file://" +:+ filePath.

(** [cleanup()] of waiter [k]. *)
Definition cleanup (k : nat) (a : T) : T :=
  {| process := process a; ws := ws a; seq := seq a; pending := pending a;
     stoppedCallbacks := remove_first (CbWaiter k) (stoppedCallbacks a);
     scripts := scripts a; pausedFrames := pausedFrames a;
     pausedReason := pausedReason a; pausedThreadId := pausedThreadId a;
     breakpointIds := breakpointIds a;
     initialPausePromise := initialPausePromise a;
     waiters := waiters a;
     timers := filter (fun t => t ≠ k) (timers a);
     exitListeners := filter (fun t => t ≠ k) (exitListeners a);
     resolved := resolved a;
     sent := sent a; events := events a |}.

Definition resolve (k : nat) (r : StopResult) (a : T) : T :=
  {| process := process a; ws := ws a; seq := seq a; pending := pending a;
     stoppedCallbacks := stoppedCallbacks a;
     scripts := scripts a; pausedFrames := pausedFrames a;
     pausedReason := pausedReason a; pausedThreadId := pausedThreadId a;
     breakpointIds := breakpointIds a;
     initialPausePromise := initialPausePromise a;
     waiters := waiters a; timers := timers a;
     exitListeners := exitListeners a;
     resolved := resolved a ++ [(k, r)];
     sent := sent a; events := events a |}.

(** [scriptIdToPath(scriptId)] *)
Definition scriptIdToPath (a : T) (scriptId : option string) : option string :=
  match scriptId with
  | None | Some EmptyString => None
  | Some i => scripts a !! i
  end.

(** The listener of waiter [k] when the debuggee pauses. *)
Definition waiter_stopped (k : nat) (info : StoppedInfo) (a : T) : T :=
  let a1 := cleanup k a in
  resolve k
    {| sr_reason := si_reason info; sr_threadId := si_threadId info;
       sr_location :=
         (fun frame =>
            {| loc_file := scriptIdToPath a1 (cf_scriptId frame);
               loc_line := Some (default 0 (cf_lineNumber frame) + 1);
               loc_column := Some (default 0 (cf_columnNumber frame) + 1);
               loc_name :=
                 Some (match functionName frame with
                       | EmptyString => "(anonymous)"
                       | n => n
                       end) |}) <$> head (pausedFrames a1);
       sr_terminated := false |} a1.

(** [onPaused(params)] before it calls the callbacks. *)
Definition on_paused_event (callFrames : option (list CallFrame))
    (reason : option string) (a : T) : StoppedInfo * T :=
  let r := default "breakpoint" reason in
  ({| si_reason := r; si_threadId := Some (pausedThreadId a);
      si_description := None |},
   {| process := process a; ws := ws a; seq := seq a; pending := pending a;
      stoppedCallbacks := stoppedCallbacks a;
      scripts := scripts a;
      pausedFrames := default [] callFrames;
      pausedReason := r; pausedThreadId := pausedThreadId a;
      breakpointIds := breakpointIds a;
      initialPausePromise := initialPausePromise a;
      waiters := waiters a; timers := timers a;
      exitListeners := exitListeners a; resolved := resolved a;
      sent := sent a; events := events a |}).

Section WithPeer.

(** The answers of the inspector. *)
Variable peer : CdpRequest -> CdpReply.

(** [await this.cdpSend(method, params)] with the answer of the
    inspector. *)
Definition request (method : string) (params : CdpParams) (a : T)
  : Result CdpResult * T :=
  match cdpSend method params a with
  | (None, a1) => (Throw "Not connected", a1)
  | (Some i, a1) =>
      match peer {| cr_id := i; cr_method := method; cr_params := params |}
      with
      | ReplyError m => (Throw m, settle i a1)
      | ReplyResult r => (Ok r, settle i a1)
      end
  end.

(** The first loop of [setBreakpoints]: a failed removal throws. *)
Fixpoint remove_all (ids : list string) (a : T) : Result unit * T :=
  match ids with
  | [] => (Ok tt, a)
  | bpId :: rest =>
      match request "Debugger.removeBreakpoint" (PRemoveBreakpoint bpId) a with
      | (Throw e, a') => (Throw e, a')
      | (Ok _, a') => remove_all rest a'
      end
  end.

(** The second loop: a failed request yields an unverified result. *)
Fixpoint set_all (file : string) (bps : list SourceBreakpoint)
    (results : list BreakpointResult) (newIds : list string) (a : T)
  : list BreakpointResult * list string * T :=
  match bps with
  | [] => (results, newIds, a)
  | bp :: rest =>
      match request "Debugger.setBreakpointByUrl"
              (PSetBreakpointByUrl (sb_line bp - 1) (pathToFileUrl file)
                 (match sb_column bp with
                  | Some col => if col =? 0 then None else Some (col - 1)
                  | None => None
                  end)
                 (sb_condition bp)) a with
      | (Ok response, a') =>
          set_all file rest
            (results ++
             [{| br_id := Some (Z.of_nat (length results));
                 br_verified := (0 <? length (locations response))%nat;
                 br_line :=
                   Some (match locations response with
                         | l0 :: _ => cl_lineNumber l0 + 1
                         | [] => sb_line bp
                         end);
                 br_message := None |}])
            (newIds ++ [breakpointId response]) a'
      | (Throw m, a') =>
          set_all file rest
            (results ++
             [{| br_id := None; br_verified := false;
                 br_line := Some (sb_line bp); br_message := Some m |}])
            newIds a'
      end
  end.

(** [setBreakpoints(file, breakpoints)] *)
Definition setBreakpoints (a : T) (file : string)
    (bps : list SourceBreakpoint) : Result (list BreakpointResult) * T :=
  let existingIds := default [] (breakpointIds a !! file) in
  match remove_all existingIds a with
  | (Throw e, a1) => (Throw e, a1)
  | (Ok _, a1) =>
      let '(results, newIds, a2) := set_all file bps [] [] a1 in
      (Ok results, set_breakpointIds a2 file newIds)
  end.

(** [start(config)] on the path where the process is spawned and the
    inspector found: the initial pause is armed before the spawn, then
    the socket is opened and the two domains enabled. *)
Definition start (a : T) : Result unit * T :=
  let '(k, a1) := waitForPause a in
  let a2 :=
    {| process := true; ws := true; seq := seq a1; pending := pending a1;
       stoppedCallbacks := stoppedCallbacks a1;
       scripts := scripts a1; pausedFrames := pausedFrames a1;
       pausedReason := pausedReason a1; pausedThreadId := pausedThreadId a1;
       breakpointIds := breakpointIds a1;
       initialPausePromise := Some k;
       waiters := waiters a1; timers := timers a1;
       exitListeners := exitListeners a1; resolved := resolved a1;
       sent := sent a1; events := events a1 |} in
  match request "Debugger.enable" PEmpty a2 with
  | (Throw e, a3) => (Throw e, a3)
  | (Ok _, a3) =>
      match request "Runtime.enable" PEmpty a3 with
      | (Throw e, a4) => (Throw e, a4)
      | (Ok _, a4) => (Ok tt, a4)
      end
  end.

End WithPeer.

(** [disconnect()] *)
Definition disconnect (a : T) : T :=
  {| process := false; ws := false; seq := seq a; pending := pending a;
     stoppedCallbacks := stoppedCallbacks a;
     scripts := scripts a; pausedFrames := pausedFrames a;
     pausedReason := pausedReason a; pausedThreadId := pausedThreadId a;
     breakpointIds := breakpointIds a;
     initialPausePromise := initialPausePromise a;
     waiters := waiters a; timers := timers a;
     exitListeners := exitListeners a; resolved := resolved a;
     sent := sent a; events := events a |}.

End NodeAdapter.

(** ** The session manager ([session/manager.ts]) and the execution tools
       ([tools/execution.ts]) *)
Module SessionManager.
Import Session.

Inductive AnyAdapter : Type :=
| ANode (a : NodeAdapter.T)
| APython (a : PythonAdapter.T).

Definition stoppedCallbacks (a : AnyAdapter) : list Callback :=
  match a with
  | ANode n => NodeAdapter.stoppedCallbacks n
  | APython p => PythonAdapter.stoppedCallbacks p
  end.

Definition events (a : AnyAdapter) : list Effect :=
  match a with
  | ANode n => NodeAdapter.events n
  | APython p => PythonAdapter.events p
  end.

Definition onStopped (cb : Callback) (a : AnyAdapter) : AnyAdapter :=
  match a with
  | ANode n => ANode (NodeAdapter.onStopped cb n)
  | APython p => APython (PythonAdapter.onStopped cb p)
  end.

(** [adapter.continue / stepOver / stepIn / stepOut (threadId)] up to the
    [await]; the result tells whether the command was written. *)
Definition resume (op : ResumeOp) (tid : option Z) (a : AnyAdapter)
  : Result unit * AnyAdapter :=
  match a with
  | ANode n =>
      match NodeAdapter.resume op tid n with
      | (Ok _, n') => (Ok tt, ANode n')
      | (Throw e, n') => (Throw e, ANode n')
      end
  | APython p =>
      match PythonAdapter.resume op tid p with
      | (Ok _, p') => (Ok tt, APython p')
      | (Throw e, p') => (Throw e, APython p')
      end
  end.

Record LaunchConfig : Type := mkLaunchConfig {
  cfg_type : string;
  cfg_program : string
}.

Record Manager : Type := mkManager {
  activeSession : option (SessionState AnyAdapter);
  sessionCounter : Z
}.

Definition initial : Manager :=
  {| activeSession := None; sessionCounter := 0 |}.

Definition unknown_type_error (type : string) : string :=
  "Unknown adapter type: " +:+ dquote +:+ type +:+ dquote
  +:+ ". Supported: node, python".

(** [createAdapter(type)] ([adapter/registry.ts]) *)
Definition createAdapter (type : string) : Result AnyAdapter :=
  if String.eqb type "node" then Ok (ANode NodeAdapter.new)
  else if String.eqb type "python" then Ok (APython PythonAdapter.new)
  else Throw (unknown_type_error type).

Definition no_session_error : string :=
  "No active debug session. Use start_debug_session first.".

Definition requireActive (m : Manager) : Result (SessionState AnyAdapter) :=
  match activeSession m with
  | Some s => Ok s
  | None => Throw no_session_error
  end.

(** [stop()]: the adapter is disconnected (errors ignored) and dropped. *)
Definition stop (m : Manager) : Manager :=
  {| activeSession := None; sessionCounter := sessionCounter m |}.

Definition session_id (n : Z) : string :=
  "session-" +:+ NilZero.string_of_int (Z.to_int n).

Section WithPeers.

Variable cdp_peer : NodeAdapter.CdpRequest -> NodeAdapter.CdpReply.
Variable dap_peer : Dap.Request -> PythonAdapter.Reply.

#[local] Instance AnyAdapter_DebugAdapter : DebugAdapter AnyAdapter := {
  adapter_id a := match a with ANode _ => "node" | APython _ => "python" end;
  setBreakpoints a file bps :=
    match a with
    | ANode n =>
        let '(r, n') := NodeAdapter.setBreakpoints cdp_peer n file bps in
        (r, ANode n')
    | APython p =>
        let '(r, p') := PythonAdapter.setBreakpoints dap_peer p file bps in
        (r, APython p')
    end
}.

Definition start (a : AnyAdapter) : Result unit * AnyAdapter :=
  match a with
  | ANode n =>
      let '(r, n') := NodeAdapter.start cdp_peer n in (r, ANode n')
  | APython p =>
      let '(r, p') := PythonAdapter.start dap_peer p in (r, APython p')
  end.

(** [create(config)] *)
Definition create (config : LaunchConfig) (m : Manager)
  : Result (SessionState AnyAdapter) * Manager :=
  let m1 := match activeSession m with Some _ => stop m | None => m end in
  match (if String.eqb (cfg_type config) ""
         then Registry.detectType (cfg_program config)
         else Ok (cfg_type config)) with
  | Throw e => (Throw e, m1)
  | Ok type =>
      match createAdapter type with
      | Throw e => (Throw e, m1)
      | Ok adapter0 =>
          let n := JS.add (sessionCounter m1) 1 in
          let adapter1 := onStopped CbTracker adapter0 in
          match start adapter1 with
          | (Throw e, _) =>
              (Throw e, {| activeSession := None; sessionCounter := n |})
          | (Ok _, adapter2) =>
              let state := createSessionState (session_id n) adapter2 in
              (Ok state, {| activeSession := Some state; sessionCounter := n |})
          end
      end
  end.

(** The listener of waiter [k], by adapter. *)
Definition waiter_stopped (k : nat) (info : StoppedInfo) (a : AnyAdapter)
  : AnyAdapter :=
  match a with
  | ANode n => ANode (NodeAdapter.waiter_stopped k info n)
  | APython p => APython (PythonAdapter.waiter_stopped dap_peer k info p)
  end.

(** The callback that [create] registers:
    [state.stoppedThreadId = event.threadId ?? null;
     state.stoppedReason = event.reason]. *)
Definition tracker (info : StoppedInfo) (s : SessionState AnyAdapter)
  : SessionState AnyAdapter :=
  {| sid := sid s; adapter := adapter s; breakpoints := breakpoints s;
     stoppedThreadId := si_threadId info;
     stoppedReason := Some (si_reason info) |}.

(** [for (const cb of this.stoppedCallbacks) cb(info)]: the array is read
    by index while the listeners of the waiters splice themselves out. *)
Fixpoint fire (fuel i : nat) (info : StoppedInfo)
    (s : SessionState AnyAdapter) : SessionState AnyAdapter :=
  match fuel with
  | O => s
  | S fuel' =>
      match stoppedCallbacks (adapter s) !! i with
      | None => s
      | Some CbTracker => fire fuel' (S i) info (tracker info s)
      | Some (CbWaiter k) =>
          fire fuel' (S i) info
            (with_adapter s (waiter_stopped k info (adapter s)))
      end
  end.

(** A pause notification from the debuggee: [Debugger.paused] with its
    [callFrames] and [reason], or the DAP ["stopped"] event with its body. *)
Record StopEvent : Type := mkStopEvent {
  ev_reason : option string;
  ev_threadId : option Z;
  ev_description : option string;
  ev_callFrames : option (list NodeAdapter.CallFrame)
}.

(** What the adapter does with the notification before it calls the
    callbacks: [NodeAdapter.onPaused], or the ["stopped"] handler that
    [PythonAdapter.start] installs. *)
Definition note_stop (e : StopEvent) (a : AnyAdapter)
  : StoppedInfo * AnyAdapter :=
  match a with
  | ANode n =>
      let '(i, n') :=
        NodeAdapter.on_paused_event (ev_callFrames e) (ev_reason e) n in
      (i, ANode n')
  | APython p =>
      let '(i, p') :=
        PythonAdapter.on_stopped_event
          {| Dap.breakpoints := None; Dap.stackFrames := None;
             Dap.scopes := None; Dap.variables := None;
             Dap.reason := ev_reason e; Dap.threadId := ev_threadId e;
             Dap.description := ev_description e |} p in
      (i, APython p')
  end.

Definition deliver_stopped (e : StopEvent) (s : SessionState AnyAdapter)
  : SessionState AnyAdapter :=
  let '(info, a1) := note_stop e (adapter s) in
  fire (length (stoppedCallbacks a1)) 0 info (with_adapter s a1).

(** *** The session and its debuggee

    [paused] tells whether the debuggee is paused: it is after it has
    announced a pause, and is not once a resume command has been written
    to it. *)
Record World : Type := mkWorld {
  manager : Manager;
  paused : bool
}.

(** What happens to a session once it is created: the debuggee announces
    a pause, or a tool asks the adapter to resume it. *)
Inductive Action : Type :=
| ActStopped (e : StopEvent)
| ActResume (op : ResumeOp) (tid : option Z).

(** [continue_execution], [step_over], [step_into], [step_out]
    ([tools/execution.ts]) up to the [await] of the adapter. *)
Definition resume_tool (op : ResumeOp) (tid : option Z) (w : World)
  : Result unit * World :=
  match requireActive (manager w) with
  | Throw e => (Throw e, w)
  | Ok session =>
      let '(r, a') := resume op tid (adapter session) in
      (r,
       {| manager :=
            {| activeSession := Some (with_adapter session a');
               sessionCounter := sessionCounter (manager w) |};
          paused := if is_ok r then false else paused w |})
  end.


Definition step (w : World) (act : Action) : World :=
  match act with
  | ActStopped e =>
      match activeSession (manager w) with
      | Some s =>
          {| manager :=
               {| activeSession := Some (deliver_stopped e s);
                  sessionCounter := sessionCounter (manager w) |};
             paused := true |}
      | None => w
      end
  | ActResume op tid => snd (resume_tool op tid w)
  end.

Definition run (w : World) (acts : list Action) : World :=
  fold_left step acts w.


End WithPeers.

End SessionManager.

(** ** The rest of the phase machine ([session/debug-phase.ts]) and its use
       through the tool ([tool/transition-phase.ts]) *)
Module DebugPhaseStore.
Import DebugPhase.

(** [setAutoConfirm(sessionID, value)] *)
Definition setAutoConfirm (sid : string) (value : bool) (store : Store)
  : Store :=
  match store !! sid with
  | Some state =>
      <[sid := {| sessionID := sessionID state;
                  currentPhase := currentPhase state;
                  currentStep := currentStep state;
                  totalSteps := totalSteps state;
                  stepDescriptions := stepDescriptions state;
                  autoConfirm := value |}]> store
  | None => store
  end.

(** [isDebugAgent(agentName)] *)
Definition isDebugAgent (agentName : string) : bool :=
  String.eqb agentName "debug".

(** The tool called once for each requested phase, on one session. *)
Fixpoint execute_all (sid : string) (tos : list Phase) (store : Store)
  : list Metadata * Store :=
  match tos with
  | [] => ([], store)
  | to :: rest =>
      let '(md, store1) := execute sid to store in
      let '(mds, store2) := execute_all sid rest store1 in
      (md :: mds, store2)
  end.

(** [n] requests, each for the successor of the phase reached. *)
Fixpoint ring (n : nat) (p : Phase) : list Phase :=
  match n with
  | O => []
  | S n' => successor p :: ring n' (successor p)
  end.

(** The place of a phase in [PHASES]. *)
Definition index (p : Phase) : nat :=
  match p with
  | PLANNING => 0
  | CODING => 1
  | BREAKPOINTING => 2
  | DEBUGGING => 3
  | EXPLAINING => 4
  | CONFIRMING => 5
  end.

End DebugPhaseStore.

(** ** The rest of the CDP adapter ([adapter/node.ts]) *)
Module NodeInspect.
Import NodeAdapter.

(** [s.slice(n)] *)
Fixpoint slice (n : nat) (s : string) : string :=
  match n, s with
  | O, _ => s
  | S n', String _ s' => slice n' s'
  | S _, EmptyString => EmptyString
  end.

(** [fileUrlToPath(url)]: [url.replace(/^file:\/\//, "")] *)
Definition fileUrlToPath (url : string) : string :=
  if JS.startsWith url "file://" then slice 7 url else url.

Definition set_scripts (a : T) (m : gmap string string) : T :=
  {| process := process a; ws := ws a; seq := seq a; pending := pending a;
     stoppedCallbacks := stoppedCallbacks a;
     scripts := m; pausedFrames := pausedFrames a;
     pausedReason := pausedReason a; pausedThreadId := pausedThreadId a;
     breakpointIds := breakpointIds a;
     initialPausePromise := initialPausePromise a;
     waiters := waiters a; timers := timers a;
     exitListeners := exitListeners a; resolved := resolved a;
     sent := sent a; events := events a |}.

(** [onScriptParsed(params)]: the script is recorded when its url is a
    file url.  ([fileToScript], which is written here and read nowhere, is
    left out.) *)
Definition onScriptParsed (scriptId : string) (url : option string) (a : T)
  : T :=
  match url with
  | Some u =>
      if negb (String.eqb u "") && JS.startsWith u "file://"
      then set_scripts a (<[scriptId := fileUrlToPath u]> (scripts a))
      else a
  | None => a
  end.

(** The ["Debugger.resumed"] branch of [handleCdpMessage]. *)
Definition on_resumed (a : T) : T :=
  {| process := process a; ws := ws a; seq := seq a; pending := pending a;
     stoppedCallbacks := stoppedCallbacks a;
     scripts := scripts a; pausedFrames := [];
     pausedReason := pausedReason a; pausedThreadId := pausedThreadId a;
     breakpointIds := breakpointIds a;
     initialPausePromise := initialPausePromise a;
     waiters := waiters a; timers := timers a;
     exitListeners := exitListeners a; resolved := resolved a;
     sent := sent a; events := events a |}.

(** [s.split("/")] *)
Fixpoint split_slash (s : string) : list string :=
  match s with
  | EmptyString => [EmptyString]
  | String c s' =>
      if Ascii.eqb c "/" then EmptyString :: split_slash s'
      else match split_slash s' with
           | h :: t => String c h :: t
           | [] => [String c EmptyString]
           end
  end.

(** [a.pop()] on a fresh array: its last element. *)
Definition pop (l : list string) : option string := last l.

Record Source : Type := mkSource {
  src_path : string;
  src_name : option string
}.

Record StackFrame : Type := mkStackFrame {
  sf_id : Z;
  sf_name : string;
  sf_source : option Source;
  sf_line : Z;
  sf_column : Z
}.

(** The frame that [getCallStack] makes of [pausedFrames[i]]. *)
Definition toStackFrame (a : T) (i : nat) (frame : CallFrame) : StackFrame :=
  let filePath := scriptIdToPath a (cf_scriptId frame) in
  {| sf_id := Z.of_nat i;
     sf_name := match functionName frame with
                | EmptyString => "(anonymous)"
                | n => n
                end;
     sf_source :=
       match filePath with
       | None | Some EmptyString => None
       | Some p => Some {| src_path := p; src_name := pop (split_slash p) |}
       end;
     sf_line := default 0 (cf_lineNumber frame) + 1;
     sf_column := default 0 (cf_columnNumber frame) + 1 |}.

(** [getCallStack(_threadId)] *)
Definition getCallStack (a : T) : list StackFrame :=
  imap (toStackFrame a) (pausedFrames a).

End NodeInspect.

(** ** One turn of the read loop of the DAP client ([dap/client.ts]) *)
Module DapStream.
Import Dap.

Section Client.
Variable JSON_parse : list Byte.byte -> option DapMessage.
Variable handler_calls : DapClient -> string -> Body -> list ApiCall.

(** The body of [while (true)] in [onData]: [None] when it leaves the
    loop, else the client after the turn. *)
Definition turn (c : DapClient) : option DapClient :=
  match indexOf CRLFCRLF (buffer c) with
  | None => None
  | Some headerEnd =>
      let header := take headerEnd (buffer c) in
      match header_match header with
      | None => Some (set_buffer c (drop (headerEnd + 4) (buffer c)))
      | Some ds =>
          let contentLength := parseInt ds in
          let contentStart := Z.of_nat headerEnd + 4 in
          if Z.of_nat (length (buffer c))
             <? JS.add contentStart contentLength
          then None
          else
            let contentEnd := JS.add contentStart contentLength in
            let content :=
              take (Z.to_nat contentEnd - Z.to_nat contentStart)
                   (drop (Z.to_nat contentStart) (buffer c)) in
            let c1 :=
              set_buffer c (drop (Z.to_nat contentEnd) (buffer c)) in
            Some (match JSON_parse content with
                  | Some m => handleMessage handler_calls m c1
                  | None => c1
                  end)
      end
  end.

(** What the loop does with the content of one frame. *)
Definition deliver (c : DapClient) (content : list Byte.byte) : DapClient :=
  match JSON_parse content with
  | Some m => handleMessage handler_calls m c
  | None => c
  end.

End Client.

End DapStream.

(** ** Sessions started one after the other ([session/manager.ts]) *)
Module SessionSequence.
Import Session SessionManager.

Section WithPeers.
Variable cdp_peer : NodeAdapter.CdpRequest -> NodeAdapter.CdpReply.
Variable dap_peer : Dap.Request -> PythonAdapter.Reply.

(** [create(config)] called for each configuration in turn. *)
Fixpoint create_all (configs : list LaunchConfig) (m : Manager)
  : list (Result (SessionState AnyAdapter)) * Manager :=
  match configs with
  | [] => ([], m)
  | config :: rest =>
      let '(r, m1) := create cdp_peer dap_peer config m in
      let '(rs, m2) := create_all rest m1 in
      (r :: rs, m2)
  end.

End WithPeers.

(** The ids of the sessions that were created. *)
Fixpoint session_ids (rs : list (Result (SessionState AnyAdapter)))
  : list string :=
  match rs with
  | [] => []
  | Ok s :: rest => sid s :: session_ids rest
  | Throw _ :: rest => session_ids rest
  end.

End SessionSequence.

(** * Properties *)

(** ** JS numbers and strings *)
Module JSFacts.

Lemma round_exact z : Z.abs z <= JS.MAX_EXACT -> JS.round z = z.
Proof.
  intros Hz. unfold JS.round.
  destruct (Z.leb_spec (Z.abs z) JS.MAX_EXACT) as [_|Hgt]; [done|lia].
Qed.

Lemma add_exact x y :
  Z.abs (x + y) <= JS.MAX_EXACT -> JS.add x y = x + y.
Proof. apply round_exact. Qed.

Lemma succ_exact x : 0 <= x < JS.MAX_EXACT -> JS.add x 1 = x + 1.
Proof. intros Hx. apply add_exact. lia. Qed.

(** [s] ends in [suf]. *)
Definition ends_in (s suf : string) : Prop := exists pre, s = pre +:+ suf.

Lemma endsWith_iff s suf : JS.endsWith s suf = true <-> ends_in s suf.
Proof.
  unfold ends_in. induction s as [|a s IH]; cbn [JS.endsWith].
  - rewrite orb_false_r, String.eqb_eq. split.
    + intros <-. by exists "".
    + intros [pre Hpre]. destruct pre; simpl in Hpre; [done|discriminate].
  - rewrite orb_true_iff, String.eqb_eq, IH. split.
    + intros [<- | [pre ->]].
      * by exists "".
      * by exists (String a pre).
    + intros [pre Hpre]. destruct pre as [|b pre]; simpl in Hpre.
      * by left.
      * right. exists pre. by injection Hpre.
Qed.

Lemma app_length s t :
  String.length (s +:+ t) = (String.length s + String.length t)%nat.
Proof. induction s as [|x s IH]; simpl; [done|]. by rewrite IH. Qed.

(** Two endings of the same length of one string are equal. *)
Lemma ends_in_same_length s a b :
  ends_in s a -> ends_in s b -> String.length a = String.length b -> a = b.
Proof.
  intros [p ->] [q Hq] Hlen. revert q Hq.
  induction p as [|x p IH]; intros q Hq; simpl in Hq.
  - destruct q as [|y q]; simpl in Hq; [done|].
    apply (f_equal String.length) in Hq.
    rewrite ?app_length in Hq. simpl in Hq. rewrite ?app_length in Hq. lia.
  - destruct q as [|y q]; simpl in Hq.
    + apply (f_equal String.length) in Hq.
      rewrite ?app_length in Hq. simpl in Hq. rewrite ?app_length in Hq. lia.
    + injection Hq as _ Hq. by apply IH in Hq.
Qed.

Lemma ends_in_trans s a b : ends_in s a -> ends_in a b -> ends_in s b.
Proof.
  intros [p ->] [q ->]. exists (p +:+ q).
  induction p as [|x p IH]; [done|].
  change (String x (p +:+ q +:+ b) = String x ((p +:+ q) +:+ b)).
  by rewrite IH.
Qed.

(** Endings that disagree on a common shorter ending exclude each other. *)
Lemma ends_in_clash s a b a' b' :
  ends_in s a -> ends_in s b ->
  JS.endsWith a a' = true -> JS.endsWith b b' = true ->
  String.length a' = String.length b' -> a' <> b' -> False.
Proof.
  intros Ha Hb Ha' Hb' Hlen Hne. apply Hne.
  apply (ends_in_same_length s); [| |done].
  - eapply ends_in_trans; [exact Ha|]. by apply endsWith_iff.
  - eapply ends_in_trans; [exact Hb|]. by apply endsWith_iff.
Qed.

End JSFacts.

(** ** The phase machine *)
Module DebugPhaseFacts.
Import DebugPhase.

Lemma includes_successor p to :
  includes (VALID_TRANSITIONS p) to = true <-> to = successor p.
Proof. destruct p, to; simpl; split; intros; try done. Qed.

Lemma transition_ok state to store :
  to = successor (currentPhase state) ->
  exists next,
    transition state to store = (Ok next, <[sessionID state := next]> store)
    /\ currentPhase next = to
    /\ sessionID next = sessionID state
    /\ currentStep next =
         if bool_decide (currentPhase state = CONFIRMING)
         then JS.add (currentStep state) 1 else currentStep state.
Proof.
  intros Hto. unfold transition.
  apply includes_successor in Hto as Hinc. rewrite Hinc. simpl.
  eexists. split; [reflexivity|]. simpl. repeat split.
  subst to. destruct (currentPhase state); reflexivity.
Qed.

Lemma transition_throw state to store :
  to <> successor (currentPhase state) ->
  transition state to store
  = (Throw (transition_error (currentPhase state) to), store).
Proof.
  intros Hto. unfold transition.
  destruct (includes (VALID_TRANSITIONS (currentPhase state)) to) eqn:Hinc;
    [|done].
  by apply includes_successor in Hinc.
Qed.

Lemma completed_cycles_le p tos :
  (completed_cycles p tos <= length tos)%nat.
Proof.
  revert p. induction tos as [|to tos IH]; intros p; simpl; [lia|].
  case_bool_decide.
  - specialize (IH to). case_bool_decide; lia.
  - specialize (IH p). lia.
Qed.

Lemma run_step_count tos : forall state store,
  0 <= currentStep state ->
  currentStep state + Z.of_nat (length tos) <= JS.MAX_EXACT ->
  currentStep (fst (run state tos store))
  = currentStep state + Z.of_nat (completed_cycles (currentPhase state) tos).
Proof.
  induction tos as [|to tos IH]; intros state store Hpos Hbound; simpl.
  - lia.
  - simpl in Hbound. case_bool_decide as Hto.
    + destruct (transition_ok state to store Hto)
        as (next & -> & Hph & _ & Hstep).
      rewrite IH; rewrite ?Hph, ?Hstep.
      * case_bool_decide; [rewrite JSFacts.succ_exact|]; lia.
      * case_bool_decide; [rewrite JSFacts.succ_exact|]; lia.
      * case_bool_decide; [rewrite JSFacts.succ_exact|]; lia.
    + rewrite transition_throw by done. rewrite IH; lia.
Qed.

Lemma run_outcomes tos : forall state store,
  length (outcomes state tos store) = length tos.
Proof.
  induction tos as [|to tos IH]; intros state store; simpl; [done|].
  destruct (transition state to store) as [[next|e] store']; simpl;
    by rewrite IH.
Qed.

(** C2. From a fresh phase state (phase PLANNING, step 0) and for every
    sequence of [transition(to)] calls (of at most 2^53 calls, the range
    in which a JS number counts exactly): a call succeeds exactly when [to]
    is the single successor of the current phase in the ring
    PLANNING -> CODING -> BREAKPOINTING -> DEBUGGING -> EXPLAINING ->
    CONFIRMING -> PLANNING and fails otherwise with the state unchanged; a
    successful call adds one to [currentStep] on the CONFIRMING -> PLANNING
    edge and preserves it on every other edge; and after the sequence
    [currentStep] is the number of completed CONFIRMING -> PLANNING edges. *)
Theorem transition_ring_counts_cycles :
  forall (sid : string) (store : gmap string State) (tos : list Phase),
    Z.of_nat (length tos) <= JS.MAX_EXACT ->
    let fresh := fst (create sid store) in
    currentPhase fresh = PLANNING /\ currentStep fresh = 0
    /\ (forall state to st,
          is_ok (fst (transition state to st)) = true
          <-> to = successor (currentPhase state))
    /\ (forall state to st next,
          fst (transition state to st) = Ok next ->
          currentPhase next = to
          /\ currentStep next =
               if bool_decide (currentPhase state = CONFIRMING
                               /\ to = PLANNING)
               then JS.add (currentStep state) 1 else currentStep state)
    /\ (forall state to st,
          to <> successor (currentPhase state) ->
          snd (transition state to st) = st)
    /\ currentStep (fst (run fresh tos (snd (create sid store))))
       = Z.of_nat (completed_cycles PLANNING tos).
Proof.
  intros sid store tos Hlen fresh.
  split; [done|]. split; [done|]. split; [|split; [|split]].
  - intros state to st. split.
    + intros Hok. destruct (decide (to = successor (currentPhase state)))
        as [|Hne]; [done|].
      rewrite transition_throw in Hok by done. discriminate.
    + intros Hto. by destruct (transition_ok state to st Hto) as (n & -> & _).
  - intros state to st next Hnext.
    destruct (decide (to = successor (currentPhase state))) as [Hto|Hne].
    + destruct (transition_ok state to st Hto) as (n & Heq & Hph & _ & Hst).
      rewrite Heq in Hnext. simpl in Hnext. injection Hnext as <-.
      split; [done|]. rewrite Hst.
      subst to. by destruct (currentPhase state).
    + rewrite transition_throw in Hnext by done. discriminate.
  - intros state to st Hne. by rewrite transition_throw.
  - rewrite run_step_count; simpl; lia.
Qed.

Lemma transition_ring_counts_cycles_witness :
  Z.of_nat (length [CODING; DEBUGGING; BREAKPOINTING; DEBUGGING; EXPLAINING;
                    CONFIRMING; PLANNING; CODING]) <= JS.MAX_EXACT
  /\ currentStep
       (fst (run (fst (create "s" ∅))
               [CODING; DEBUGGING; BREAKPOINTING; DEBUGGING; EXPLAINING;
                CONFIRMING; PLANNING; CODING]
               (snd (create "s" ∅))))
     = 1.
Proof.
  split; [vm_compute; discriminate|].
  pose proof (transition_ring_counts_cycles "s" ∅
    [CODING; DEBUGGING; BREAKPOINTING; DEBUGGING; EXPLAINING;
     CONFIRMING; PLANNING; CODING]) as H.
  destruct H as (_ & _ & _ & _ & _ & H); [vm_compute; discriminate|].
  exact H.
Defined.

End DebugPhaseFacts.

(** ** Adapter auto-detection *)
Module RegistryFacts.
Import Registry JSFacts.

(** The extensions that select the Node.js adapter. *)
Definition node_extensions : list string :=
  [".js"; ".ts"; ".mjs"; ".cjs"; ".tsx"; ".jsx"].

Lemma node_test program :
  JS.endsWith program ".js" || JS.endsWith program ".ts"
  || JS.endsWith program ".mjs" || JS.endsWith program ".cjs"
  || JS.endsWith program ".tsx" || JS.endsWith program ".jsx" = true
  <-> exists ext, ext ∈ node_extensions /\ ends_in program ext.
Proof.
  rewrite !orb_true_iff, !endsWith_iff. unfold node_extensions. split.
  - intros [[[[[H|H]|H]|H]|H]|H]; eexists; (split; [|exact H]);
      repeat first [by apply list_elem_of_here | apply list_elem_of_further].
  - intros (ext & Hin & H).
    repeat (apply elem_of_cons in Hin as [->|Hin]); [tauto..|].
    by apply elem_of_nil in Hin.
Qed.

(** No path ends both in [a] and in [b] when their last [n] characters
    differ. *)
Ltac clash Ha Hb a' b' :=
  exfalso;
  apply (ends_in_clash _ _ _ a' b' Ha Hb);
  [reflexivity | reflexivity | reflexivity | discriminate].

Lemma py_not_node program ext :
  ends_in program ".py" -> ext ∈ node_extensions -> ends_in program ext ->
  False.
Proof.
  intros Hpy Hin Hext. unfold node_extensions in Hin.
  repeat (apply elem_of_cons in Hin as [->|Hin]);
    [clash Hpy Hext "y" "s" ..| | |]; [clash Hpy Hext "y" "x"..|].
  by apply elem_of_nil in Hin.
Qed.

Lemma txt_not_known program ext :
  ends_in program ".txt" -> ext ∈ ".py" :: node_extensions ->
  ends_in program ext -> False.
Proof.
  intros Htxt Hin Hext. unfold node_extensions in Hin.
  repeat (apply elem_of_cons in Hin as [->|Hin]);
    [clash Htxt Hext "t" "y" | clash Htxt Hext "t" "s" ..| | |];
    [clash Htxt Hext "t" "x"..|].
  by apply elem_of_nil in Hin.
Qed.

Lemma rs_not_known program ext :
  ends_in program ".rs" -> ext ∈ ".py" :: node_extensions ->
  ends_in program ext -> False.
Proof.
  intros Hrs Hin Hext. unfold node_extensions in Hin.
  repeat (apply elem_of_cons in Hin as [->|Hin]).
  - clash Hrs Hext "s" "y".
  - clash Hrs Hext "rs" "js".
  - clash Hrs Hext "rs" "ts".
  - clash Hrs Hext "rs" "js".
  - clash Hrs Hext "rs" "js".
  - clash Hrs Hext "s" "x".
  - clash Hrs Hext "s" "x".
  - by apply elem_of_nil in Hin.
Qed.

Lemma detectType_cases program :
  (ends_in program ".py" /\ detectType program = Ok "python")
  \/ ((exists ext, ext ∈ node_extensions /\ ends_in program ext)
      /\ detectType program = Ok "node")
  \/ (~ ends_in program ".py"
      /\ ~ (exists ext, ext ∈ node_extensions /\ ends_in program ext)
      /\ detectType program = Throw (detect_error program)).
Proof.
  unfold detectType.
  destruct (JS.endsWith program ".py") eqn:Hpy.
  - left. split; [by apply endsWith_iff|done].
  - right.
    assert (~ ends_in program ".py") as Hnpy.
    { rewrite <- endsWith_iff. congruence. }
    destruct (JS.endsWith program ".js" || JS.endsWith program ".ts"
              || JS.endsWith program ".mjs" || JS.endsWith program ".cjs"
              || JS.endsWith program ".tsx" || JS.endsWith program ".jsx")
      eqn:Hnode.
    + left. split; [by apply node_test|done].
    + right. split; [done|]. split; [|done].
      rewrite <- node_test. congruence.
Qed.

(** C9. For every program path, [detectType] returns the python adapter
    type exactly when the path ends in ".py", the node adapter type exactly
    when it ends in ".js", ".ts", ".mjs", ".cjs", ".tsx" or ".jsx", and
    throws an error that starts with "Cannot auto-detect" in every other
    case; paths ending in ".txt" or ".rs" and the empty path are
    rejected. *)
Theorem detectType_by_extension :
  forall program : string,
    (detectType program = Ok "python" <-> ends_in program ".py")
    /\ (detectType program = Ok "node"
        <-> exists ext, ext ∈ node_extensions /\ ends_in program ext)
    /\ (detectType program = Throw (detect_error program)
        <-> ~ ends_in program ".py"
            /\ ~ exists ext, ext ∈ node_extensions /\ ends_in program ext)
    /\ (is_ok (detectType program) = false
        -> detectType program = Throw (detect_error program))
    /\ JS.startsWith (detect_error program) "Cannot auto-detect" = true
    /\ (ends_in program ".txt" -> is_ok (detectType program) = false)
    /\ (ends_in program ".rs" -> is_ok (detectType program) = false)
    /\ detectType "" = Throw (detect_error "").
Proof.
  intros program.
  pose proof (detectType_cases program) as Hcases.
  split; [|split; [|split; [|split; [|split; [|split; [|split]]]]]].
  - split.
    + intros Heq.
      destruct Hcases as [[H _]|[[_ H]|(_ & _ & H)]]; [done|congruence..].
    + intros Hpy.
      destruct Hcases as [[_ H]|[[(ext & Hin & Hext) _]|(Hn & _)]];
        [done| |done].
      destruct (py_not_node program ext Hpy Hin Hext).
  - split.
    + intros Heq.
      destruct Hcases as [[_ H]|[[H _]|(_ & _ & H)]]; [congruence|done|congruence].
    + intros (ext & Hin & Hext).
      destruct Hcases as [[Hpy _]|[[_ H]|(_ & Hn & _)]]; [|done|].
      * destruct (py_not_node program ext Hpy Hin Hext).
      * destruct Hn. eauto.
  - split.
    + intros Heq.
      destruct Hcases as [[_ H]|[[_ H]|(Hn1 & Hn2 & _)]]; [congruence..|done].
    + intros [Hn1 Hn2].
      destruct Hcases as [[H _]|[[H _]|(_ & _ & H)]]; done.
  - intros Hfail.
    destruct Hcases as [[_ H]|[[_ H]|(_ & _ & H)]];
      [rewrite H in Hfail; discriminate..|done].
  - reflexivity.
  - intros Htxt.
    destruct Hcases as [[Hpy _]|[[(ext & Hin & Hext) _]|(_ & _ & ->)]];
      [| |done].
    + destruct (txt_not_known program ".py" Htxt);
        [apply elem_of_cons; by left|done].
    + destruct (txt_not_known program ext Htxt);
        [apply elem_of_cons; by right|done].
  - intros Hrs.
    destruct Hcases as [[Hpy _]|[[(ext & Hin & Hext) _]|(_ & _ & ->)]];
      [| |done].
    + destruct (rs_not_known program ".py" Hrs);
        [apply elem_of_cons; by left|done].
    + destruct (rs_not_known program ext Hrs);
        [apply elem_of_cons; by right|done].
  - reflexivity.
Qed.

End RegistryFacts.

(** ** Merging lists by a key

    The merge loop of [set_breakpoints], on lists of any element type
    with an integer key: an element replaces the first one of the same key
    or is appended. *)
Module KeyedMerge.
Section KeyedMerge.
Context {X : Type} (key : X -> Z).

Fixpoint find (k : Z) (l : list X) : option nat :=
  match l with
  | [] => None
  | e :: rest => if key e =? k then Some 0%nat else option_map S (find k rest)
  end.

Definition put (l : list X) (x : X) : list X :=
  match find (key x) l with
  | Some i => <[i := x]> l
  | None => l ++ [x]
  end.

Definition put_all (l : list X) (xs : list X) : list X := fold_left put xs l.

Lemma find_None k l : find k l = None <-> k ∉ map key l.
Proof.
  induction l as [|e l IH]; simpl.
  - split; [intros _; apply not_elem_of_nil|done].
  - rewrite not_elem_of_cons. destruct (Z.eqb_spec (key e) k) as [Heq|Hne].
    + split; [done|]. intros [Hk _]. by destruct Hk.
    + destruct (find k l) eqn:Hf; simpl.
      * split; [done|]. intros [_ Hk]. by apply IH in Hk.
      * split; [|done]. intros _. split; [congruence|]. by apply IH.
Qed.

Lemma find_Some k l i :
  find k l = Some i -> exists e, l !! i = Some e /\ key e = k.
Proof.
  revert i. induction l as [|e l IH]; intros i; simpl; [done|].
  destruct (Z.eqb_spec (key e) k) as [Heq|Hne].
  - intros [= <-]. by exists e.
  - destruct (find k l) as [j|] eqn:Hf; simpl; [|done].
    intros [= <-]. by apply IH.
Qed.

Lemma find_keys k l l' : map key l = map key l' -> find k l = find k l'.
Proof.
  revert l'. induction l as [|e l IH]; intros [|e' l'] Heq; simpl in *;
    try done.
  injection Heq as Hk Heq. rewrite Hk, (IH l' Heq). done.
Qed.

Lemma find_app_l k l l' i : find k l = Some i -> find k (l ++ l') = Some i.
Proof.
  revert i. induction l as [|e l IH]; intros i; simpl; [done|].
  destruct (key e =? k); [done|].
  destruct (find k l) as [j|]; simpl; [|done].
  intros [= <-]. by rewrite (IH j).
Qed.

Lemma find_app_r k l x :
  find k l = None -> key x = k -> find k (l ++ [x]) = Some (length l).
Proof.
  intros Hnone Hx. induction l as [|e l IH]; simpl in *.
  - by rewrite Hx, Z.eqb_refl.
  - destruct (key e =? k); [done|].
    destruct (find k l); [done|]. by rewrite IH.
Qed.

Lemma find_app_None k l x :
  find k l = None -> key x <> k -> find k (l ++ [x]) = None.
Proof.
  intros Hnone Hx. apply find_None. rewrite map_app, elem_of_app.
  intros [Hin|Hin].
  - by apply find_None in Hnone.
  - simpl in Hin. apply list_elem_of_singleton in Hin. congruence.
Qed.

Lemma keys_insert l i x e :
  l !! i = Some e -> key e = key x -> map key (<[i := x]> l) = map key l.
Proof.
  intros Hi Hk. change (key <$> <[i:=x]> l = key <$> l).
  rewrite list_fmap_insert. apply list_insert_id.
  by rewrite list_lookup_fmap, Hi, <- Hk.
Qed.

(** The keys after one turn: unchanged, or one more at the end. *)
Lemma keys_put l x :
  map key (put l x)
  = if decide (key x ∈ map key l) then map key l else map key l ++ [key x].
Proof.
  unfold put. destruct (find (key x) l) as [i|] eqn:Hf.
  - destruct (find_Some _ _ _ Hf) as (e & Hi & Hk).
    rewrite (keys_insert l i x e Hi Hk).
    rewrite decide_True; [done|].
    destruct (decide (key x ∈ map key l)) as [|Hn]; [done|].
    apply find_None in Hn. congruence.
  - apply find_None in Hf. rewrite decide_False by done.
    by rewrite map_app.
Qed.

Lemma keys_put_mono l x k : k ∈ map key l -> k ∈ map key (put l x).
Proof.
  intros Hk. rewrite keys_put. case_decide; [done|].
  apply elem_of_app. by left.
Qed.

Lemma keys_put_here l x : key x ∈ map key (put l x).
Proof.
  rewrite keys_put. case_decide; [done|].
  apply elem_of_app. right. by apply list_elem_of_singleton.
Qed.

Lemma keys_put_all_mono xs : forall l k,
  k ∈ map key l -> k ∈ map key (put_all l xs).
Proof.
  induction xs as [|x xs IH]; intros l k Hk; simpl; [done|].
  apply IH. by apply keys_put_mono.
Qed.

Lemma keys_put_all_here xs : forall l x,
  x ∈ xs -> key x ∈ map key (put_all l xs).
Proof.
  induction xs as [|y xs IH]; intros l x Hx; simpl.
  - by apply elem_of_nil in Hx.
  - apply elem_of_cons in Hx as [->|Hx].
    + apply keys_put_all_mono, keys_put_here.
    + by apply IH.
Qed.

Lemma NoDup_put l x : NoDup (map key l) -> NoDup (map key (put l x)).
Proof.
  intros Hnd. rewrite keys_put. case_decide as Hin; [done|].
  apply NoDup_app. split; [done|]. split.
  - intros k Hk Hk'. apply list_elem_of_singleton in Hk'. congruence.
  - apply NoDup_singleton.
Qed.

Lemma NoDup_put_all xs : forall l,
  NoDup (map key l) -> NoDup (map key (put_all l xs)).
Proof.
  induction xs as [|x xs IH]; intros l Hnd; simpl; [done|].
  by apply IH, NoDup_put.
Qed.

(** A second element of the same key overrides the first. *)
Lemma put_absorb l x b : key x = key b -> put (put l x) b = put l b.
Proof.
  intros Hk. unfold put at 2 3. rewrite <- Hk.
  destruct (find (key x) l) as [i|] eqn:Hf.
  - destruct (find_Some _ _ _ Hf) as (e & Hi & He).
    unfold put. rewrite <- Hk.
    rewrite (find_keys _ _ l (keys_insert l i x e Hi He)), Hf.
    by rewrite list_insert_insert_eq.
  - unfold put. rewrite <- Hk, (find_app_r _ _ _ Hf eq_refl).
    by rewrite insert_app_r_alt, Nat.sub_diag.
Qed.

(** Elements of different keys commute once the key of one is there. *)
Lemma put_commute l x b :
  key x <> key b -> key b ∈ map key l ->
  put (put l b) x = put (put l x) b.
Proof.
  intros Hne Hin.
  destruct (find (key b) l) as [i|] eqn:Hb;
    [|by apply find_None in Hb].
  destruct (find_Some _ _ _ Hb) as (e & Hi & He).
  assert (map key (<[i:=b]> l) = map key l) as Hkeys
    by exact (keys_insert l i b e Hi He).
  unfold put at 2. rewrite Hb.
  unfold put at 3.
  destruct (find (key x) l) as [j|] eqn:Hx.
  - destruct (find_Some _ _ _ Hx) as (e' & Hj & He').
    unfold put. rewrite (find_keys _ _ _ Hkeys), Hx.
    rewrite (find_keys _ _ l (keys_insert l j x e' Hj He')), Hb.
    apply list_insert_insert_ne. intros ->. congruence.
  - unfold put. rewrite (find_keys _ _ _ Hkeys), Hx.
    rewrite (find_app_l _ _ _ _ Hb).
    apply lookup_lt_Some in Hi. by rewrite insert_app_l.
Qed.

Lemma put_all_absorb xs : forall l b,
  key b ∈ map key xs -> key b ∈ map key l ->
  put_all (put l b) xs = put_all l xs.
Proof.
  induction xs as [|x xs IH]; intros l b Hxs Hl; simpl in *.
  - by apply elem_of_nil in Hxs.
  - destruct (decide (key x = key b)) as [Heq|Hne].
    + by rewrite put_absorb.
    + apply elem_of_cons in Hxs as [Hxs|Hxs]; [congruence|].
      rewrite put_commute by done.
      apply IH; [done|]. by apply keys_put_mono.
Qed.

Lemma put_all_commute xs : forall l b,
  key b ∉ map key xs -> key b ∈ map key l ->
  put_all (put l b) xs = put (put_all l xs) b.
Proof.
  induction xs as [|x xs IH]; intros l b Hxs Hl; simpl in *; [done|].
  apply not_elem_of_cons in Hxs as [Hne Hxs].
  rewrite put_commute by done.
  apply IH; [done|]. by apply keys_put_mono.
Qed.

Lemma put_all_cons l b xs : put_all l (b :: xs) = put_all (put l b) xs.
Proof. reflexivity. Qed.

(** Merging the same elements a second time changes nothing. *)
Lemma put_all_idempotent xs : forall l,
  put_all (put_all l xs) xs = put_all l xs.
Proof.
  induction xs as [|b xs IH]; intros l; [done|].
  rewrite !put_all_cons.
  assert (key b ∈ map key (put_all (put l b) xs)) as Hin
    by apply keys_put_all_mono, keys_put_here.
  destruct (decide (key b ∈ map key xs)) as [Hxs|Hxs].
  - rewrite put_all_absorb by done. apply IH.
  - rewrite put_all_commute by done. rewrite IH.
    rewrite <- (put_absorb l b b eq_refl).
    rewrite (put_all_commute xs (put l b) b Hxs (keys_put_here l b)).
    by rewrite put_absorb.
Qed.

Lemma count_zero l k :
  k ∉ map key l -> filter (fun e => key e = k) l = [].
Proof.
  induction l as [|e l IH]; intros Hnotin; simpl in *; [done|].
  apply not_elem_of_cons in Hnotin as [Hne Hnotin].
  rewrite filter_cons_False by congruence. by apply IH.
Qed.

(** With distinct keys, a key that is present is present once. *)
Lemma count_one l k :
  NoDup (map key l) -> k ∈ map key l ->
  length (filter (fun e => key e = k) l) = 1%nat.
Proof.
  induction l as [|e l IH]; intros Hnd Hin; simpl in *.
  - by apply elem_of_nil in Hin.
  - apply NoDup_cons in Hnd as [Hnotin Hnd].
    destruct (decide (key e = k)) as [Hk|Hk].
    + rewrite filter_cons_True by done. simpl.
      rewrite count_zero; [done|]. by rewrite <- Hk.
    + rewrite filter_cons_False by done.
      apply elem_of_cons in Hin as [Hin|Hin]; [congruence|]. by apply IH.
Qed.

End KeyedMerge.

(** Merging commutes with a map that preserves the keys. *)
Section Map.
Context {X Y : Type} (kx : X -> Z) (ky : Y -> Z) (f : X -> Y).
Hypothesis key_f : forall x, ky (f x) = kx x.

Lemma keys_map l : map ky (map f l) = map kx l.
Proof. rewrite map_map. apply map_ext. exact key_f. Qed.

Lemma find_map k l : find ky k (map f l) = find kx k l.
Proof.
  induction l as [|e l IH]; simpl; [done|]. by rewrite key_f, IH.
Qed.

Lemma put_map l x : map f (put kx l x) = put ky (map f l) (f x).
Proof.
  unfold put. rewrite key_f, find_map.
  destruct (find kx (kx x) l) as [i|].
  - exact (list_fmap_insert f l i x).
  - by rewrite map_app.
Qed.

Lemma put_all_map xs : forall l,
  map f (put_all kx l xs) = put_all ky (map f l) (map f xs).
Proof.
  induction xs as [|x xs IH]; intros l; simpl; [done|].
  fold (put_all kx (put kx l x) xs).
  fold (put_all ky (put ky (map f l) (f x)) (map f xs)).
  by rewrite IH, put_map.
Qed.

End Map.
End KeyedMerge.

(** ** The breakpoint tools *)
Module BreakpointFacts.
Import Session BreakpointTools.

Lemma findIndex_find l merged : findIndex l merged = KeyedMerge.find line l merged.
Proof. induction merged as [|e m IH]; simpl; [done|]. by rewrite IH. Qed.

Lemma merge_step_put merged bp :
  merge_step merged bp = KeyedMerge.put line merged (unverified bp).
Proof. unfold merge_step, KeyedMerge.put. by rewrite findIndex_find. Qed.

Lemma merge_put_all bps : forall existing,
  merge existing bps = KeyedMerge.put_all line existing (map unverified bps).
Proof.
  unfold merge, KeyedMerge.put_all.
  induction bps as [|bp bps IH]; intros existing; simpl; [done|].
  by rewrite IH, merge_step_put.
Qed.

Lemma toSource_unverified bp : toSourceBreakpoint (unverified bp) = bp.
Proof. by destruct bp. Qed.

Lemma toSource_line e : sb_line (toSourceBreakpoint e) = line e.
Proof. done. Qed.

(** What is sent to the adapter is the merge of the requests. *)
Lemma toSource_merge existing bps :
  toSourceBreakpoints (merge existing bps)
  = KeyedMerge.put_all sb_line (toSourceBreakpoints existing) bps.
Proof.
  unfold toSourceBreakpoints. rewrite merge_put_all.
  rewrite (KeyedMerge.put_all_map line sb_line toSourceBreakpoint toSource_line).
  rewrite map_map. f_equal.
  rewrite <- (map_id bps) at 2. apply map_ext, toSource_unverified.
Qed.

Lemma lines_toSource l : map sb_line (toSourceBreakpoints l) = map line l.
Proof. apply (KeyedMerge.keys_map line sb_line), toSource_line. Qed.

(** The adapter reports no line other than the requested one. *)
Fixpoint uncorrected_b (merged : list BreakpointInfo)
    (results : list BreakpointResult) : bool :=
  match merged, results with
  | bp :: merged', r :: results' =>
      match br_line r with
      | None => true
      | Some l => l =? line bp
      end && uncorrected_b merged' results'
  | _, _ => true
  end.

Definition uncorrected (merged : list BreakpointInfo)
    (results : list BreakpointResult) : Prop :=
  uncorrected_b merged results = true.

Lemma toSource_apply_results merged : forall results,
  uncorrected merged results ->
  toSourceBreakpoints (apply_results merged results)
  = toSourceBreakpoints merged.
Proof.
  unfold uncorrected.
  induction merged as [|bp merged IH]; intros results Hun; simpl; [done|].
  destruct results as [|r results]; simpl in *.
  - rewrite (IH []); [done|]. by destruct merged.
  - apply andb_true_iff in Hun as [Hr Hun]. rewrite (IH _ Hun). f_equal.
    unfold toSourceBreakpoint, apply_result. simpl. f_equal.
    destruct (br_line r) as [l|]; simpl; [|done].
    by apply Z.eqb_eq in Hr.
Qed.

(** What a result contributes to the report. *)
Definition view (r : BreakpointResult) : bool * option Z :=
  (br_verified r, br_line r).

Lemma report_apply_results merged : forall merged' results results',
  toSourceBreakpoints merged = toSourceBreakpoints merged' ->
  map view results = map view results' ->
  map report (apply_results merged results)
  = map report (apply_results merged' results').
Proof.
  induction merged as [|bp merged IH];
    intros [|bp' merged'] results results' Hsrc Hview; simpl in *; try done.
  injection Hsrc as Hl _ Hc _ _ Hsrc. f_equal.
  - unfold report, apply_result. simpl. rewrite Hl, Hc.
    destruct results as [|r rs], results' as [|r' rs']; simpl in *; try done.
    injection Hview as -> -> _. done.
  - apply IH; [done|].
    destruct results as [|r rs], results' as [|r' rs']; simpl in *; try done.
    by injection Hview.
Qed.

Section Tools.
Context {A : Type} `{DebugAdapter A}.

Lemma stored_after_set (session : SessionState A) file bps :
  default [] (breakpoints (setBreakpointsForFile session file bps) !! file)
  = bps.
Proof.
  unfold setBreakpointsForFile. destruct bps as [|bp bps]; simpl.
  - by rewrite lookup_delete_eq.
  - by rewrite lookup_insert_eq.
Qed.

Lemma stored_read (session : SessionState A) file bps :
  getBreakpointsForFile (setBreakpointsForFile session file bps) file = bps.
Proof. apply stored_after_set. Qed.

Lemma adapter_after_set (session : SessionState A) file bps :
  adapter (setBreakpointsForFile session file bps) = adapter session.
Proof. unfold setBreakpointsForFile. by destruct (length bps =? 0)%nat. Qed.

(** [set_breakpoints] when the adapter accepts the merged list. *)
Lemma set_breakpoints_ok (session : SessionState A) file bps results a' :
  setBreakpoints (adapter session) file
    (toSourceBreakpoints (merge (getBreakpointsForFile session file) bps))
  = (Ok results, a') ->
  set_breakpoints file bps session
  = (Ok (map report
           (apply_results (merge (getBreakpointsForFile session file) bps)
              results)),
     setBreakpointsForFile (with_adapter session a') file
       (apply_results (merge (getBreakpointsForFile session file) bps)
          results)).
Proof. intros Hcall. unfold set_breakpoints. by rewrite Hcall. Qed.

Lemma call_pair (a : A) file sent results :
  fst (setBreakpoints a file sent) = Ok results ->
  setBreakpoints a file sent = (Ok results, snd (setBreakpoints a file sent)).
Proof. destruct (setBreakpoints a file sent). simpl. by intros ->. Qed.

(** The claim of the specification on [set_breakpoints] followed by
    [list_breakpoints]: the list of the file has no two entries of the same
    line, and exactly one entry for each line requested. *)
Definition lists_each_line_once (session : SessionState A) (file : string)
    (bps : list SourceBreakpoint) : Prop :=
  let listed :=
    default []
      (list_breakpoints (snd (set_breakpoints file bps session)) !! file) in
  NoDup (map line listed)
  /\ forall bp, bp ∈ bps ->
       length (filter (fun e => line e = sb_line bp) listed) = 1%nat.

(** The claim of the specification on repeating [set_breakpoints]: the
    second call reports what the first one did. *)
Definition repeat_reports_same (session : SessionState A) (file : string)
    (bps : list SourceBreakpoint) : Prop :=
  fst (set_breakpoints file bps (snd (set_breakpoints file bps session)))
  = fst (set_breakpoints file bps session).

(** C3 (amended). When the stored list of the file has no two entries of
    the same line and the adapter accepts the merged list without
    reporting a line other than the requested one, [list_breakpoints]
    after [set_breakpoints(file, L)] returns for the file a list without
    duplicate lines that holds exactly one entry for each line of [L]. *)
Theorem set_then_list_each_line_once :
  forall (session : SessionState A) (file : string)
         (bps : list SourceBreakpoint) (results : list BreakpointResult),
    NoDup (map line (getBreakpointsForFile session file)) ->
    fst (setBreakpoints (adapter session) file
           (toSourceBreakpoints
              (merge (getBreakpointsForFile session file) bps)))
    = Ok results ->
    uncorrected (merge (getBreakpointsForFile session file) bps) results ->
    lists_each_line_once session file bps.
Proof.
  intros session file bps results Hnd Hcall Hun.
  apply call_pair in Hcall.
  unfold lists_each_line_once, set_breakpoints, list_breakpoints,
    getAllBreakpoints.
  rewrite Hcall. cbn [snd]. rewrite stored_after_set.
  set (merged := merge (getBreakpointsForFile session file) bps) in *.
  assert (map line (apply_results merged results) = map line merged) as Hlines.
  { rewrite <- !lines_toSource. by rewrite toSource_apply_results. }
  assert (NoDup (map line merged)) as Hnd'.
  { subst merged. rewrite merge_put_all. by apply KeyedMerge.NoDup_put_all. }
  split.
  - by rewrite Hlines.
  - intros bp Hbp. apply KeyedMerge.count_one; rewrite Hlines; [done|].
    subst merged. rewrite merge_put_all.
    change (sb_line bp) with (line (unverified bp)).
    apply KeyedMerge.keys_put_all_here.
    apply list_elem_of_fmap. by exists bp.
Qed.

(** C7 (amended). When the adapter accepts the merged list without
    reporting a line other than the requested one, and answers the same
    list sent again with the same verified flags and lines, the second
    [set_breakpoints(F, L)] reports the same lines, verified flags and
    conditions as the first. *)
Theorem set_breakpoints_twice_same_report :
  forall (session : SessionState A) (file : string)
         (bps : list SourceBreakpoint)
         (results results' : list BreakpointResult),
    let sent :=
      toSourceBreakpoints (merge (getBreakpointsForFile session file) bps) in
    let a' := snd (setBreakpoints (adapter session) file sent) in
    fst (setBreakpoints (adapter session) file sent) = Ok results ->
    uncorrected (merge (getBreakpointsForFile session file) bps) results ->
    fst (setBreakpoints a' file sent) = Ok results' ->
    map view results' = map view results ->
    repeat_reports_same session file bps.
Proof.
  intros session file bps results results' sent a' Hcall Hun Hcall' Hview.
  apply call_pair in Hcall. fold a' in Hcall.
  apply call_pair in Hcall'.
  set (a'' := snd (setBreakpoints a' file sent)) in *.
  unfold repeat_reports_same.
  rewrite (set_breakpoints_ok session file bps results a' Hcall).
  cbn [fst snd].
  set (merged := merge (getBreakpointsForFile session file) bps) in *.
  set (session1 := setBreakpointsForFile (with_adapter session a') file
                     (apply_results merged results)).
  assert (toSourceBreakpoints (merge (getBreakpointsForFile session1 file) bps)
          = sent) as Hsent.
  { subst session1. rewrite stored_read.
    rewrite toSource_merge, toSource_apply_results by done.
    subst merged sent. rewrite toSource_merge.
    apply KeyedMerge.put_all_idempotent. }
  rewrite (set_breakpoints_ok session1 file bps results' a'').
  2:{ rewrite Hsent. subst session1. by rewrite adapter_after_set. }
  cbn [fst]. f_equal.
  apply report_apply_results; [|done].
  by rewrite Hsent.
Qed.


End Tools.

End BreakpointFacts.

(** *** A Node.js session with two inspectors *)
Module BreakpointExamples.
Import Session BreakpointTools BreakpointFacts SessionManager.

(** An inspector that resolves every breakpoint on the requested line. *)
Definition exact_inspector (rq : NodeAdapter.CdpRequest)
  : NodeAdapter.CdpReply :=
  match NodeAdapter.cr_params rq with
  | NodeAdapter.PSetBreakpointByUrl l _ _ _ =>
      NodeAdapter.ReplyResult
        {| NodeAdapter.breakpointId := "bp";
           NodeAdapter.locations :=
             [{| NodeAdapter.cl_scriptId := Some "7";
                 NodeAdapter.cl_lineNumber := l;
                 NodeAdapter.cl_columnNumber := Some 0 |}] |}
  | _ =>
      NodeAdapter.ReplyResult
        {| NodeAdapter.breakpointId := ""; NodeAdapter.locations := [] |}
  end.

(** An inspector for a script whose line 10 holds no statement: a
    breakpoint asked for on line 10 (9 when counted from 0) is resolved on
    line 11, every other one on the requested line. *)
Definition sliding_inspector (rq : NodeAdapter.CdpRequest)
  : NodeAdapter.CdpReply :=
  match NodeAdapter.cr_params rq with
  | NodeAdapter.PSetBreakpointByUrl l _ _ _ =>
      NodeAdapter.ReplyResult
        {| NodeAdapter.breakpointId := "bp";
           NodeAdapter.locations :=
             [{| NodeAdapter.cl_scriptId := Some "7";
                 NodeAdapter.cl_lineNumber := if l =? 9 then 10 else l;
                 NodeAdapter.cl_columnNumber := Some 0 |}] |}
  | _ =>
      NodeAdapter.ReplyResult
        {| NodeAdapter.breakpointId := ""; NodeAdapter.locations := [] |}
  end.

Definition quiet_server (rq : Dap.Request) : PythonAdapter.Reply :=
  {| PythonAdapter.ok := true; PythonAdapter.msg := None;
     PythonAdapter.rbody := None |}.

Definition with_inspector (peer : NodeAdapter.CdpRequest -> NodeAdapter.CdpReply)
  : DebugAdapter AnyAdapter :=
  AnyAdapter_DebugAdapter peer quiet_server.

(** The session that [start_debug_session{program: "/tmp/a.js"}] creates. *)
Definition node_session (peer : NodeAdapter.CdpRequest -> NodeAdapter.CdpReply)
  : SessionState AnyAdapter :=
  match fst (create peer quiet_server
               {| cfg_type := ""; cfg_program := "/tmp/a.js" |} initial) with
  | Ok s => s
  | Throw _ => createSessionState "" (ANode NodeAdapter.new)
  end.

Definition at_line (l : Z) : SourceBreakpoint :=
  {| sb_line := l; sb_column := None; sb_condition := None;
     sb_hitCondition := None; sb_logMessage := None |}.

Example node_session_created :
  fst (create exact_inspector quiet_server
         {| cfg_type := ""; cfg_program := "/tmp/a.js" |} initial)
  = Ok (node_session exact_inspector)
  /\ sid (node_session exact_inspector) = "session-1"
  /\ NodeAdapter.ws
       (match adapter (node_session exact_inspector) with
        | ANode n => n
        | APython _ => NodeAdapter.new
        end) = true.
Proof. vm_compute. done. Qed.

(** Scenario S4 of the specification. *)
Example merge_scenario :
  let F := "/tmp/a.js" in
  let I := with_inspector exact_inspector in
  let s1 := snd (set_breakpoints (H := I) F [at_line 10; at_line 20]
                   (node_session exact_inspector)) in
  let s2 :=
    snd (set_breakpoints (H := I) F
           [{| sb_line := 20; sb_column := None; sb_condition := Some "i>5";
               sb_hitCondition := None; sb_logMessage := None |};
            at_line 30] s1) in
  map (fun e => (line e, condition e))
      (default [] (list_breakpoints s2 !! F))
  = [(10, None); (20, Some "i>5"); (30, None)].
Proof. vm_compute. done. Qed.

Definition resolved_at (i l : Z) : BreakpointResult :=
  {| br_id := Some i; br_verified := true; br_line := Some l;
     br_message := None |}.

Lemma set_then_list_each_line_once_witness :
  lists_each_line_once (H := with_inspector exact_inspector)
    (node_session exact_inspector) "/tmp/a.js" [at_line 10; at_line 20].
Proof.
  apply (set_then_list_each_line_once (H := with_inspector exact_inspector)
           (node_session exact_inspector) "/tmp/a.js"
           [at_line 10; at_line 20] [resolved_at 0 10; resolved_at 1 20]).
  - vm_compute. apply NoDup_nil_2.
  - vm_compute. reflexivity.
  - vm_compute. reflexivity.
Defined.

(** C3 as stated fails when the adapter corrects a line: lines 10 and 11
    are asked for, the inspector resolves both on line 11, and the list
    holds line 11 twice and line 10 not at all. *)
Lemma set_then_list_corrected_line_twice :
  ~ lists_each_line_once (H := with_inspector sliding_inspector)
      (node_session sliding_inspector) "/tmp/a.js" [at_line 10; at_line 11].
Proof.
  unfold lists_each_line_once. intros [Hnd _].
  assert (map line
            (default []
               (list_breakpoints
                  (snd (set_breakpoints (H := with_inspector sliding_inspector)
                          "/tmp/a.js" [at_line 10; at_line 11]
                          (node_session sliding_inspector)))
                !! "/tmp/a.js"))
          = [11; 11]) as Hlines by (vm_compute; reflexivity).
  rewrite Hlines in Hnd.
  apply NoDup_cons in Hnd as [Hnotin _]. apply Hnotin. by left.
Qed.

Lemma set_breakpoints_twice_same_report_witness :
  repeat_reports_same (H := with_inspector exact_inspector)
    (node_session exact_inspector) "/tmp/a.js" [at_line 10; at_line 20].
Proof.
  apply (set_breakpoints_twice_same_report
           (H := with_inspector exact_inspector)
           (node_session exact_inspector) "/tmp/a.js"
           [at_line 10; at_line 20]
           [resolved_at 0 10; resolved_at 1 20]
           [resolved_at 0 10; resolved_at 1 20]).
  - vm_compute. reflexivity.
  - vm_compute. reflexivity.
  - vm_compute. reflexivity.
  - reflexivity.
Defined.

(** C7 as stated fails when the adapter corrects a line: line 10 is
    stored as line 11, so the same request made again finds no entry of
    line 10, appends one, and two breakpoints are reported instead of
    one. *)
Lemma set_breakpoints_twice_corrected_line_differs :
  ~ repeat_reports_same (H := with_inspector sliding_inspector)
      (node_session sliding_inspector) "/tmp/a.js" [at_line 10].
Proof.
  unfold repeat_reports_same.
  assert (fst (set_breakpoints (H := with_inspector sliding_inspector)
                 "/tmp/a.js" [at_line 10] (node_session sliding_inspector))
          = Ok [{| rp_line := 11; rp_verified := true;
                   rp_condition := None |}]) as Hfirst
    by (vm_compute; reflexivity).
  assert (fst (set_breakpoints (H := with_inspector sliding_inspector)
                 "/tmp/a.js" [at_line 10]
                 (snd (set_breakpoints (H := with_inspector sliding_inspector)
                         "/tmp/a.js" [at_line 10]
                         (node_session sliding_inspector))))
          = Ok [{| rp_line := 11; rp_verified := true;
                   rp_condition := None |};
                {| rp_line := 11; rp_verified := true;
                   rp_condition := None |}]) as Hsecond
    by (vm_compute; reflexivity).
  rewrite Hfirst, Hsecond. discriminate.
Qed.


End BreakpointExamples.

(** ** The stop-synchronisation rule *)
Module ResumeFacts.

(** In a run of effects, every write on the wire comes after the
    registration of a pause listener. *)
Definition listens_before_writing (added : list Effect) : Prop :=
  forall i cmd,
    added !! i = Some (EvWrite cmd) ->
    exists j k, (j < i)%nat /\ added !! j = Some (EvListen k).

Lemma listen_then_write k rest :
  listens_before_writing ([EvTimer k; EvListen k] ++ rest).
Proof.
  intros i c Hi. exists 1%nat, k. split; [|done].
  destruct i as [|[|i]]; [discriminate..|lia].
Qed.

Lemma no_write_no_order l :
  (forall c, EvWrite c ∉ l) -> listens_before_writing l.
Proof.
  intros Hl i c Hi. destruct (Hl c). by apply list_elem_of_lookup_2 in Hi.
Qed.

(** C1. On both adapters and for each of [continue], [stepOver],
    [stepIn] and [stepOut]: the effects of the operation extend the
    history by a run in which the pause listener of a fresh waiter is
    pushed onto [stoppedCallbacks] strictly before the resume command is
    written, the resume command being the only request written.  With a
    connection the run is: arm the timeout, push the listener, subscribe to
    termination and exit, write the command (DAP [continue] / [next] /
    [stepIn] / [stepOut], CDP [Debugger.resume] / [Debugger.stepOver] /
    [Debugger.stepInto] / [Debugger.stepOut]); without one nothing is
    written. *)
Theorem resume_listens_before_writing :
  forall (op : ResumeOp) (tid : option Z),
    (forall a : PythonAdapter.T,
        let k := PythonAdapter.waiters a in
        let r := PythonAdapter.resume op tid a in
        exists added,
          PythonAdapter.events (snd r) = PythonAdapter.events a ++ added
          /\ listens_before_writing added
          /\ (forall cmd, EvWrite cmd ∈ added
                          -> cmd = PythonAdapter.dap_command op)
          /\ match PythonAdapter.client a with
             | Some c =>
                 is_ok (fst r) = true
                 /\ added
                    = [EvTimer k; EvListen k]
                      ++ ([EvSubscribe k]
                          ++ (if PythonAdapter.process a
                              then [EvOnceExit k] else []))
                      ++ [EvWrite (PythonAdapter.dap_command op)]
                 /\ PythonAdapter.stoppedCallbacks (snd r)
                    = PythonAdapter.stoppedCallbacks a ++ [CbWaiter k]
                 /\ Dap.written <$> PythonAdapter.client (snd r)
                    = Some (Dap.written c
                            ++ [{| Dap.rq_seq := Dap.seq c;
                                   Dap.rq_command :=
                                     PythonAdapter.dap_command op;
                                   Dap.rq_arguments :=
                                     Some (Dap.ArgsThread
                                             (default
                                                (PythonAdapter.threadId a)
                                                tid)) |}])
             | None => r = (Throw "Not connected", a) /\ added = []
             end)
    /\ (forall a : NodeAdapter.T,
          let k := NodeAdapter.waiters a in
          let r := NodeAdapter.resume op tid a in
          exists added,
            NodeAdapter.events (snd r) = NodeAdapter.events a ++ added
            /\ listens_before_writing added
            /\ (forall cmd, EvWrite cmd ∈ added
                            -> cmd = NodeAdapter.cdp_method op)
            /\ NodeAdapter.stoppedCallbacks (snd r)
               = NodeAdapter.stoppedCallbacks a ++ [CbWaiter k]
            /\ if NodeAdapter.ws a then
                 is_ok (fst r) = true
                 /\ added
                    = [EvTimer k; EvListen k]
                      ++ (if NodeAdapter.process a
                          then [EvOnceExit k] else [])
                      ++ [EvWrite (NodeAdapter.cdp_method op)]
                 /\ NodeAdapter.sent (snd r)
                    = NodeAdapter.sent a
                      ++ [{| NodeAdapter.cr_id := NodeAdapter.seq a;
                             NodeAdapter.cr_method := NodeAdapter.cdp_method op;
                             NodeAdapter.cr_params := NodeAdapter.PEmpty |}]
               else
                 fst r = Throw "Not connected"
                 /\ added
                    = [EvTimer k; EvListen k]
                      ++ (if NodeAdapter.process a
                          then [EvOnceExit k] else [])
                 /\ NodeAdapter.sent (snd r) = NodeAdapter.sent a).
Proof.
  intros op tid. split.
  - intros a k r. subst r. unfold PythonAdapter.resume.
    destruct (PythonAdapter.client a) as [c|] eqn:Hc.
    + unfold PythonAdapter.waitForStop. rewrite Hc. cbn.
      eexists. split; [rewrite <- !app_assoc; reflexivity|].
      split; [|split; [|done]].
      * apply listen_then_write.
      * intros cmd Hin. cbn in Hin.
        repeat (apply elem_of_cons in Hin as [Hin|Hin]; [discriminate|]).
        apply elem_of_app in Hin as [Hin|Hin].
        -- destruct (PythonAdapter.process a);
             [by apply list_elem_of_singleton in Hin
             |by apply elem_of_nil in Hin].
        -- apply list_elem_of_singleton in Hin. congruence.
    + exists []. rewrite app_nil_r. split; [done|].
      split; [apply no_write_no_order; intros c; apply not_elem_of_nil|].
      split; [|done]. intros cmd Hin. by apply elem_of_nil in Hin.
  - intros a k r. subst r.
    unfold NodeAdapter.resume, NodeAdapter.waitForPause, NodeAdapter.cdpSend.
    cbn. destruct (NodeAdapter.ws a) eqn:Hws; cbn.
    + eexists. split; [rewrite <- !app_assoc; reflexivity|].
      split; [|split; [|done]].
      * apply listen_then_write.
      * intros cmd Hin. cbn in Hin.
        repeat (apply elem_of_cons in Hin as [Hin|Hin]; [discriminate|]).
        apply elem_of_app in Hin as [Hin|Hin].
        -- destruct (NodeAdapter.process a);
             [by apply list_elem_of_singleton in Hin
             |by apply elem_of_nil in Hin].
        -- apply list_elem_of_singleton in Hin. congruence.
    + eexists. split; [reflexivity|].
      split; [|split; [|done]].
      * apply no_write_no_order. intros c Hin. cbn in Hin.
        repeat (apply elem_of_cons in Hin as [Hin|Hin]; [discriminate|]).
        destruct (NodeAdapter.process a);
          [by apply list_elem_of_singleton in Hin|by apply elem_of_nil in Hin].
      * intros cmd Hin. cbn in Hin.
        repeat (apply elem_of_cons in Hin as [Hin|Hin]; [discriminate|]).
        destruct (NodeAdapter.process a);
          [by apply list_elem_of_singleton in Hin|by apply elem_of_nil in Hin].
Qed.

End ResumeFacts.

(** ** Variables of the Python adapter *)
Module VariablesFacts.
Import PythonAdapter.

Section WithPeer.
Variable peer : Dap.Request -> Reply.
Variable toLowerCase : string -> string.

(** C10. In [PythonAdapter.getVariables], when the frame has a non-empty
    list of scopes and none of them is selected (no scope has the requested
    name, or, no scope being requested, no scope name contains "local"),
    the variables of the first scope of the list are asked for and
    returned: the result is the answer to the [variables] request for the
    [variablesReference] of that scope. *)
Theorem getVariables_falls_back_to_first_scope :
  forall (frameId : option Z) (scope : option string) (a : T)
         (c : Dap.DapClient) (f : Z) (response : Dap.Response)
         (s0 : Dap.Scope) (rest : list Dap.Scope),
    client a = Some c ->
    match frameId with Some i => Some i | None => head (frameIds a) end
    = Some f ->
    fst (request peer "scopes" (Some (Dap.ArgsScopes f)) c) = Ok response ->
    default [] (Dap.scopes (body_of response)) = s0 :: rest ->
    targetScopes toLowerCase scope (s0 :: rest) = [] ->
    fst (getVariables peer toLowerCase frameId scope a)
    = match fst (request peer "variables"
                   (Some (Dap.ArgsVariables (Dap.sc_variablesReference s0)))
                   (snd (request peer "scopes"
                           (Some (Dap.ArgsScopes f)) c))) with
      | Ok r => Ok (map toVariable (default [] (Dap.variables (body_of r))))
      | Throw e => Throw e
      end.
Proof.
  intros frameId scope a c f response s0 rest Hc Hf Hscopes Hlist Hnone.
  unfold getVariables. rewrite Hc, Hf.
  destruct (request peer "scopes" (Some (Dap.ArgsScopes f)) c)
    as [res c'] eqn:Hreq.
  cbn [fst snd] in *. subst res. rewrite Hlist, Hnone. cbn [length Nat.ltb Nat.leb take fetch].
  destruct (request peer "variables"
              (Some (Dap.ArgsVariables (Dap.sc_variablesReference s0))) c')
    as [[r|e] c''] eqn:Hvars; reflexivity.
Qed.

End WithPeer.

(** A debug server whose frame has the single scope "Globals", holding
    [x = 1]. *)
Definition globals_only (rq : Dap.Request) : Reply :=
  if String.eqb (Dap.rq_command rq) "scopes" then
    {| ok := true; msg := None;
       rbody :=
         Some {| Dap.breakpoints := None; Dap.stackFrames := None;
                 Dap.scopes :=
                   Some [{| Dap.sc_name := "Globals";
                            Dap.sc_variablesReference := 5 |}];
                 Dap.variables := None; Dap.reason := None;
                 Dap.threadId := None; Dap.description := None |} |}
  else
    {| ok := true; msg := None;
       rbody :=
         Some {| Dap.breakpoints := None; Dap.stackFrames := None;
                 Dap.scopes := None;
                 Dap.variables :=
                   Some [{| Dap.v_name := "x"; Dap.v_value := "1";
                            Dap.v_type := Some "int";
                            Dap.v_variablesReference := None |}];
                 Dap.reason := None; Dap.threadId := None;
                 Dap.description := None |} |}.

(** A connected adapter that has seen frame 3. *)
Definition paused_adapter : T :=
  {| process := true; client := Some (Dap.on_connect Dap.new);
     stoppedCallbacks := [CbTracker]; threadId := 1; frameIds := [3];
     initialPausePromise := None; waiters := 1; timers := [];
     exitListeners := []; resolved := []; events := [] |}.

Lemma getVariables_falls_back_to_first_scope_witness :
  fst (getVariables globals_only (fun s => s) None None paused_adapter)
  = Ok [{| Dap.v_name := "x"; Dap.v_value := "1"; Dap.v_type := Some "int";
           Dap.v_variablesReference := Some 0 |}].
Proof.
  rewrite (getVariables_falls_back_to_first_scope globals_only (fun s => s)
             None None paused_adapter (Dap.on_connect Dap.new) 3
             {| Dap.request_seq := 1; Dap.success := true;
                Dap.command := "scopes"; Dap.message := None;
                Dap.body := rbody (globals_only
                                     {| Dap.rq_seq := 1;
                                        Dap.rq_command := "scopes";
                                        Dap.rq_arguments :=
                                          Some (Dap.ArgsScopes 3) |}) |}
             {| Dap.sc_name := "Globals"; Dap.sc_variablesReference := 5 |}
             []).
  - vm_compute. reflexivity.
  - reflexivity.
  - reflexivity.
  - vm_compute. reflexivity.
  - vm_compute. reflexivity.
  - vm_compute. reflexivity.
Defined.

End VariablesFacts.

(** ** The stopped fields of the session *)
Module SessionFacts.
Import Session SessionManager.


Lemma head_remove_waiter l k :
  head l = Some CbTracker -> head (remove_first (CbWaiter k) l) = Some CbTracker.
Proof. destruct l as [|c l]; [done|]. intros [= ->]. done. Qed.

#[local] Arguments PythonAdapter.request : simpl never.

Section WithPeers.
Variable cdp_peer : NodeAdapter.CdpRequest -> NodeAdapter.CdpReply.
Variable dap_peer : Dap.Request -> PythonAdapter.Reply.

Lemma node_request_callbacks method params a :
  NodeAdapter.stoppedCallbacks
    (snd (NodeAdapter.request cdp_peer method params a))
  = NodeAdapter.stoppedCallbacks a.
Proof.
  unfold NodeAdapter.request, NodeAdapter.cdpSend.
  destruct (NodeAdapter.ws a); cbn; [|done].
  by destruct (cdp_peer _).
Qed.


Lemma python_set_client_callbacks a c ev :
  PythonAdapter.stoppedCallbacks (PythonAdapter.set_client a c ev)
  = PythonAdapter.stoppedCallbacks a.
Proof. done. Qed.


Lemma python_getCallStack_callbacks tid a :
  PythonAdapter.stoppedCallbacks
    (snd (PythonAdapter.getCallStack dap_peer tid a))
  = PythonAdapter.stoppedCallbacks a.
Proof.
  unfold PythonAdapter.getCallStack.
  destruct (PythonAdapter.client a); [|done].
  by destruct (PythonAdapter.request dap_peer _ _ _) as [[?|?] ?].
Qed.

Lemma waiter_stopped_callbacks k info a :
  stoppedCallbacks (waiter_stopped dap_peer k info a)
  = remove_first (CbWaiter k) (stoppedCallbacks a).
Proof.
  destruct a as [n|p]; cbn; [done|].
  unfold PythonAdapter.waiter_stopped.
  pose proof (python_getCallStack_callbacks (si_threadId info)
                (PythonAdapter.cleanup k p)) as Hcs.
  by destruct (PythonAdapter.getCallStack dap_peer _ _) as [[?|?] ?].
Qed.


(** The fields that the tracker writes. *)
Definition fields (s : SessionState AnyAdapter) : option Z * option string :=
  (stoppedThreadId s, stoppedReason s).

Definition noted (info : StoppedInfo) : option Z * option string :=
  (si_threadId info, Some (si_reason info)).

(** While the callbacks run, the fields can only become those of the
    event, and the tracker stays first. *)
Lemma fire_fields fuel : forall i info s,
  head (stoppedCallbacks (adapter s)) = Some CbTracker ->
  head (stoppedCallbacks (adapter (fire dap_peer fuel i info s)))
  = Some CbTracker
  /\ (fields (fire dap_peer fuel i info s) = fields s
      \/ fields (fire dap_peer fuel i info s) = noted info).
Proof.
  induction fuel as [|fuel IH]; intros i info s Hhead; cbn; [by auto|].
  destruct (stoppedCallbacks (adapter s) !! i) as [[|k]|]; [| |by auto].
  - destruct (IH (S i) info (tracker info s) Hhead) as [Hh [Hf|Hf]];
      split; auto.
  - destruct (IH (S i) info
                (with_adapter s (waiter_stopped dap_peer k info (adapter s))))
      as [Hh Hf].
    + cbn. rewrite waiter_stopped_callbacks. by apply head_remove_waiter.
    + split; [done|]. exact Hf.
Qed.

Lemma note_stop_spec e a :
  exists t r d a1,
    note_stop e a
    = ({| si_reason := r; si_threadId := Some t; si_description := d |}, a1)
    /\ stoppedCallbacks a1 = stoppedCallbacks a.
Proof. destruct a as [n|p]; cbn; eauto 10. Qed.













End WithPeers.

Import BreakpointExamples.

(** The pause at a breakpoint, as the inspector announces it. *)
Definition breakpoint_hit : StopEvent :=
  {| ev_reason := Some "breakpoint"; ev_threadId := None;
     ev_description := None; ev_callFrames := Some [] |}.








End SessionFacts.

(** ** The DAP correlator *)
Module CorrelatorFacts.

Section JSMapFacts.
Context {V : Type}.
Implicit Types m : list (Z * V).

Lemma get_None k m : JSMap.get k m = None <-> k ∉ JSMap.keys m.
Proof.
  unfold JSMap.keys. induction m as [|[k' v] m IH]; cbn.
  - split; [intros _; apply not_elem_of_nil|done].
  - rewrite not_elem_of_cons. destruct (Z.eqb_spec k' k) as [->|Hne].
    + split; [done|]. intros [Hk _]. by destruct Hk.
    + rewrite IH. split; [intros Hk; split; [congruence|done]|by intros [_ Hk]].
Qed.

Lemma set_fresh k v m : k ∉ JSMap.keys m -> JSMap.set k v m = m ++ [(k, v)].
Proof.
  unfold JSMap.keys. induction m as [|[k' v'] m IH]; cbn; [done|].
  rewrite not_elem_of_cons. intros [Hne Hk].
  destruct (Z.eqb_spec k' k) as [->|_]; [done|]. by rewrite IH.
Qed.

Lemma delete_values k m p :
  JSMap.get k m = Some p ->
  JSMap.values m ≡ₚ p :: JSMap.values (JSMap.delete k m).
Proof.
  unfold JSMap.values. induction m as [|[k' v] m IH]; cbn; [done|].
  destruct (k' =? k).
  - by intros [= ->].
  - intros Hget. rewrite (IH Hget). cbn. apply Permutation_swap.
Qed.

Lemma delete_keys_sub k m x :
  x ∈ JSMap.keys (JSMap.delete k m) -> x ∈ JSMap.keys m.
Proof.
  unfold JSMap.keys. induction m as [|[k' v] m IH]; cbn; [done|].
  destruct (k' =? k).
  - intros Hx. apply elem_of_cons. by right.
  - cbn. intros Hx. apply elem_of_cons in Hx as [->|Hx].
    + apply elem_of_cons. by left.
    + apply elem_of_cons. right. by apply IH.
Qed.

Lemma delete_keys_NoDup k m :
  NoDup (JSMap.keys m) -> NoDup (JSMap.keys (JSMap.delete k m)).
Proof.
  unfold JSMap.keys. induction m as [|[k' v] m IH]; cbn; [done|].
  rewrite NoDup_cons. intros [Hk Hnd]. destruct (k' =? k); [done|].
  cbn. apply NoDup_cons. split; [|by apply IH].
  intros Hin. apply Hk. by apply (delete_keys_sub k).
Qed.

Lemma get_delete k m :
  NoDup (JSMap.keys m) -> JSMap.get k (JSMap.delete k m) = None.
Proof.
  unfold JSMap.keys. induction m as [|[k' v] m IH]; cbn; [done|].
  rewrite NoDup_cons. intros [Hk Hnd].
  destruct (Z.eqb_spec k' k) as [->|Hne].
  - by apply get_None.
  - cbn. destruct (Z.eqb_spec k' k) as [|_]; [done|]. by apply IH.
Qed.

End JSMapFacts.

(** What can happen to a client: a request is sent, a response is
    decoded, the transport closes. *)
Inductive Op : Type :=
| OpSend (cmd : string) (args : option Dap.Arguments)
| OpResponse (r : Dap.Response)
| OpClose.

Definition apply_op (c : Dap.DapClient) (op : Op) : Dap.DapClient :=
  match op with
  | OpSend cmd args => snd (Dap.sendRequest cmd args c)
  | OpResponse r => Dap.handleResponse r c
  | OpClose => Dap.on_close c
  end.

Definition run (ops : list Op) (c : Dap.DapClient) : Dap.DapClient :=
  fold_left apply_op ops c.

(** Every promise made so far is either in the pending table or settled,
    and is so exactly once; the keys of the table are distinct sequence
    numbers already given out. *)
Record consistent (c : Dap.DapClient) : Prop := {
  keys_distinct : NoDup (JSMap.keys (Dap.pending c));
  keys_given : Forall (fun k => k < Dap.seq c) (JSMap.keys (Dap.pending c));
  seq_positive : 0 < Dap.seq c;
  each_once :
    JSMap.values (Dap.pending c) ++ map fst (Dap.settled c)
    ≡ₚ List.seq 0 (Dap.promises c)
}.

Lemma new_consistent : consistent Dap.new.
Proof. split; cbn; [constructor|constructor|lia|done]. Qed.

Lemma send_consistent cmd args c :
  consistent c -> Dap.seq c < JS.MAX_EXACT ->
  consistent (snd (Dap.sendRequest cmd args c))
  /\ Dap.seq (snd (Dap.sendRequest cmd args c)) = Dap.seq c + 1.
Proof.
  intros [Hnd Hlt Hpos Hperm] Hbound. cbn.
  assert (Dap.seq c ∉ JSMap.keys (Dap.pending c)) as Hfresh.
  { intros Hin. rewrite Forall_forall in Hlt. apply Hlt in Hin. lia. }
  rewrite JSFacts.succ_exact by lia. split; [|done].
  split; cbn; rewrite ?(set_fresh _ _ _ Hfresh); unfold JSMap.keys, JSMap.values;
    rewrite ?map_app; cbn.
  - apply NoDup_app. split; [done|]. split; [|apply NoDup_singleton].
    intros k Hk Hk'. apply list_elem_of_singleton in Hk'. by subst.
  - apply Forall_app. split; [|by constructor; [lia|]].
    eapply Forall_impl; [exact Hlt|]. cbn. lia.
  - lia.
  - change (0%nat :: List.seq 1 (Dap.promises c))
      with (List.seq 0 (S (Dap.promises c))).
    rewrite seq_S. cbn [Nat.add]. rewrite <- Hperm. unfold JSMap.values.
    rewrite <- !app_assoc. apply Permutation_app_head, Permutation_app_comm.
Qed.

Lemma response_consistent r c :
  consistent c -> consistent (Dap.handleResponse r c).
Proof.
  intros [Hnd Hlt Hpos Hperm]. unfold Dap.handleResponse.
  destruct (JSMap.get (Dap.request_seq r) (Dap.pending c)) as [p|] eqn:Hget;
    [|by split].
  split; cbn.
  - by apply delete_keys_NoDup.
  - rewrite Forall_forall in *. intros k Hk. apply Hlt.
    by apply (delete_keys_sub (Dap.request_seq r)).
  - done.
  - rewrite <- Hperm, (delete_values _ _ _ Hget), map_app. cbn.
    rewrite (Permutation_app_comm (map fst (Dap.settled c)) [p]). cbn.
    by rewrite Permutation_middle.
Qed.

Lemma close_consistent c : consistent c -> consistent (Dap.on_close c).
Proof.
  intros [Hnd Hlt Hpos Hperm]. split; cbn; [constructor|constructor|done|].
  rewrite <- Hperm, map_app, map_map. cbn. rewrite map_id.
  fold (JSMap.values (Dap.pending c)). apply Permutation_app_comm.
Qed.

Lemma run_consistent ops : forall c,
  consistent c ->
  Dap.seq c + Z.of_nat (length ops) <= JS.MAX_EXACT ->
  consistent (run ops c).
Proof.
  induction ops as [|op ops IH]; intros c Hc Hbound; cbn; [done|].
  cbn [length] in Hbound.
  assert (consistent (apply_op c op)
          /\ Dap.seq (apply_op c op) <= Dap.seq c + 1) as [Hc' Hseq].
  { destruct op as [cmd args|r|]; cbn [apply_op].
    - destruct (send_consistent cmd args c Hc) as [H1 H2]; [lia|].
      split; [done|lia].
    - split; [by apply response_consistent|].
      unfold Dap.handleResponse. destruct (JSMap.get _ _); cbn; lia.
    - split; [by apply close_consistent|cbn; lia]. }
  apply IH; [done|lia].
Qed.

(** C5. After any history of requests sent, responses decoded and
    closes of the transport (of fewer than 2^53 events, the range in which
    the sequence counter is exact), every promise made is either pending
    or settled, exactly once.  A decoded response whose [request_seq] is
    in the pending table removes that entry and settles its promise:
    fulfilled with the response (which carries the body) when [success]
    holds, else rejected with the [message] of the response or, when it has
    none, with "Request failed: <command>"; a response that matches no
    entry changes nothing.  When the transport closes, every remaining
    entry is rejected with "Connection closed", the table is cleared, and
    every promise made has then been settled exactly once. *)
Theorem pending_settled_exactly_once :
  forall (handler_calls : Dap.DapClient -> string -> Dap.Body
                          -> list Dap.ApiCall)
         (ops : list Op),
    1 + Z.of_nat (length ops) <= JS.MAX_EXACT ->
    let c := run ops Dap.new in
    JSMap.values (Dap.pending c) ++ map fst (Dap.settled c)
    ≡ₚ List.seq 0 (Dap.promises c)
    /\ (forall r p,
          JSMap.get (Dap.request_seq r) (Dap.pending c) = Some p ->
          let c' := Dap.handleMessage handler_calls (Dap.MResponse r) c in
          Dap.pending c' = JSMap.delete (Dap.request_seq r) (Dap.pending c)
          /\ JSMap.get (Dap.request_seq r) (Dap.pending c') = None
          /\ Dap.settled c'
             = Dap.settled c
               ++ [(p, if Dap.success r then Dap.Fulfilled r
                       else Dap.Rejected
                              (match Dap.message r with
                               | Some m => m
                               | None => "Request failed: " +:+ Dap.command r
                               end))])
    /\ (forall r,
          JSMap.get (Dap.request_seq r) (Dap.pending c) = None ->
          Dap.handleMessage handler_calls (Dap.MResponse r) c = c)
    /\ Dap.pending (Dap.on_close c) = []
    /\ Dap.settled (Dap.on_close c)
       = Dap.settled c
         ++ map (fun p => (p, Dap.Rejected "Connection closed"))
                (JSMap.values (Dap.pending c))
    /\ map fst (Dap.settled (Dap.on_close c))
       ≡ₚ List.seq 0 (Dap.promises c).
Proof.
  intros handler_calls ops Hbound c.
  assert (consistent c) as Hc.
  { apply run_consistent; [apply new_consistent|exact Hbound]. }
  split; [apply (each_once c Hc)|].
  split; [|split; [|split; [done|split; [done|]]]].
  - intros r p Hget c'. subst c'. cbn. unfold Dap.handleResponse.
    rewrite Hget. cbn. split; [done|]. split.
    + apply get_delete, (keys_distinct c Hc).
    + unfold Dap.failure_message. by destruct (Dap.message r).
  - intros r Hget. cbn. unfold Dap.handleResponse. by rewrite Hget.
  - exact (each_once _ (close_consistent c Hc)).
Qed.

(** Two requests; the first is answered (twice), the transport closes. *)
Definition answer (k : Z) : Dap.Response :=
  {| Dap.request_seq := k; Dap.success := true; Dap.command := "continue";
     Dap.message := None; Dap.body := None |}.

Lemma pending_settled_exactly_once_witness :
  Dap.settled
    (run [OpSend "continue" None; OpSend "next" None; OpResponse (answer 1);
          OpResponse (answer 1); OpClose] Dap.new)
  = [(0%nat, Dap.Fulfilled (answer 1));
     (1%nat, Dap.Rejected "Connection closed")]
  /\ [0%nat; 1%nat] ≡ₚ List.seq 0 2.
Proof.
  split; [vm_compute; reflexivity|].
  destruct (pending_settled_exactly_once (fun _ _ _ => [])
              [OpSend "continue" None; OpSend "next" None;
               OpResponse (answer 1); OpResponse (answer 1)])
    as (_ & _ & _ & _ & _ & Hall).
  - vm_compute. discriminate.
  - exact Hall.
Defined.

End CorrelatorFacts.

(** ** The DAP decoder *)
Module DecoderFacts.
Import Dap.

Definition CR : Byte.byte := Byte.x0d.

(** The header of a well-formed frame, and the frame. *)
Definition header_of (ds : list Byte.byte) : list Byte.byte :=
  list_byte_of_string "Content-Length: " ++ ds.

Definition frame (ds body : list Byte.byte) : list Byte.byte :=
  header_of ds ++ CRLFCRLF ++ body.

(** *** Scanning for the pattern *)

Lemma digit_not_space b x y :
  is_digit b = true ->
  is_space1 b = false /\ is_space2 b x = false /\ is_space3 b x y = false.
Proof.
  unfold is_digit, is_space1, is_space2, is_space3.
  intros [H1 H2]%andb_true_iff.
  apply N.leb_le in H1. apply N.leb_le in H2.
  repeat split.
  - destruct (N.leb_spec (code b) 13); [lia|].
    rewrite andb_false_r. cbn. apply N.eqb_neq. lia.
  - apply andb_false_iff. left. apply N.eqb_neq. lia.
  - assert (forall n, (n <> code b)%N -> (code b =? n)%N = false) as Hne
      by (intros n Hn; apply N.eqb_neq; congruence).
    rewrite !(Hne 225%N), !(Hne 226%N), !(Hne 227%N), !(Hne 239%N) by lia.
    reflexivity.
Qed.

Lemma skip_space_digit b l :
  is_digit b = true -> skip_space (b :: l) = b :: l.
Proof.
  intros Hb. cbn [skip_space].
  destruct (digit_not_space b Byte.x00 Byte.x00 Hb) as (-> & _ & _).
  destruct l as [|x l]; [done|].
  destruct (digit_not_space b x Byte.x00 Hb) as (_ & -> & _).
  destruct l as [|y l]; [done|].
  by destruct (digit_not_space b x y Hb) as (_ & _ & ->).
Qed.

(** Where [skip_space] stops, it returns its argument. *)
Lemma skip_space_cases l :
  skip_space l = l
  \/ exists pre l',
       l = pre ++ l' /\ (0 < length pre)%nat
       /\ skip_space l = skip_space l'
       /\ forall q, skip_space (l ++ q) = skip_space (l' ++ q).
Proof.
  destruct l as [|b1 r1]; [by left|]. cbn [skip_space].
  destruct (is_space1 b1) eqn:H1.
  { right. exists [b1], r1. cbn [app length skip_space]. rewrite H1.
    auto with lia. }
  destruct r1 as [|b2 r2]; [by left|].
  destruct (is_space2 b1 b2) eqn:H2.
  { right. exists [b1; b2], r2. cbn [app length skip_space].
    rewrite H1, H2. auto with lia. }
  destruct r2 as [|b3 r3]; [by left|].
  destruct (is_space3 b1 b2 b3) eqn:H3; [|by left].
  right. exists [b1; b2; b3], r3. cbn [app length skip_space].
  rewrite H1, H2, H3. auto with lia.
Qed.

Lemma skip_space_app_digit q : forall n l d t,
  (length l <= n)%nat ->
  skip_space l = d :: t -> is_digit d = true ->
  skip_space (l ++ q) = d :: t ++ q.
Proof.
  induction n as [|n IH]; intros l d t Hlen Hskip Hd.
  - destruct l; [discriminate|cbn in Hlen; lia].
  - destruct (skip_space_cases l) as [Hstop|(pre & l' & -> & Hpre & Heq & Happ)].
    + rewrite Hstop in Hskip. subst l. cbn. by apply skip_space_digit.
    + rewrite Happ. apply IH; [|by rewrite <- Heq|done].
      rewrite length_app in Hlen. lia.
Qed.

Lemma take_digits_app_nonempty l q :
  take_digits l <> [] -> take_digits (l ++ q) <> [].
Proof. destruct l as [|b l]; cbn; [done|]. by destruct (is_digit b). Qed.

Lemma match_literal_app lit : forall l rest q,
  match_literal lit l = Some rest ->
  match_literal lit (l ++ q) = Some (rest ++ q).
Proof.
  induction lit as [|x lit IH]; intros l rest q; cbn.
  - by intros [= ->].
  - destruct l as [|b l]; [done|]. cbn.
    destruct (fold_case b =? code x)%N; [apply IH|done].
Qed.

(** A match stays a match when bytes are added behind it. *)
Lemma match_here_app l q :
  is_Some (match_here l) -> is_Some (match_here (l ++ q)).
Proof.
  unfold match_here.
  destruct (match_literal literal l) as [rest|] eqn:Hlit;
    [|by intros [? [=]]].
  rewrite (match_literal_app _ _ _ q Hlit).
  destruct (take_digits (skip_space rest)) as [|d ds] eqn:Hds;
    [by intros [? [=]]|].
  intros _.
  destruct (skip_space rest) as [|d' t] eqn:Hskip; [discriminate|].
  cbn in Hds. destruct (is_digit d') eqn:Hd'; [|discriminate].
  rewrite (skip_space_app_digit q (length rest) rest d' t); [|done..].
  cbn. by rewrite Hd'.
Qed.

Lemma header_match_app l q :
  is_Some (header_match l) -> is_Some (header_match (l ++ q)).
Proof.
  induction l as [|b l IH]; cbn [header_match].
  - intros [ds Hds]. vm_compute in Hds. discriminate Hds.
  - destruct (match_here (b :: l)) eqn:Hb.
    + intros _. destruct (match_here_app (b :: l) q) as [ds Hds];
        [by rewrite Hb|].
      cbn [app] in *. cbn [header_match]. by rewrite Hds.
    + intros Hl. apply IH in Hl. cbn [app header_match].
      by destruct (match_here (b :: l ++ q)).
Qed.

Lemma header_match_drop j : forall l,
  header_match l = None -> header_match (drop j l) = None.
Proof.
  induction j as [|j IH]; intros l Hl; [done|].
  destruct l as [|b l]; [done|]. cbn [drop]. apply IH.
  cbn [header_match] in Hl. by destruct (match_here (b :: l)).
Qed.

(** No part of bytes without a match has a match. *)
Lemma header_match_part i j l :
  header_match l = None -> header_match (take i (drop j l)) = None.
Proof.
  intros Hl. apply (header_match_drop j) in Hl.
  destruct (header_match (take i (drop j l))) as [ds|] eqn:Hp; [|done].
  destruct (header_match_app (take i (drop j l)) (drop i (drop j l)))
    as [ds' Hds']; [by rewrite Hp|].
  rewrite take_drop in Hds'. congruence.
Qed.

(** *** Bytes that cannot continue a white space: the start of a
    well-formed header *)

Lemma space2_ascii b1 b2 : (code b2 < 128)%N -> is_space2 b1 b2 = false.
Proof.
  intros H2. unfold is_space2. apply andb_false_iff. right.
  apply N.eqb_neq. lia.
Qed.

Lemma space3_ascii_second b1 b2 b3 :
  (code b2 < 128)%N -> is_space3 b1 b2 b3 = false.
Proof.
  intros H2. unfold is_space3.
  assert (forall n, (128 <= n)%N -> (code b2 =? n)%N = false) as Hne
    by (intros n Hn; apply N.eqb_neq; lia).
  rewrite !(Hne 154%N), !(Hne 128%N), !(Hne 129%N), !(Hne 187%N) by lia.
  by rewrite !andb_false_r.
Qed.

Lemma space3_ascii_third b1 b2 b3 :
  (code b3 < 128)%N -> is_space3 b1 b2 b3 = false.
Proof.
  intros H3. unfold is_space3.
  assert (forall n, (128 <= n)%N -> (code b3 =? n)%N = false) as Hne
    by (intros n Hn; apply N.eqb_neq; lia).
  rewrite !(Hne 128%N), !(Hne 168%N), !(Hne 169%N), !(Hne 175%N),
    !(Hne 159%N), !(Hne 191%N) by lia.
  assert ((128 <=? code b3)%N = false) as -> by (apply N.leb_gt; lia).
  by rewrite ?andb_false_l, ?andb_false_r.
Qed.

(** Two ASCII bytes, the first of them no white space. *)
Definition inert (s : list Byte.byte) : Prop :=
  exists c1 c2 t,
    s = c1 :: c2 :: t /\ (code c1 < 128)%N /\ (code c2 < 128)%N
    /\ is_space1 c1 = false.

Lemma skip_space_app_inert s : inert s -> forall n l,
  (length l <= n)%nat -> skip_space (l ++ s) = skip_space l ++ s.
Proof.
  intros (c1 & c2 & t & -> & H1 & H2 & Hsp).
  induction n as [|n IH]; intros l Hlen.
  - destruct l; [|cbn in Hlen; lia]. cbn [app skip_space].
    rewrite Hsp, (space2_ascii c1 c2 H2).
    destruct t; [done|]. by rewrite (space3_ascii_second c1 c2 _ H2).
  - destruct l as [|b1 r1].
    { apply (IH []). cbn. lia. }
    cbn [app skip_space]. cbn [length] in Hlen.
    destruct (is_space1 b1); [apply IH; lia|].
    destruct r1 as [|b2 r2]; cbn [app].
    { rewrite (space2_ascii b1 c1 H1), (space3_ascii_second b1 c1 c2 H1).
      done. }
    cbn [length] in Hlen.
    destruct (is_space2 b1 b2); [apply IH; lia|].
    destruct r2 as [|b3 r3]; cbn [app].
    { by rewrite (space3_ascii_third b1 b2 c1 H1). }
    cbn [length] in Hlen.
    destruct (is_space3 b1 b2 b3); [apply IH; lia|done].
Qed.

Lemma header_of_inert ds : inert (header_of ds).
Proof.
  exists Byte.x43, Byte.x6f. eexists. split; [reflexivity|].
  repeat split; reflexivity.
Qed.

Lemma no_digits_before_header rest ds :
  take_digits (skip_space rest) = [] ->
  take_digits (skip_space (rest ++ header_of ds)) = [].
Proof.
  intros Hnone.
  rewrite (skip_space_app_inert _ (header_of_inert ds) (length rest)) by done.
  destruct (skip_space rest) as [|b t]; [reflexivity|].
  cbn in *. by destruct (is_digit b).
Qed.

Lemma match_literal_app_inv lit : forall l s r,
  match_literal lit (l ++ s) = Some r ->
  (exists rest, match_literal lit l = Some rest /\ r = rest ++ s)
  \/ ((length l < length lit)%nat
      /\ match_literal (drop (length l) lit) s = Some r).
Proof.
  induction lit as [|x lit IH]; intros l s r Hm.
  - left. exists l. cbn in *. split; [done|congruence].
  - destruct l as [|b l].
    + right. cbn [length drop app] in *. split; [lia|done].
    + cbn [app match_literal] in *.
      destruct (fold_case b =? code x)%N; [|discriminate].
      destruct (IH l s r Hm) as [Hl|[Hlen Hr]]; [by left|].
      right. cbn [length drop]. split; [lia|done].
Qed.

(** The pattern cannot start in the bytes before a header and end in
    it: the colon is the last character of the literal only. *)
Lemma literal_not_astride k ds :
  (0 < k < 15)%nat -> match_literal (drop k literal) (header_of ds) = None.
Proof.
  intros Hk.
  do 15 (destruct k as [|k]; [first [lia | reflexivity]|]). lia.
Qed.

Lemma match_here_before_header l ds :
  l <> [] -> match_here l = None -> match_here (l ++ header_of ds) = None.
Proof.
  intros Hl Hnone. unfold match_here in *.
  destruct (match_literal literal (l ++ header_of ds)) as [r|] eqn:Hm; [|done].
  destruct (match_literal_app_inv _ _ _ _ Hm) as [(rest & Hrest & ->)|[Hlen Hr]].
  - rewrite Hrest in Hnone.
    rewrite no_digits_before_header; [done|].
    by destruct (take_digits (skip_space rest)).
  - rewrite literal_not_astride in Hr; [discriminate|].
    change (length literal) with 15%nat in Hlen.
    destruct l; [done|]. cbn [length] in *. lia.
Qed.

Lemma take_digits_all ds : forallb is_digit ds = true -> take_digits ds = ds.
Proof.
  induction ds as [|d ds IH]; cbn; [done|].
  intros [-> Hds]%andb_true_iff. by rewrite IH.
Qed.

Lemma match_here_header ds :
  ds <> [] -> forallb is_digit ds = true -> match_here (header_of ds) = Some ds.
Proof.
  intros Hne Hds. unfold match_here.
  change (match_literal literal (header_of ds)) with (Some (Byte.x20 :: ds)).
  destruct ds as [|d ds]; [done|].
  change (skip_space (Byte.x20 :: d :: ds)) with (skip_space (d :: ds)).
  pose proof Hds as Hds'. cbn [forallb] in Hds'.
  apply andb_true_iff in Hds' as [Hd _].
  rewrite skip_space_digit by done. by rewrite take_digits_all.
Qed.

(** Bytes without a match in front of a header do not hide its field. *)
Lemma header_match_before_header ds : forall J,
  ds <> [] -> forallb is_digit ds = true ->
  header_match J = None -> header_match (J ++ header_of ds) = Some ds.
Proof.
  intros J Hne Hds. induction J as [|b J IH]; intros HJ.
  - cbn [app]. change (header_of ds) with (Byte.x43 :: tail (header_of ds)).
    cbn [header_match].
    change (Byte.x43 :: tail (header_of ds)) with (header_of ds).
    by rewrite match_here_header.
  - cbn [header_match] in HJ.
    destruct (match_here (b :: J)) eqn:Hb; [discriminate|].
    cbn [app header_match].
    change (b :: J ++ header_of ds) with ((b :: J) ++ header_of ds).
    rewrite match_here_before_header by done.
    by apply IH.
Qed.

(** *** Finding the end of the header *)

Lemma starts_with_app n x : starts_with n (n ++ x) = true.
Proof.
  induction n as [|b n IH]; cbn; [done|].
  by rewrite (Byte.byte_dec_lb eq_refl), IH.
Qed.

Lemma indexOf_no_cr p x :
  Forall (fun b => b <> CR) p ->
  indexOf CRLFCRLF (p ++ CRLFCRLF ++ x) = Some (length p).
Proof.
  induction p as [|b p IH]; intros Hp.
  - cbn [app length]. change (CRLFCRLF ++ x) with (CR :: tail CRLFCRLF ++ x).
    cbn [indexOf]. change (CR :: tail CRLFCRLF ++ x) with (CRLFCRLF ++ x).
    by rewrite starts_with_app.
  - apply Forall_cons in Hp as [Hb Hp]. cbn [app indexOf length].
    assert (starts_with CRLFCRLF (b :: p ++ CRLFCRLF ++ x) = false) as ->.
    { change CRLFCRLF with (CR :: tail CRLFCRLF). cbn [starts_with].
      destruct (Byte.eqb CR b) eqn:Heq; [|done].
      apply Byte.byte_dec_bl in Heq. congruence. }
    by rewrite IH.
Qed.

Lemma digit_not_cr d : is_digit d = true -> d <> CR.
Proof. intros Hd ->. discriminate Hd. Qed.

Lemma header_of_no_cr ds :
  forallb is_digit ds = true -> Forall (fun b => b <> CR) (header_of ds).
Proof.
  intros Hds. unfold header_of. apply Forall_app. split.
  - repeat (constructor; [discriminate|]). constructor.
  - induction ds as [|d ds IH]; [constructor|].
    cbn [forallb] in Hds. apply andb_true_iff in Hds as [Hd Hds].
    constructor; [by apply digit_not_cr|by apply IH].
Qed.

(** A separator that starts in bytes put before a header lies within
    them. *)
Lemma separator_within l ds x :
  starts_with CRLFCRLF (l ++ header_of ds ++ x) = true -> (4 <= length l)%nat.
Proof.
  destruct l as [|b1 [|b2 [|b3 [|b4 l]]]]; cbn [length]; try lia;
    change CRLFCRLF with [Byte.x0d; Byte.x0a; Byte.x0d; Byte.x0a];
    change (header_of ds ++ x)
      with (Byte.x43 :: tail (header_of ds) ++ x);
    cbn [app starts_with]; intros Hs.
  - discriminate.
  - destruct (Byte.eqb Byte.x0d b1); discriminate.
  - destruct (Byte.eqb Byte.x0d b1), (Byte.eqb Byte.x0a b2); discriminate.
  - destruct (Byte.eqb Byte.x0d b1), (Byte.eqb Byte.x0a b2),
      (Byte.eqb Byte.x0d b3); discriminate.
Qed.

Lemma indexOf_before_frame ds body :
  forallb is_digit ds = true -> forall J,
  exists i,
    indexOf CRLFCRLF (J ++ frame ds body) = Some i
    /\ ((i + 4 <= length J)%nat
        \/ i = (length J + length (header_of ds))%nat).
Proof.
  intros Hds. induction J as [|b J IH].
  - exists (length (header_of ds)). split; [|by right].
    apply indexOf_no_cr. by apply header_of_no_cr.
  - cbn [app indexOf].
    destruct (starts_with CRLFCRLF (b :: J ++ frame ds body)) eqn:Hs.
    + exists 0%nat. split; [done|]. left.
      apply (separator_within (b :: J) ds (CRLFCRLF ++ body)). exact Hs.
    + destruct IH as (i & -> & Hi). exists (S i). split; [done|].
      cbn [length]. lia.
Qed.

(** *** The loop of [onData] *)

Lemma length_frame ds body :
  length (frame ds body)
  = (length (header_of ds) + 4 + length body)%nat.
Proof.
  unfold frame. rewrite !length_app.
  change (length CRLFCRLF) with 4%nat. lia.
Qed.

Section Recovery.
Variable JSON_parse : list Byte.byte -> option DapMessage.
Variable handler_calls : DapClient -> string -> Body -> list ApiCall.

(** The claim of the specification on bytes [malformed] followed by the
    frame of a response [r] to the pending request of promise [p]: the
    decoder consumes all of it, the entry leaves the pending table and the
    promise is fulfilled with the response. *)
Definition malformed_then_valid_resolves (c : DapClient)
    (malformed ds body : list Byte.byte) (r : Response) (p : Promise)
  : Prop :=
  exists c',
    onData JSON_parse handler_calls (malformed ++ frame ds body) c = Some c'
    /\ buffer c' = []
    /\ pending c' = JSMap.delete (request_seq r) (pending c)
    /\ settled c' = settled c ++ [(p, Fulfilled r)].

Variables (ds body : list Byte.byte) (r : Response) (p : Promise).
Hypothesis ds_some : ds <> [].
Hypothesis ds_digits : forallb is_digit ds = true.
Hypothesis ds_length : decimal ds = Z.of_nat (length body).
Hypothesis body_parses : JSON_parse body = Some (MResponse r).

Lemma drain_step fuel c :
  drain JSON_parse handler_calls (S fuel) c
  = match indexOf CRLFCRLF (buffer c) with
    | None => Some c
    | Some headerEnd =>
        match header_match (take headerEnd (buffer c)) with
        | None =>
            drain JSON_parse handler_calls fuel
              (set_buffer c (drop (headerEnd + 4) (buffer c)))
        | Some digits =>
            let contentStart := Z.of_nat headerEnd + 4 in
            let contentEnd := JS.add contentStart (parseInt digits) in
            if Z.of_nat (length (buffer c)) <? contentEnd then Some c
            else
              drain JSON_parse handler_calls fuel
                (match JSON_parse
                         (take (Z.to_nat contentEnd - Z.to_nat contentStart)
                            (drop (Z.to_nat contentStart) (buffer c))) with
                 | Some m =>
                     handleMessage handler_calls m
                       (set_buffer c (drop (Z.to_nat contentEnd) (buffer c)))
                 | None =>
                     set_buffer c (drop (Z.to_nat contentEnd) (buffer c))
                 end)
        end
    end.
Proof. reflexivity. Qed.

Lemma drain_recovers : forall n J c,
  (length J <= n)%nat ->
  Z.of_nat (length J + length (frame ds body)) <= JS.MAX_EXACT ->
  header_match J = None ->
  buffer c = J ++ frame ds body ->
  drain JSON_parse handler_calls (S (S n)) c
  = Some (handleResponse r (set_buffer c [])).
Proof.
  intros n. induction n as [n IH] using lt_wf_ind.
  intros J c Hlen Hbound HJ Hbuf.
  rewrite drain_step. cbv zeta. rewrite Hbuf.
  destruct (indexOf_before_frame ds body ds_digits J) as (i & -> & [Hi|Hi]).
  - (* a separator within the malformed bytes: they are dropped *)
    rewrite take_app_le by lia.
    rewrite <- (drop_0 J) at 1. rewrite (header_match_part i 0 J HJ).
    rewrite drop_app_le by lia.
    destruct n as [|n]; [lia|].
    rewrite (IH n ltac:(lia) (drop (i + 4) J)
               (set_buffer c (drop (i + 4) J ++ frame ds body))); [done|..].
    + rewrite length_drop. lia.
    + rewrite length_drop. lia.
    + by apply header_match_drop.
    + done.
  - (* the separator of the well-formed frame *)
    subst i. unfold frame at 1 2. rewrite app_assoc.
    rewrite take_app_length' by (rewrite length_app; lia).
    rewrite (header_match_before_header ds J ds_some ds_digits HJ).
    rewrite <- app_assoc. fold (frame ds body).
    assert (parseInt ds = Z.of_nat (length body)) as ->.
    { unfold parseInt. rewrite ds_length. apply JSFacts.round_exact.
      rewrite length_frame in Hbound. lia. }
    rewrite JSFacts.add_exact by (rewrite length_frame in Hbound; lia).
    rewrite length_app, length_frame.
    destruct (Z.ltb_spec
                (Z.of_nat (length J + (length (header_of ds) + 4 + length body)))
                (Z.of_nat (length J + length (header_of ds)) + 4
                 + Z.of_nat (length body))) as [Hlt|_]; [lia|].
    replace (Z.to_nat (Z.of_nat (length J + length (header_of ds)) + 4
                       + Z.of_nat (length body))
             - Z.to_nat (Z.of_nat (length J + length (header_of ds)) + 4))%nat
      with (length body) by lia.
    assert (J ++ frame ds body
            = (J ++ header_of ds ++ CRLFCRLF) ++ body) as Hsplit.
    { unfold frame. by rewrite <- !app_assoc. }
    rewrite Hsplit.
    rewrite (drop_app_length' (J ++ header_of ds ++ CRLFCRLF) body)
      by (rewrite !length_app; change (length CRLFCRLF) with 4%nat; lia).
    rewrite take_ge by lia. rewrite body_parses.
    rewrite drop_ge
      by (rewrite !length_app; change (length CRLFCRLF) with 4%nat; lia).
    cbn [handleMessage]. rewrite drain_step.
    assert (buffer (handleResponse r (set_buffer c [])) = []) as ->
      by (unfold handleResponse;
          by destruct (JSMap.get (request_seq r) (pending (set_buffer c [])))).
    done.
Qed.

(** C6 (amended). Malformed bytes in which the pattern finds no
    [Content-Length] field (such as a frame whose header lacks the field
    and whose content does not spell one), immediately followed by a
    well-formed frame that carries a successful response to a pending
    request, fed to a decoder whose buffer is empty: the malformed bytes are
    discarded, the buffer is consumed to its end, the entry leaves the
    pending table and its promise is fulfilled with the response. *)
Theorem malformed_without_field_then_valid_resolves :
  forall (c : DapClient) (malformed : list Byte.byte),
    buffer c = [] ->
    header_match malformed = None ->
    Z.of_nat (length (malformed ++ frame ds body)) <= JS.MAX_EXACT ->
    success r = true ->
    JSMap.get (request_seq r) (pending c) = Some p ->
    malformed_then_valid_resolves c malformed ds body r p.
Proof.
  intros c malformed Hempty Hnone Hbound Hok Hget.
  exists (handleResponse r (set_buffer c [])).
  unfold onData. rewrite Hempty. cbn [app].
  change (buffer (set_buffer c (malformed ++ frame ds body)))
    with (malformed ++ frame ds body).
  assert (exists n, length (malformed ++ frame ds body) = S n
                    /\ (length malformed <= n)%nat) as (n & -> & Hn).
  { exists (length malformed + length (frame ds body) - 1)%nat.
    rewrite length_app, length_frame. lia. }
  rewrite (drain_recovers n malformed); [|done| |done|done].
  2:{ rewrite length_app in Hbound. exact Hbound. }
  unfold handleResponse. cbn [pending set_buffer]. rewrite Hget, Hok.
  done.
Qed.

End Recovery.

(** *** Scenario S6: a response to request 7 behind a malformed frame *)

Definition quoted (s : string) : string := dquote +:+ s +:+ dquote.

Definition CRLF2 : string :=
  String "013" (String "010" (String "013" (String "010" EmptyString))).

(** The content of the well-formed frame, 80 bytes of JSON. *)
Definition response7_text : string :=
  "{" +:+ quoted "seq" +:+ ":12," +:+ quoted "type" +:+ ":"
  +:+ quoted "response" +:+ "," +:+ quoted "request_seq" +:+ ":7,"
  +:+ quoted "success" +:+ ":true," +:+ quoted "command" +:+ ":"
  +:+ quoted "continue" +:+ "}".

Definition response7 : Response :=
  {| request_seq := 7; success := true; command := "continue";
     message := None; body := None |}.

Fixpoint bytes_eqb (a b : list Byte.byte) : bool :=
  match a, b with
  | [], [] => true
  | x :: a', y :: b' => Byte.eqb x y && bytes_eqb a' b'
  | _, _ => false
  end.

(** The parser, at the one content of the scenario. *)
Definition parse7 (content : list Byte.byte) : option DapMessage :=
  if bytes_eqb content (list_byte_of_string response7_text)
  then Some (MResponse response7) else None.

Definition no_calls (c : DapClient) (event : string) (b : Body)
  : list ApiCall := [].

(** A client that has sent seven requests, the first six answered. *)
Definition waiting_for_7 : DapClient :=
  CorrelatorFacts.run
    (repeat (CorrelatorFacts.OpSend "next" None) 7
     ++ map (fun k => CorrelatorFacts.OpResponse
                        {| request_seq := k; success := true;
                           command := "next"; message := None;
                           body := None |}) [1; 2; 3; 4; 5; 6])
    Dap.new.

(** A frame with a misspelt header and some content. *)
Definition misspelt_frame : list Byte.byte :=
  list_byte_of_string ("Content-Lenght: 2" +:+ CRLF2 +:+ "{}").

(** A frame whose header lacks the field and whose content spells it. *)
Definition spelling_frame : list Byte.byte :=
  list_byte_of_string
    ("X-Seq: 1" +:+ CRLF2 +:+ "{" +:+ quoted "note" +:+ ":"
     +:+ quoted "Content-Length: 999" +:+ "}").

Lemma malformed_without_field_then_valid_resolves_witness :
  malformed_then_valid_resolves parse7 no_calls waiting_for_7
    misspelt_frame (list_byte_of_string "80")
    (list_byte_of_string response7_text) response7 6%nat.
Proof.
  apply malformed_without_field_then_valid_resolves.
  - discriminate.
  - vm_compute. reflexivity.
  - vm_compute. reflexivity.
  - vm_compute. reflexivity.
  - vm_compute. reflexivity.
  - vm_compute. reflexivity.
  - vm_compute. discriminate.
  - reflexivity.
  - vm_compute. reflexivity.
Defined.

Lemma stalled_not_resolved parse calls c malformed ds body r p c' :
  onData parse calls (malformed ++ frame ds body) c = Some c' ->
  settled c' = settled c ->
  ~ malformed_then_valid_resolves parse calls c malformed ds body r p.
Proof.
  intros Hrun Hsame (c'' & Hrun' & _ & _ & Hsettled).
  rewrite Hrun in Hrun'. injection Hrun' as <-.
  rewrite Hsame in Hsettled.
  apply (f_equal length) in Hsettled. rewrite length_app in Hsettled.
  cbn in Hsettled. lia.
Qed.

(** C6 as stated fails for a frame whose header lacks the field while its
    content spells one: the header "X-Seq: 1" is dropped, the content is
    read as the start of the next header, its "Content-Length: 999" is the
    leftmost match, and the decoder waits for 999 bytes: the response to
    request 7 stays in the buffer and the request stays pending. *)
Lemma content_spelling_field_stalls :
  indexOf CRLFCRLF spelling_frame = Some 8%nat
  /\ header_match (take 8 spelling_frame) = None
  /\ JSMap.get 7 (pending waiting_for_7) = Some 6%nat
  /\ (pending <$> onData parse7 no_calls
                    (spelling_frame
                     ++ frame (list_byte_of_string "80")
                          (list_byte_of_string response7_text))
                    waiting_for_7)
     = Some (pending waiting_for_7)
  /\ ~ malformed_then_valid_resolves parse7 no_calls waiting_for_7
        spelling_frame (list_byte_of_string "80")
        (list_byte_of_string response7_text) response7 6%nat.
Proof.
  split; [vm_compute; reflexivity|]. split; [vm_compute; reflexivity|].
  split; [vm_compute; reflexivity|]. split; [vm_compute; reflexivity|].
  apply (stalled_not_resolved _ _ _ _ _ _ _ _
           (set_buffer waiting_for_7
              (drop 12 spelling_frame
               ++ frame (list_byte_of_string "80")
                    (list_byte_of_string response7_text)))).
  - vm_compute. reflexivity.
  - vm_compute. reflexivity.
Qed.

End DecoderFacts.

From Stdlib Require Import DecimalZ DecimalPos.

(** * Further properties of the code *)

(** ** The phase machine through its store *)
Module DebugPhaseStoreFacts.
Import DebugPhase DebugPhaseStore DebugPhaseFacts.

Lemma index_successor p :
  index (successor p) = ((index p + 1) mod 6)%nat.
Proof. by destruct p. Qed.

Lemma completed_cycles_ring n : forall p,
  completed_cycles p (ring n p) = ((index p + n) / 6)%nat.
Proof.
  induction n as [|n IH]; intros p; cbn [ring completed_cycles].
  - rewrite Nat.add_0_r. by destruct p.
  - rewrite bool_decide_true by done. rewrite IH.
    assert (forall a b : nat, a = b -> (a / 6 = b / 6)%nat) as Hdiv
      by (by intros a b ->).
    destruct p; cbn [index successor];
      rewrite ?bool_decide_true, ?bool_decide_false by done;
      rewrite ?Nat.add_0_l.
    1-5: apply Hdiv; lia.
    replace (5 + S n)%nat with (1 * 6 + n)%nat by lia.
    rewrite Nat.div_add_l by lia. lia.
Qed.

Lemma length_ring n : forall p, length (ring n p) = n.
Proof. induction n as [|n IH]; intros p; cbn; [done|]. by rewrite IH. Qed.

Lemma iter_successor n p :
  Nat.iter n successor (successor p) = Nat.iter (S n) successor p.
Proof.
  induction n as [|n IH]; [done|].
  change (successor (Nat.iter n successor (successor p))
          = successor (Nat.iter (S n) successor p)).
  by rewrite IH.
Qed.

Lemma transition_keeps state to store next :
  fst (transition state to store) = Ok next ->
  sessionID next = sessionID state
  /\ totalSteps next = totalSteps state
  /\ stepDescriptions next = stepDescriptions state
  /\ autoConfirm next = autoConfirm state.
Proof.
  unfold transition. destruct (negb _); cbn [fst]; [done|].
  by intros [= <-].
Qed.

Lemma run_ring n : forall state store,
  currentPhase (fst (run state (ring n (currentPhase state)) store))
  = Nat.iter n successor (currentPhase state)
  /\ outcomes state (ring n (currentPhase state)) store = repeat true n.
Proof.
  induction n as [|n IH]; intros state store; cbn [ring run outcomes].
  - done.
  - destruct (transition_ok state (successor (currentPhase state)) store
                eq_refl) as (next & Heq & Hph & _).
    rewrite Heq. rewrite <- iter_successor. rewrite <- Hph.
    destruct (IH next (<[sessionID state := next]> store)) as (H1 & H2).
    rewrite H1, H2. done.
Qed.

(** X1. [n] transitions in a row, each to the successor of the phase
    reached, all succeed; from phase [p] at step [s] they end in the
    [n]-th successor of [p], at step [s] plus the number of times the ring
    was closed, which is [(index p + n) / 6]: six transitions lead back to
    the phase they started from and add exactly one step. *)
Theorem valid_walk_counts_laps :
  forall (state : State) (store : Store) (n : nat),
    0 <= currentStep state ->
    currentStep state + Z.of_nat n <= JS.MAX_EXACT ->
    let final := fst (run state (ring n (currentPhase state)) store) in
    outcomes state (ring n (currentPhase state)) store = repeat true n
    /\ currentPhase final = Nat.iter n successor (currentPhase state)
    /\ currentStep final
       = currentStep state
         + Z.of_nat ((index (currentPhase state) + n) / 6)
    /\ (n = 6%nat ->
        currentPhase final = currentPhase state
        /\ currentStep final = currentStep state + 1).
Proof.
  intros state store n Hpos Hbound final.
  destruct (run_ring n state store) as (Hphase & Hall).
  pose proof (length_ring n (currentPhase state)) as Hlen.
  assert (currentStep final
          = currentStep state
            + Z.of_nat ((index (currentPhase state) + n) / 6)) as Hstep.
  { subst final. rewrite run_step_count by (rewrite ?Hlen; lia).
    by rewrite completed_cycles_ring. }
  split; [done|]. split; [done|]. split; [done|].
  intros ->. split.
  - subst final. rewrite Hphase. by destruct (currentPhase state).
  - rewrite Hstep. by destruct (currentPhase state).
Qed.

Lemma valid_walk_counts_laps_witness :
  let fresh := fst (create "s" ∅) in
  currentStep (fst (run fresh (ring 13 PLANNING) (snd (create "s" ∅)))) = 2
  /\ currentPhase (fst (run fresh (ring 13 PLANNING) (snd (create "s" ∅))))
     = CODING.
Proof.
  intros fresh.
  destruct (valid_walk_counts_laps fresh (snd (create "s" ∅)) 13)
    as (_ & Hphase & Hstep & _).
  - vm_compute. discriminate.
  - vm_compute. discriminate.
  - split; [exact Hstep|exact Hphase].
Defined.

(** The store is keyed by the session ids of the states it holds. *)
Definition well_keyed (store : Store) : Prop :=
  forall k st, store !! k = Some st -> sessionID st = k.

Lemma well_keyed_insert store st :
  well_keyed store -> well_keyed (<[sessionID st := st]> store).
Proof.
  intros Hwk k st'. destruct (decide (sessionID st = k)) as [<-|Hne].
  - rewrite lookup_insert_eq. by intros [= <-].
  - rewrite lookup_insert_ne by done. apply Hwk.
Qed.

Lemma getOrCreate_spec sid store :
  well_keyed store ->
  let state0 := fst (getOrCreate sid store) in
  let store0 := snd (getOrCreate sid store) in
  store0 !! sid = Some state0 /\ sessionID state0 = sid
  /\ well_keyed store0
  /\ (forall k, k <> sid -> store0 !! k = store !! k).
Proof.
  intros Hwk. unfold getOrCreate.
  destruct (store !! sid) as [st|] eqn:Hst; cbn [fst snd create].
  - repeat split; auto.
  - rewrite lookup_insert_eq. repeat split; auto.
    + by apply (well_keyed_insert store (mkState sid PLANNING 0 None [] false)).
    + intros k Hk. by rewrite lookup_insert_ne.
Qed.

Lemma execute_all_run tos : forall sid state store,
  store !! sid = Some state ->
  sessionID state = sid ->
  let final := run state tos store in
  snd (execute_all sid tos store) = snd final
  /\ snd final !! sid = Some (fst final)
  /\ sessionID (fst final) = sid
  /\ map md_error (fst (execute_all sid tos store))
     = map negb (outcomes state tos store)
  /\ (forall md, last (fst (execute_all sid tos store)) = Some md ->
      md_phase md = currentPhase (fst final)
      /\ md_step md = currentStep (fst final))
  /\ (forall k, k <> sid -> snd final !! k = store !! k).
Proof.
  induction tos as [|to tos IH]; intros sid state store Hst Hsid;
    cbn [execute_all run outcomes].
  - cbn [fst snd map last]. split_and!; auto; done.
  - unfold execute, getOrCreate. rewrite Hst.
    destruct (transition state to store) as [[next|e] store1] eqn:Htr.
    + assert (store1 = <[sid := next]> store /\ sessionID next = sid)
        as [-> Hsid1].
      { unfold transition in Htr. destruct (negb _); [done|].
        injection Htr as <- <-. by rewrite Hsid. }
      destruct (IH sid next (<[sid := next]> store)) as
        (H1 & H2 & H3 & H4 & H5 & H6);
        [by rewrite lookup_insert_eq|done|].
      destruct (execute_all sid tos (<[sid := next]> store))
        as [mds store2] eqn:Hex. cbn [fst snd] in *.
      split_and!; auto.
      * cbn [map md_error negb]. by rewrite H4.
      * intros md. rewrite last_cons. destruct (last mds) as [md'|] eqn:Hl.
        -- intros [= <-]. by apply H5.
        -- intros [= <-]. cbn [md_phase md_step].
           apply last_None in Hl. subst mds.
           destruct tos as [|to' tos']; [done|].
           cbn [execute_all] in Hex.
           destruct (execute sid to' _), (execute_all sid tos' _).
           discriminate Hex.
      * intros k Hk. rewrite H6 by done. by rewrite lookup_insert_ne.
    + assert (store1 = store) as ->.
      { unfold transition in Htr. destruct (negb _); [|done].
        by injection Htr as _ <-. }
      destruct (IH sid state store Hst Hsid) as
        (H1 & H2 & H3 & H4 & H5 & H6).
      destruct (execute_all sid tos store) as [mds store2] eqn:Hex.
      cbn [fst snd] in *.
      split_and!; auto.
      * cbn [map md_error negb]. by rewrite H4.
      * intros md. rewrite last_cons. destruct (last mds) as [md'|] eqn:Hl.
        -- intros [= <-]. by apply H5.
        -- intros [= <-]. cbn [md_phase md_step].
           apply last_None in Hl. subst mds.
           destruct tos as [|to' tos']; [done|].
           cbn [execute_all] in Hex.
           destruct (execute sid to' _), (execute_all sid tos' _).
           discriminate Hex.
Qed.

(** X2. The transition tool, called once per requested phase for one
    session on a store keyed by session ids, does what threading the state
    through [transition] does from the state [getOrCreate] returns: it
    leaves the same store, in which the session's entry is the final state;
    it reports an error exactly for the calls that [transition] rejects; its
    last report carries the final phase and step; and it never touches the
    entry of another session. *)
Theorem tool_calls_thread_the_stored_state :
  forall (store : Store) (sid : string) (tos : list Phase),
    well_keyed store ->
    let state0 := fst (getOrCreate sid store) in
    let store0 := snd (getOrCreate sid store) in
    let final := run state0 tos store0 in
    let reports := fst (execute_all sid tos store) in
    let store' := snd (execute_all sid tos store) in
    (tos <> [] -> store' = snd final)
    /\ (tos <> [] -> get sid store' = Some (fst final))
    /\ map md_error reports = map negb (outcomes state0 tos store0)
    /\ (forall md, last reports = Some md ->
        md_phase md = currentPhase (fst final)
        /\ md_step md = currentStep (fst final))
    /\ (forall k, k <> sid -> get k store' = get k store).
Proof.
  intros store sid tos Hwk state0 store0 final reports store'.
  destruct (getOrCreate_spec sid store Hwk) as (Hst & Hsid & _ & Hother).
  fold state0 store0 in Hst, Hsid, Hother.
  destruct tos as [|to tos].
  - subst reports store'. cbn. repeat split; done.
  - assert (execute_all sid (to :: tos) store
            = execute_all sid (to :: tos) store0) as Hsame.
    { cbn [execute_all]. unfold execute.
      assert (getOrCreate sid store0 = (state0, store0)) as ->.
      { unfold getOrCreate. by rewrite Hst. }
      subst state0 store0. by destruct (getOrCreate sid store). }
    subst reports store'. rewrite Hsame.
    destruct (execute_all_run (to :: tos) sid state0 store0 Hst Hsid)
      as (H1 & H2 & _ & H4 & H5 & H6).
    unfold get. split_and!; auto.
    + by rewrite H1.
    + intros k Hk. rewrite H1, H6 by done. by apply Hother.
Qed.

Lemma tool_calls_thread_the_stored_state_witness :
  get "a" (snd (execute_all "a" [CODING; PLANNING; BREAKPOINTING] ∅))
  = Some (fst (run (fst (getOrCreate "a" ∅))
                 [CODING; PLANNING; BREAKPOINTING]
                 (snd (getOrCreate "a" ∅)))).
Proof.
  destruct (tool_calls_thread_the_stored_state
              ∅ "a" [CODING; PLANNING; BREAKPOINTING]) as (_ & H & _).
  - intros k st Hk. by rewrite lookup_empty in Hk.
  - by apply H.
Defined.

(** X3. The phase allowlists: [transitionPhase] is allowed in every phase
    and is the only tool that is; the tools that change files or run
    commands ([edit], [write], [bash], [apply_patch]) are allowed in CODING
    and in no other phase. *)
Theorem allowlist_shape :
  forall tool : string,
    ((forall p, isToolAllowed p tool = true) <-> tool = "transitionPhase")
    /\ (tool ∈ ["edit"; "write"; "bash"; "apply_patch"] ->
        forall p, isToolAllowed p tool = true <-> p = CODING).
Proof.
  intros tool. split.
  - split.
    + intros Hall. specialize (Hall EXPLAINING).
      unfold isToolAllowed in Hall. cbn [PHASE_TOOLS existsb] in Hall.
      rewrite orb_false_r in Hall. by apply String.eqb_eq in Hall.
    + intros -> p. by destruct p.
  - intros Hin p.
    assert (tool = "edit" \/ tool = "write" \/ tool = "bash"
            \/ tool = "apply_patch") as Hcases.
    { rewrite !elem_of_cons in Hin. rewrite elem_of_nil in Hin. tauto. }
    destruct Hcases as [->|[->|[->| ->]]]; destruct p;
      split; intros H; try done; try discriminate H.
Qed.

Lemma allowlist_shape_witness :
  isToolAllowed CODING "bash" = true /\ isToolAllowed DEBUGGING "bash" <> true.
Proof.
  assert ("bash" ∈ ["edit"; "write"; "bash"; "apply_patch"]) as Hin
    by (do 2 apply list_elem_of_further; apply list_elem_of_here).
  split.
  - by apply (proj2 (allowlist_shape "bash") Hin CODING).
  - intros H. by apply (proj2 (allowlist_shape "bash") Hin DEBUGGING) in H.
Defined.

Lemma execute_keeps_flag sid to v store :
  (exists st, store !! sid = Some st /\ autoConfirm st = v) ->
  exists st, snd (execute sid to store) !! sid = Some st
             /\ autoConfirm st = v.
Proof.
  intros (st & Hst & Hv). unfold execute, getOrCreate. rewrite Hst.
  destruct (transition st to store) as [[next|e] store1] eqn:Htr;
    cbn [snd]; unfold transition in Htr;
    destruct (negb _); try discriminate Htr.
  - injection Htr as <- <-.
    destruct (decide (sessionID st = sid)) as [->|Hne].
    + rewrite lookup_insert_eq. eauto.
    + rewrite lookup_insert_ne by done. eauto.
  - injection Htr as _ <-. eauto.
Qed.

Lemma execute_all_keeps_flag tos : forall sid v store,
  (exists st, store !! sid = Some st /\ autoConfirm st = v) ->
  exists st, snd (execute_all sid tos store) !! sid = Some st
             /\ autoConfirm st = v.
Proof.
  induction tos as [|to tos IH]; intros sid v store H; cbn [execute_all].
  - done.
  - pose proof (execute_keeps_flag sid to v store H) as H1.
    destruct (execute sid to store) as [md store1]. cbn [snd] in H1.
    pose proof (IH sid v store1 H1) as H2.
    by destruct (execute_all sid tos store1).
Qed.

(** X4. [setAutoConfirm] changes only the flag of a session that has a
    state, keeping its phase and step, and the flag then survives every
    later call of the transition tool; for a session without a state it
    does nothing (it never creates one). *)
Theorem setAutoConfirm_sets_a_lasting_flag :
  forall (store : Store) (sid : string) (value : bool),
    match get sid store with
    | None => setAutoConfirm sid value store = store
    | Some state =>
        (exists state1,
            get sid (setAutoConfirm sid value store) = Some state1
            /\ autoConfirm state1 = value
            /\ currentPhase state1 = currentPhase state
            /\ currentStep state1 = currentStep state
            /\ sessionID state1 = sessionID state)
        /\ (forall k, k <> sid ->
            get k (setAutoConfirm sid value store) = get k store)
        /\ (forall tos, exists state2,
            get sid (snd (execute_all sid tos
                            (setAutoConfirm sid value store)))
            = Some state2
            /\ autoConfirm state2 = value)
    end.
Proof.
  intros store sid value. unfold get, setAutoConfirm.
  destruct (store !! sid) as [state|] eqn:Hst; [|done].
  split; [|split].
  - eexists. rewrite lookup_insert_eq. split; [reflexivity|]. done.
  - intros k Hk. by rewrite lookup_insert_ne.
  - intros tos. apply execute_all_keeps_flag.
    eexists. rewrite lookup_insert_eq. split; [reflexivity|]. done.
Qed.

(** X5. [clear] followed by [getOrCreate] gives the session a fresh state
    (PLANNING, step 0, no auto-confirm) whatever it held before, and other
    sessions keep theirs. *)
Theorem clear_then_getOrCreate_is_fresh :
  forall (store : Store) (sid : string),
    get sid (clear sid store) = None
    /\ fst (getOrCreate sid (clear sid store))
       = mkState sid PLANNING 0 None [] false
    /\ get sid (snd (getOrCreate sid (clear sid store)))
       = Some (mkState sid PLANNING 0 None [] false)
    /\ (forall k, k <> sid ->
        get k (snd (getOrCreate sid (clear sid store))) = get k store).
Proof.
  intros store sid. unfold get, clear, getOrCreate.
  rewrite lookup_delete_eq. cbn [fst snd create].
  rewrite lookup_insert_eq. repeat split; auto.
  intros k Hk. rewrite lookup_insert_ne by done.
  by rewrite lookup_delete_ne.
Qed.

End DebugPhaseStoreFacts.

(** ** The adapter registry and the session manager *)
Module ManagerFacts.
Import Session SessionManager.

Section WithPeers.
Variable cdp_peer : NodeAdapter.CdpRequest -> NodeAdapter.CdpReply.
Variable dap_peer : Dap.Request -> PythonAdapter.Reply.

#[local] Existing Instance AnyAdapter_DebugAdapter.

(** The breakpoints that [list_breakpoints] shows for a session. *)
Definition list_breakpoints_of (state : SessionState AnyAdapter)
  : gmap string (list BreakpointInfo) :=
  getAllBreakpoints state.

(** The type of [config], given or detected, has no factory. *)
Definition adapter_type_rejected (config : LaunchConfig) : Prop :=
  exists type,
    (if String.eqb (cfg_type config) ""
     then Registry.detectType (cfg_program config)
     else Ok (cfg_type config)) = Ok type
    /\ (type ∉ Registry.factories).

Abbreviation adapter_kind :=
  (@adapter_id AnyAdapter (AnyAdapter_DebugAdapter cdp_peer dap_peer)).

Lemma createAdapter_cases type :
  (type = "node" /\ createAdapter type = Ok (ANode NodeAdapter.new))
  \/ (type = "python" /\ createAdapter type = Ok (APython PythonAdapter.new))
  \/ ((type ∉ Registry.factories)
      /\ createAdapter type = Throw (unknown_type_error type)).
Proof.
  unfold createAdapter.
  destruct (String.eqb type "node") eqn:Hn.
  { apply String.eqb_eq in Hn. by left. }
  destruct (String.eqb type "python") eqn:Hp.
  { apply String.eqb_eq in Hp. right. by left. }
  right. right. split; [|done].
  apply String.eqb_neq in Hn, Hp.
  unfold Registry.factories. rewrite !elem_of_cons, elem_of_nil. tauto.
Qed.

Lemma detectType_in_factories program type :
  Registry.detectType program = Ok type -> type ∈ Registry.factories.
Proof.
  unfold Registry.detectType, Registry.factories.
  destruct (JS.endsWith program ".py").
  { intros [= <-]. apply list_elem_of_further, list_elem_of_here. }
  destruct (_ || _); [|done].
  intros [= <-]. apply list_elem_of_here.
Qed.

(** X6. The registry and the detection agree: [createAdapter] returns an
    adapter exactly for the types that have a factory, the adapter's [id]
    is the type asked for and it starts without callbacks; every other
    type is rejected with the "Unknown adapter type" error; and every type
    that [detectType] returns has a factory. *)
Theorem registry_serves_detected_types :
  (forall type : string,
      (type ∈ Registry.factories ->
       exists a, createAdapter type = Ok a
                 /\ adapter_kind a = type
                 /\ SessionManager.stoppedCallbacks a = [])
      /\ (type ∉ Registry.factories ->
          createAdapter type = Throw (unknown_type_error type)))
  /\ (forall program type : string,
         Registry.detectType program = Ok type ->
         exists a, createAdapter type = Ok a /\ adapter_kind a = type).
Proof.
  assert (forall type : string,
             type ∈ Registry.factories ->
             exists a, createAdapter type = Ok a
                       /\ adapter_kind a = type
                       /\ SessionManager.stoppedCallbacks a = []) as Hin.
  { intros type Hin.
    destruct (createAdapter_cases type) as [[-> ->]|[[-> ->]|[Hout _]]];
      [by eexists|by eexists|done]. }
  split.
  - intros type. split; [by apply Hin|].
    intros Hout.
    destruct (createAdapter_cases type) as [[-> _]|[[-> _]|[_ ->]]];
      [| |done]; exfalso; apply Hout; unfold Registry.factories.
    + apply list_elem_of_here.
    + apply list_elem_of_further, list_elem_of_here.
  - intros program type Hdet.
    destruct (Hin type (detectType_in_factories _ _ Hdet)) as (a & ? & ? & _).
    eauto.
Qed.

Lemma onStopped_kind cb a : adapter_kind (onStopped cb a) = adapter_kind a.
Proof. by destruct a. Qed.

Lemma start_kind a : adapter_kind (snd (start cdp_peer dap_peer a)) = adapter_kind a.
Proof.
  destruct a as [n|p]; cbn [start].
  - by destruct (NodeAdapter.start cdp_peer n).
  - by destruct (PythonAdapter.start dap_peer p).
Qed.

Lemma create_cases :
  forall (config : LaunchConfig) (m : Manager),
    0 <= sessionCounter m < JS.MAX_EXACT ->
    let m' := snd (create cdp_peer dap_peer config m) in
    match fst (create cdp_peer dap_peer config m) with
    | Ok state =>
        activeSession m' = Some state
        /\ requireActive m' = Ok state
        /\ sessionCounter m' = sessionCounter m + 1
        /\ sid state = session_id (sessionCounter m + 1)
        /\ (if String.eqb (cfg_type config) ""
            then Registry.detectType (cfg_program config)
            else Ok (cfg_type config)) = Ok (adapter_kind (adapter state))
        /\ list_breakpoints_of state = ∅
    | Throw e =>
        activeSession m' = None
        /\ requireActive m' = Throw no_session_error
        /\ (sessionCounter m' = sessionCounter m
            \/ sessionCounter m' = sessionCounter m + 1)
        /\ (adapter_type_rejected config ->
            sessionCounter m' = sessionCounter m)
    end.
Proof.
  intros config m Hcount m'. subst m'. unfold create.
  assert (activeSession
            (match activeSession m with Some _ => stop m | None => m end)
          = None
          /\ sessionCounter
               (match activeSession m with Some _ => stop m | None => m end)
             = sessionCounter m) as [Hnone Hsame].
  { by destruct (activeSession m) eqn:Hact. }
  set (m1 := match activeSession m with Some _ => stop m | None => m end)
    in *.
  unfold adapter_type_rejected.
  destruct (if String.eqb (cfg_type config) ""
            then Registry.detectType (cfg_program config)
            else Ok (cfg_type config)) as [type|e] eqn:Htype.
  2:{ cbn [fst snd]. unfold requireActive. rewrite Hnone.
      split_and!; auto. }
  destruct (createAdapter_cases type) as [[-> ->]|[[-> ->]|[Hout ->]]].
  3:{ cbn [fst snd]. unfold requireActive. rewrite Hnone.
      split_and!; auto. }
  - pose proof (start_kind (onStopped CbTracker (ANode NodeAdapter.new)))
      as Hkind.
    destruct (start cdp_peer dap_peer
                (onStopped CbTracker (ANode NodeAdapter.new)))
      as [[[]|e] a2]; cbn [fst snd] in *.
    + rewrite Hsame, JSFacts.succ_exact by lia.
      split_and!; auto.
      cbn [adapter createSessionState]. by rewrite Hkind.
    + rewrite Hsame, JSFacts.succ_exact by lia.
      split_and!; auto.
      intros [t [[= <-] Hout]]. exfalso. apply Hout.
      apply list_elem_of_here.
  - pose proof (start_kind (onStopped CbTracker (APython PythonAdapter.new)))
      as Hkind.
    destruct (start cdp_peer dap_peer
                (onStopped CbTracker (APython PythonAdapter.new)))
      as [[[]|e] a2]; cbn [fst snd] in *.
    + rewrite Hsame, JSFacts.succ_exact by lia.
      split_and!; auto.
      cbn [adapter createSessionState]. by rewrite Hkind.
    + rewrite Hsame, JSFacts.succ_exact by lia.
      split_and!; auto.
      intros [t [[= <-] Hout]]. exfalso. apply Hout.
      apply list_elem_of_further, list_elem_of_here.
Qed.

(** X7. [create(config)] while the counter is in the exact range of JS
    numbers.  When it returns a session, the session is the active one, its
    id is [session-] followed by the old counter plus one, its adapter is
    of the type asked for (or detected from the program when none is
    given), and it has no breakpoints.  When it throws, no session is
    active afterwards, whether one was before or not: the previous session
    is stopped before anything can fail.  The counter moves by at most
    one, and not at all when the type is rejected. *)
Theorem create_replaces_the_active_session :
  forall (config : LaunchConfig) (m : Manager),
    0 <= sessionCounter m < JS.MAX_EXACT ->
    let m' := snd (create cdp_peer dap_peer config m) in
    match fst (create cdp_peer dap_peer config m) with
    | Ok state =>
        activeSession m' = Some state
        /\ requireActive m' = Ok state
        /\ sessionCounter m' = sessionCounter m + 1
        /\ sid state = session_id (sessionCounter m + 1)
        /\ (if String.eqb (cfg_type config) ""
            then Registry.detectType (cfg_program config)
            else Ok (cfg_type config)) = Ok (adapter_kind (adapter state))
        /\ list_breakpoints_of state = ∅
    | Throw e =>
        activeSession m' = None
        /\ requireActive m' = Throw no_session_error
        /\ (sessionCounter m' = sessionCounter m
            \/ sessionCounter m' = sessionCounter m + 1)
        /\ (adapter_type_rejected config ->
            sessionCounter m' = sessionCounter m)
    end.
Proof. exact create_cases. Qed.

Lemma to_int_proper z :
  Z.to_int z <> Decimal.Pos Decimal.Nil
  /\ Z.to_int z <> Decimal.Neg Decimal.Nil.
Proof.
  destruct z as [|q|q]; cbn; split; try discriminate;
    intros [= Hq]; by apply Unsigned.to_uint_nonnil in Hq.
Qed.

Lemma session_id_inj a b : session_id a = session_id b -> a = b.
Proof.
  unfold session_id. intros Heq. apply String.app_inj in Heq.
  apply (f_equal NilZero.int_of_string) in Heq.
  destruct (to_int_proper a) as [Ha1 Ha2], (to_int_proper b) as [Hb1 Hb2].
  rewrite !NilZero.isi in Heq by done.
  injection Heq as Heq. by apply DecimalZ.to_int_inj.
Qed.

Import SessionSequence.

Lemma create_all_ids configs : forall m,
  0 <= sessionCounter m ->
  sessionCounter m + Z.of_nat (length configs) <= JS.MAX_EXACT ->
  let out := create_all cdp_peer dap_peer configs m in
  NoDup (session_ids (fst out))
  /\ (forall i, i ∈ session_ids (fst out) ->
        exists k, sessionCounter m < k <= sessionCounter (snd out)
                  /\ i = session_id k)
  /\ sessionCounter m <= sessionCounter (snd out)
     <= sessionCounter m + Z.of_nat (length configs).
Proof.
  induction configs as [|config rest IH]; intros m Hpos Hbound;
    cbn [create_all].
  { cbn. split; [constructor|]. split; [|lia].
    intros i Hi. by apply elem_of_nil in Hi. }
  cbn [length] in Hbound.
  pose proof (create_cases config m ltac:(lia)) as Hcreate.
  cbv zeta in Hcreate.
  destruct (create cdp_peer dap_peer config m) as [r m1].
  cbn [fst snd] in Hcreate.
  assert (sessionCounter m <= sessionCounter m1 <= sessionCounter m + 1)
    as Hm1.
  { destruct r as [state|e]; [|destruct Hcreate as (_ & _ & [?|?] & _)];
      [destruct Hcreate as (_ & _ & ? & _)|..]; lia. }
  destruct (IH m1 ltac:(lia) ltac:(lia)) as (Hnd & Hids & Hcount).
  destruct (create_all cdp_peer dap_peer rest m1) as [rs m2].
  cbn [fst snd] in *.
  destruct r as [state|e]; cbn [session_ids length].
  - destruct Hcreate as (_ & _ & Hc1 & Hsid & _).
    split; [|split; [|lia]].
    + apply NoDup_cons. split; [|done].
      intros Hin. apply Hids in Hin as (k & Hk & Heq).
      rewrite Hsid in Heq. apply session_id_inj in Heq. lia.
    + intros i Hi. apply elem_of_cons in Hi as [->|Hi].
      * exists (sessionCounter m + 1). split; [lia|done].
      * apply Hids in Hi as (k & Hk & ->). exists k. split; [lia|done].
  - split; [done|]. split; [|lia].
    intros i Hi. apply Hids in Hi as (k & Hk & ->). exists k.
    split; [lia|done].
Qed.

(** X26. Session ids are never used twice.  When sessions are started one
    after the other (fewer than 2^53 of them), whether the starts succeed
    or fail and whatever sessions are replaced on the way, the ids of the
    sessions created are pairwise different: each is [session-k] for a
    value [k] of the counter that is passed once. *)
Theorem session_ids_never_repeat :
  forall (configs : list LaunchConfig) (m : Manager),
    0 <= sessionCounter m ->
    sessionCounter m + Z.of_nat (length configs) <= JS.MAX_EXACT ->
    let out := create_all cdp_peer dap_peer configs m in
    NoDup (session_ids (fst out))
    /\ (forall i, i ∈ session_ids (fst out) ->
          exists k, sessionCounter m < k <= sessionCounter (snd out)
                    /\ i = session_id k)
    /\ sessionCounter m <= sessionCounter (snd out)
       <= sessionCounter m + Z.of_nat (length configs).
Proof. intros configs m. apply create_all_ids. Qed.

End WithPeers.

Lemma create_replaces_the_active_session_witness :
  sid (BreakpointExamples.node_session BreakpointExamples.exact_inspector)
  = session_id (0 + 1).
Proof.
  pose proof (create_replaces_the_active_session
                BreakpointExamples.exact_inspector
                BreakpointExamples.quiet_server
                {| cfg_type := ""; cfg_program := "/tmp/a.js" |} initial)
    as Hcreate.
  cbv zeta in Hcreate.
  rewrite (proj1 BreakpointExamples.node_session_created) in Hcreate.
  apply Hcreate. vm_compute. split; [discriminate|reflexivity].
Defined.

Lemma session_ids_never_repeat_witness :
  NoDup
    (SessionSequence.session_ids
       (fst (SessionSequence.create_all BreakpointExamples.exact_inspector
               BreakpointExamples.quiet_server
               [{| cfg_type := ""; cfg_program := "/tmp/a.js" |};
                {| cfg_type := "ruby"; cfg_program := "/tmp/a.rb" |};
                {| cfg_type := "node"; cfg_program := "/tmp/b.js" |}]
               initial))).
Proof.
  apply (session_ids_never_repeat BreakpointExamples.exact_inspector
           BreakpointExamples.quiet_server
           [{| cfg_type := ""; cfg_program := "/tmp/a.js" |};
            {| cfg_type := "ruby"; cfg_program := "/tmp/a.rb" |};
            {| cfg_type := "node"; cfg_program := "/tmp/b.js" |}]
           initial).
  - vm_compute. discriminate.
  - vm_compute. discriminate.
Defined.

End ManagerFacts.

(** ** More on merging by key *)
Module MergeFacts.
Import KeyedMerge.
Section MergeFacts.
Context {X : Type} (key : X -> Z).

Lemma put_length l x :
  (length l <= length (put key l x) <= S (length l))%nat.
Proof.
  unfold put. destruct (find key (key x) l).
  - rewrite length_insert. lia.
  - rewrite length_app. cbn. lia.
Qed.

Lemma put_lookup l x i e :
  l !! i = Some e ->
  exists e', put key l x !! i = Some e' /\ key e' = key e
             /\ (key e <> key x -> e' = e).
Proof.
  intros Hi. unfold put.
  destruct (find key (key x) l) as [j|] eqn:Hf.
  - destruct (find_Some key _ _ _ Hf) as (ej & Hj & Hk).
    destruct (decide (j = i)) as [->|Hne].
    + exists x. rewrite list_lookup_insert_eq
        by (eapply lookup_lt_Some; eauto).
      rewrite Hi in Hj. injection Hj as ->.
      split; [done|]. split; [done|]. intros Hd. by destruct Hd.
    + exists e. by rewrite list_lookup_insert_ne.
  - exists e. by rewrite lookup_app_l by (eapply lookup_lt_Some; eauto).
Qed.

Lemma put_here l x : x ∈ put key l x.
Proof.
  unfold put. destruct (find key (key x) l) as [j|] eqn:Hf.
  - destruct (find_Some key _ _ _ Hf) as (ej & Hj & _).
    apply list_elem_of_insert. eapply lookup_lt_Some; eauto.
  - apply elem_of_app. right. by apply list_elem_of_singleton.
Qed.

Lemma put_keep l x y : y ∈ l -> key y <> key x -> y ∈ put key l x.
Proof.
  intros Hy Hne. apply list_elem_of_lookup in Hy as [i Hi].
  destruct (put_lookup l x i y Hi) as (e' & He' & _ & Hsame).
  rewrite (Hsame Hne) in He'. apply list_elem_of_lookup. eauto.
Qed.

Lemma put_from l x y : y ∈ put key l x -> y ∈ l \/ y = x.
Proof.
  unfold put. destruct (find key (key x) l) as [j|].
  - intros Hy. apply list_elem_of_lookup in Hy as [i Hi].
    apply list_lookup_insert_Some in Hi as [(_ & -> & _)|(_ & Hi)];
      [by right|].
    left. apply list_elem_of_lookup. eauto.
  - intros Hy. apply elem_of_app in Hy as [Hy|Hy]; [by left|].
    right. by apply list_elem_of_singleton in Hy.
Qed.

Lemma put_all_length xs : forall l,
  (length l <= length (put_all key l xs) <= length l + length xs)%nat.
Proof.
  induction xs as [|x xs IH]; intros l; cbn; [lia|].
  specialize (IH (put key l x)). pose proof (put_length l x).
  unfold put_all in IH. lia.
Qed.

Lemma put_all_lookup xs : forall l i e,
  l !! i = Some e ->
  exists e', put_all key l xs !! i = Some e' /\ key e' = key e
             /\ ((key e ∉ map key xs) -> e' = e).
Proof.
  induction xs as [|x xs IH]; intros l i e Hi; cbn.
  - by exists e.
  - destruct (put_lookup l x i e Hi) as (e1 & H1 & Hk1 & Hs1).
    destruct (IH _ _ _ H1) as (e2 & H2 & Hk2 & Hs2).
    exists e2. split; [done|]. split; [congruence|].
    intros Hnot. apply not_elem_of_cons in Hnot as [Hx Hxs].
    rewrite Hs2, Hs1; [done|done|]. by rewrite Hk1.
Qed.

Lemma put_all_keep xs : forall l y,
  y ∈ l -> (forall x, x ∈ xs -> key x <> key y) -> y ∈ put_all key l xs.
Proof.
  induction xs as [|x xs IH]; intros l y Hy Hne; cbn; [done|].
  apply IH.
  - apply put_keep; [done|]. intros Heq. apply (Hne x); [|done].
    apply list_elem_of_here.
  - intros x' Hx'. apply Hne. by apply list_elem_of_further.
Qed.

Lemma put_all_last pre x post l :
  (forall b, b ∈ post -> key b <> key x) ->
  x ∈ put_all key l (pre ++ x :: post).
Proof.
  intros Hpost. unfold put_all. rewrite fold_left_app. cbn.
  apply (put_all_keep post); [apply put_here|done].
Qed.

Lemma put_all_from xs : forall l y,
  y ∈ put_all key l xs -> y ∈ l \/ y ∈ xs.
Proof.
  induction xs as [|x xs IH]; intros l y Hy; cbn in Hy; [by left|].
  apply IH in Hy as [Hy|Hy].
  - apply put_from in Hy as [Hy| ->]; [by left|].
    right. apply list_elem_of_here.
  - right. by apply list_elem_of_further.
Qed.

End MergeFacts.
End MergeFacts.

(** ** More on the breakpoint tools *)
Module BreakpointToolFacts.
Import Session BreakpointTools BreakpointFacts.

(** X8. The merge loop of [set_breakpoints]: a stored breakpoint keeps its
    place, and is kept as it is when its line is not requested; a
    requested breakpoint replaces the stored one of its line or is
    appended, unverified and without id, and of two requests for one line
    the later wins; nothing else enters the list. *)
Theorem merge_keeps_places_and_last_request_wins :
  forall (existing : list BreakpointInfo) (bps : list SourceBreakpoint),
    let merged := merge existing bps in
    (length existing <= length merged <= length existing + length bps)%nat
    /\ (forall i e, existing !! i = Some e ->
          exists e', merged !! i = Some e' /\ line e' = line e
                     /\ ((line e ∉ map sb_line bps) -> e' = e))
    /\ (forall pre bp post,
          bps = pre ++ bp :: post ->
          (forall b, b ∈ post -> sb_line b <> sb_line bp) ->
          unverified bp ∈ merged)
    /\ (forall e, e ∈ merged ->
          e ∈ existing \/ exists bp, bp ∈ bps /\ e = unverified bp).
Proof.
  intros existing bps merged. subst merged. rewrite merge_put_all.
  assert (map line (map unverified bps) = map sb_line bps) as Hkeys.
  { rewrite map_map. by apply map_ext. }
  split_and!.
  - pose proof (MergeFacts.put_all_length line (map unverified bps) existing).
    rewrite length_map in *. lia.
  - pose proof (MergeFacts.put_all_length line (map unverified bps) existing).
    rewrite length_map in *. lia.
  - intros i e Hi.
    destruct (MergeFacts.put_all_lookup line (map unverified bps) _ _ _ Hi)
      as (e' & He' & Hk & Hs).
    exists e'. rewrite Hkeys in Hs. done.
  - intros pre bp post -> Hpost. rewrite map_app. cbn [map].
    apply MergeFacts.put_all_last.
    intros b Hb. apply list_elem_of_fmap in Hb as (b0 & -> & Hb0).
    by apply Hpost.
  - intros e He. apply MergeFacts.put_all_from in He as [He|He];
      [by left|].
    right. apply list_elem_of_fmap in He as (bp & -> & Hbp). eauto.
Qed.

Lemma apply_results_lookup merged : forall results i,
  apply_results merged results !! i
  = (fun bp => apply_result bp (results !! i)) <$> (merged !! i).
Proof.
  induction merged as [|bp merged IH]; intros results i; [done|].
  destruct i as [|i]; cbn [apply_results].
  - cbn. by rewrite head_lookup.
  - cbn [lookup list_lookup]. rewrite IH. by rewrite lookup_tail.
Qed.

Lemma apply_results_length merged : forall results,
  length (apply_results merged results) = length merged.
Proof.
  induction merged as [|bp merged IH]; intros results; cbn; [done|].
  by rewrite IH.
Qed.

Lemma keep_line_lines remaining : forall results,
  map line (apply_results_keep_line remaining results) = map line remaining.
Proof.
  induction remaining as [|bp rest IH]; intros results; cbn; [done|].
  by rewrite IH.
Qed.

Lemma keep_line_length remaining : forall results,
  length (apply_results_keep_line remaining results) = length remaining.
Proof.
  induction remaining as [|bp rest IH]; intros results; cbn; [done|].
  by rewrite IH.
Qed.

Lemma filter_lines ls l :
  map line
    (filter (fun bp => negb (existsb (Z.eqb (line bp)) ls) = true) l)
  = filter (fun x => x ∉ ls) (map line l).
Proof.
  induction l as [|bp l IH]; [done|].
  cbn [map]. rewrite !filter_cons.
  assert (existsb (Z.eqb (line bp)) ls = true <-> line bp ∈ ls) as Hiff.
  { rewrite existsb_exists. split.
    - intros (x & Hin & Heq). apply Z.eqb_eq in Heq. subst x.
      by apply list_elem_of_In.
    - intros Hin. exists (line bp).
      split; [by apply list_elem_of_In|apply Z.eqb_refl]. }
  destruct (decide (negb (existsb (Z.eqb (line bp)) ls) = true)) as [Hk|Hk];
    destruct (decide (line bp ∉ ls)) as [Hn|Hn].
  - cbn [map]. by rewrite IH.
  - exfalso. apply Hn. intros Hin. apply Hiff in Hin.
    rewrite Hin in Hk. discriminate Hk.
  - exfalso. apply Hk.
    destruct (existsb (Z.eqb (line bp)) ls); [|done].
    exfalso. apply Hn. by apply Hiff.
  - exact IH.
Qed.

Section Tools.
Context {A : Type} `{DebugAdapter A}.

(** The registry holds no file with an empty list. *)
Definition no_empty_entry (session : SessionState A) : Prop :=
  forall file l, list_breakpoints session !! file = Some l -> l <> [].

Lemma set_for_file_spec (session : SessionState A) file bps :
  (forall other, other <> file ->
     breakpoints (setBreakpointsForFile session file bps) !! other
     = breakpoints session !! other)
  /\ breakpoints (setBreakpointsForFile session file bps) !! file
     = (if bps is [] then None else Some bps)
  /\ stoppedThreadId (setBreakpointsForFile session file bps)
     = stoppedThreadId session
  /\ stoppedReason (setBreakpointsForFile session file bps)
     = stoppedReason session.
Proof.
  unfold setBreakpointsForFile. destruct bps as [|bp bps]; cbn.
  - split_and!; auto.
    + intros other Hne. by rewrite lookup_delete_ne.
    + by rewrite lookup_delete_eq.
  - split_and!; auto.
    + intros other Hne. by rewrite lookup_insert_ne.
    + by rewrite lookup_insert_eq.
Qed.

Lemma set_for_file_no_empty (session : SessionState A) file bps :
  no_empty_entry session ->
  no_empty_entry (setBreakpointsForFile session file bps).
Proof.
  intros Hinv f l. unfold list_breakpoints, getAllBreakpoints.
  destruct (set_for_file_spec session file bps) as (Hother & Hfile & _).
  destruct (decide (f = file)) as [->|Hne].
  - rewrite Hfile. destruct bps; [done|]. by intros [= <-].
  - rewrite Hother by done. apply Hinv.
Qed.

Lemma with_adapter_no_empty (session : SessionState A) a :
  no_empty_entry session -> no_empty_entry (with_adapter session a).
Proof. done. Qed.

Lemma set_breakpoints_cases (session : SessionState A) file bps :
  let merged := merge (getBreakpointsForFile session file) bps in
  let call :=
    setBreakpoints (adapter session) file (toSourceBreakpoints merged) in
  (exists results,
      fst call = Ok results
      /\ set_breakpoints file bps session
         = (Ok (map report (apply_results merged results)),
            setBreakpointsForFile (with_adapter session (snd call)) file
              (apply_results merged results)))
  \/ (exists e,
         fst call = Throw e
         /\ set_breakpoints file bps session
            = (Throw e, with_adapter session (snd call))).
Proof.
  intros merged call. subst call. unfold set_breakpoints. fold merged.
  destruct (setBreakpoints (adapter session) file
              (toSourceBreakpoints merged)) as [[results|e] a'];
    cbn [fst snd]; eauto.
Qed.

(** What [remove_breakpoints] keeps of the stored list. *)
Definition remaining_of (lines : option (list Z))
    (existing : list BreakpointInfo) : list BreakpointInfo :=
  match lines with
  | Some ls =>
      filter (fun bp => negb (existsb (Z.eqb (line bp)) ls) = true) existing
  | None => []
  end.

Lemma remove_breakpoints_cases (session : SessionState A) file lines :
  let remaining := remaining_of lines (getBreakpointsForFile session file) in
  let call :=
    setBreakpoints (adapter session) file (toSourceBreakpoints remaining) in
  (exists results,
      fst call = Ok results
      /\ remove_breakpoints file lines session
         = (Ok (length remaining),
            setBreakpointsForFile (with_adapter session (snd call)) file
              (apply_results_keep_line remaining results)))
  \/ (exists e,
         fst call = Throw e
         /\ remove_breakpoints file lines session
            = (Throw e, with_adapter session (snd call))).
Proof.
  intros remaining call. subst call. unfold remove_breakpoints.
  fold (remaining_of lines (getBreakpointsForFile session file)).
  fold remaining.
  destruct remaining as [|bp rest] eqn:Hrem.
  - cbn [length Nat.ltb Nat.leb toSourceBreakpoints map].
    destruct (setBreakpoints (adapter session) file []) as [[results|e] a'];
      cbn [fst snd]; eauto.
  - assert ((0 <? length (bp :: rest))%nat = true) as -> by done.
    destruct (setBreakpoints (adapter session) file
                (toSourceBreakpoints (bp :: rest))) as [[results|e] a'];
      cbn [fst snd]; eauto.
Qed.

(** X9. The registry never holds a file with an empty list: a new session
    has none, and [set_breakpoints] and [remove_breakpoints] keep it so,
    whatever the adapter answers; a file whose last breakpoint is removed
    leaves the registry.  Both tools change the entry of their file only. *)
Theorem registry_holds_no_empty_list :
  forall (session : SessionState A) (file : string)
         (bps : list SourceBreakpoint) (lines : option (list Z)),
    no_empty_entry session ->
    no_empty_entry (snd (set_breakpoints file bps session))
    /\ no_empty_entry (snd (remove_breakpoints file lines session))
    /\ (forall other, other <> file ->
          list_breakpoints (snd (set_breakpoints file bps session)) !! other
          = list_breakpoints session !! other)
    /\ (forall other, other <> file ->
          list_breakpoints (snd (remove_breakpoints file lines session))
            !! other
          = list_breakpoints session !! other).
Proof.
  intros session file bps lines Hinv.
  destruct (set_breakpoints_cases session file bps)
    as [(results & _ & ->)|(e & _ & ->)];
    destruct (remove_breakpoints_cases session file lines)
      as [(results' & _ & ->)|(e' & _ & ->)];
    cbn [snd]; split_and!;
    try (by apply set_for_file_no_empty);
    try done;
    intros other Hne; unfold list_breakpoints, getAllBreakpoints;
    by rewrite (proj1 (set_for_file_spec _ _ _)).
Qed.

(** X10. A tool call that fails leaves the session as it was: when the
    adapter rejects the request, [set_breakpoints] and
    [remove_breakpoints] throw the adapter's error and the registry and
    the recorded stop are unchanged; and the tools throw in no other
    case. *)
Theorem failed_tool_call_changes_nothing :
  forall (session : SessionState A) (file : string)
         (bps : list SourceBreakpoint) (lines : option (list Z)),
    let sent_by_set :=
      toSourceBreakpoints (merge (getBreakpointsForFile session file) bps) in
    let sent_by_remove :=
      toSourceBreakpoints
        (remaining_of lines (getBreakpointsForFile session file)) in
    (forall e,
        fst (set_breakpoints file bps session) = Throw e <->
        fst (setBreakpoints (adapter session) file sent_by_set) = Throw e)
    /\ (forall e,
        fst (remove_breakpoints file lines session) = Throw e <->
        fst (setBreakpoints (adapter session) file sent_by_remove) = Throw e)
    /\ (is_ok (fst (set_breakpoints file bps session)) = false ->
        list_breakpoints (snd (set_breakpoints file bps session))
        = list_breakpoints session
        /\ stoppedReason (snd (set_breakpoints file bps session))
           = stoppedReason session)
    /\ (is_ok (fst (remove_breakpoints file lines session)) = false ->
        list_breakpoints (snd (remove_breakpoints file lines session))
        = list_breakpoints session
        /\ stoppedReason (snd (remove_breakpoints file lines session))
           = stoppedReason session).
Proof.
  intros session file bps lines sent_by_set sent_by_remove.
  subst sent_by_set sent_by_remove.
  destruct (set_breakpoints_cases session file bps)
    as [(results & Hc & ->)|(e & Hc & ->)];
    destruct (remove_breakpoints_cases session file lines)
      as [(results' & Hc' & ->)|(e' & Hc' & ->)];
    cbn [fst snd is_ok]; rewrite Hc, Hc';
    (split; [intros e0; split; intros Heq; first [discriminate Heq|by injection Heq as ->]|]);
    (split; [intros e0; split; intros Heq; first [discriminate Heq|by injection Heq as ->]|]);
    split; intros Hfail; try discriminate Hfail; by split.
Qed.

(** X11. [remove_breakpoints] with [lines] given keeps the stored
    breakpoints whose line is not listed, in their order and on their
    stored lines whatever lines the adapter reports, and reports how many
    remain. *)
Theorem remove_lines_keeps_the_others :
  forall (session : SessionState A) (file : string) (ls : list Z) (n : nat),
    fst (remove_breakpoints file (Some ls) session) = Ok n ->
    let before := map line (getBreakpointsForFile session file) in
    let after :=
      map line
        (getBreakpointsForFile
           (snd (remove_breakpoints file (Some ls) session)) file) in
    after = filter (fun l => l ∉ ls) before
    /\ sublist after before
    /\ (forall l, l ∈ after <-> l ∈ before /\ (l ∉ ls))
    /\ n = length after.
Proof.
  intros session file ls n Hok before after.
  assert (after = filter (fun l => l ∉ ls) before /\ n = length after)
    as [Hafter Hn].
  { subst after before.
    destruct (remove_breakpoints_cases session file (Some ls))
      as [(results & _ & Heq)|(e & _ & Heq)];
      rewrite Heq in Hok |- *; [|discriminate Hok].
    cbn [fst snd] in *. injection Hok as <-.
    rewrite stored_read, keep_line_lines. split.
    - apply filter_lines.
    - by rewrite length_map. }
  split; [done|]. split; [|split; [|done]].
  - rewrite Hafter. apply sublist_filter.
  - intros l. rewrite Hafter, list_elem_of_filter. tauto.
Qed.

(** X12. What [set_breakpoints] stores for the file is the merged list,
    entry by entry, each one updated from the adapter's result of the same
    index: it takes the result's verified flag and id, and the result's
    line when it has one; where the adapter returned no result for an
    index the breakpoint is stored on its own line, unverified and without
    id; results beyond the merged list are ignored.  The tool reports the
    stored list. *)
Theorem set_breakpoints_stores_by_index :
  forall (session : SessionState A) (file : string)
         (bps : list SourceBreakpoint) (results : list BreakpointResult),
    let merged := merge (getBreakpointsForFile session file) bps in
    fst (setBreakpoints (adapter session) file (toSourceBreakpoints merged))
    = Ok results ->
    let stored :=
      getBreakpointsForFile (snd (set_breakpoints file bps session)) file in
    fst (set_breakpoints file bps session) = Ok (map report stored)
    /\ length stored = length merged
    /\ (forall i bp r,
          merged !! i = Some bp -> results !! i = Some r ->
          exists e, stored !! i = Some e
                    /\ line e = default (line bp) (br_line r)
                    /\ verified e = br_verified r /\ id e = br_id r
                    /\ condition e = condition bp
                    /\ column e = column bp)
    /\ (forall i bp,
          merged !! i = Some bp -> results !! i = None ->
          exists e, stored !! i = Some e
                    /\ line e = line bp /\ verified e = false
                    /\ id e = None
                    /\ condition e = condition bp
                    /\ column e = column bp).
Proof.
  intros session file bps results merged Hcall stored.
  destruct (set_breakpoints_cases session file bps)
    as [(results0 & Hc & Heq)|(e & Hc & _)];
    fold merged in Hc; rewrite Hcall in Hc; [|discriminate Hc].
  injection Hc as <-. fold merged in Heq.
  subst stored. rewrite Heq. cbn [fst snd]. rewrite stored_read.
  split; [done|]. split; [apply apply_results_length|].
  split.
  - intros i bp r Hbp Hr. eexists.
    rewrite apply_results_lookup, Hbp, Hr. cbn.
    split; [reflexivity|]. done.
  - intros i bp Hbp Hr. eexists.
    rewrite apply_results_lookup, Hbp, Hr. cbn.
    split; [reflexivity|]. done.
Qed.

End Tools.

Import SessionManager BreakpointExamples.

Lemma registry_holds_no_empty_list_witness :
  no_empty_entry
    (snd (set_breakpoints (H := with_inspector exact_inspector)
            "/tmp/a.js" [at_line 10] (node_session exact_inspector)))
  /\ no_empty_entry
       (snd (remove_breakpoints (H := with_inspector exact_inspector)
               "/tmp/a.js" None (node_session exact_inspector))).
Proof.
  assert (list_breakpoints (node_session exact_inspector) = ∅) as Hempty
    by (vm_compute; reflexivity).
  pose proof (registry_holds_no_empty_list
                (H := with_inspector exact_inspector)
                (node_session exact_inspector) "/tmp/a.js" [at_line 10] None)
    as Hkept.
  assert (no_empty_entry (node_session exact_inspector)) as Hnew.
  { intros file l. rewrite Hempty, lookup_empty. discriminate. }
  specialize (Hkept Hnew). destruct Hkept as (Hset & Hremove & _).
  exact (conj Hset Hremove).
Defined.

Lemma remove_lines_keeps_the_others_witness :
  let s1 := snd (set_breakpoints (H := with_inspector exact_inspector)
                   "/tmp/a.js" [at_line 10; at_line 20]
                   (node_session exact_inspector)) in
  map line
    (getBreakpointsForFile
       (snd (remove_breakpoints (H := with_inspector exact_inspector)
               "/tmp/a.js" (Some [10]) s1)) "/tmp/a.js")
  = filter (fun l => l ∉ [10]) (map line (getBreakpointsForFile s1 "/tmp/a.js")).
Proof.
  intros s1.
  apply (remove_lines_keeps_the_others (H := with_inspector exact_inspector)
           s1 "/tmp/a.js" [10] 1%nat).
  vm_compute. reflexivity.
Defined.

Lemma set_breakpoints_stores_by_index_witness :
  length
    (getBreakpointsForFile
       (snd (set_breakpoints (H := with_inspector exact_inspector)
               "/tmp/a.js" [at_line 10; at_line 20]
               (node_session exact_inspector))) "/tmp/a.js")
  = length
      (merge (getBreakpointsForFile (node_session exact_inspector)
                "/tmp/a.js") [at_line 10; at_line 20]).
Proof.
  apply (set_breakpoints_stores_by_index
           (H := with_inspector exact_inspector)
           (node_session exact_inspector) "/tmp/a.js"
           [at_line 10; at_line 20] [resolved_at 0 10; resolved_at 1 20]).
  vm_compute. reflexivity.
Defined.

End BreakpointToolFacts.

(** ** The CDP adapter *)
Module NodeFacts.
Import NodeAdapter NodeInspect.

(** What a result of [setBreakpoints] at index [n] can be for the
    request [bp]: accepted by the inspector, with the index as id, or
    rejected, unverified on the requested line with the error message. *)
Definition result_for (n : nat) (bp : SourceBreakpoint)
    (r : BreakpointResult) : Prop :=
  (br_verified r = false -> br_line r = Some (sb_line bp))
  /\ is_Some (br_line r)
  /\ ((br_id r = Some (Z.of_nat n) /\ br_message r = None)
      \/ (br_id r = None /\ br_verified r = false
          /\ is_Some (br_message r))).

Definition has_id (r : BreakpointResult) : bool :=
  match br_id r with Some _ => true | None => false end.

(** What goes over the wire for a breakpoint. *)
Definition wire (bp : SourceBreakpoint) : Z * option Z * option string :=
  (sb_line bp, sb_column bp, sb_condition bp).

Definition not_connected (bp : SourceBreakpoint) : BreakpointResult :=
  {| br_id := None; br_verified := false; br_line := Some (sb_line bp);
     br_message := Some "Not connected" |}.

Section WithPeer.
Variable peer : CdpRequest -> CdpReply.


Lemma request_offline method params a :
  ws a = false -> request peer method params a = (Throw "Not connected", a).
Proof. intros Hws. unfold request, cdpSend. by rewrite Hws. Qed.


Lemma set_all_offline file bps : forall results newIds a,
  ws a = false ->
  set_all peer file bps results newIds a
  = (results ++ map not_connected bps, newIds, a).
Proof.
  induction bps as [|bp bps IH]; intros results newIds a Hws;
    cbn [set_all map].
  - by rewrite app_nil_r.
  - rewrite request_offline by done. rewrite IH by done.
    by rewrite <- app_assoc.
Qed.

Lemma set_all_shape file bps : forall results newIds a,
  exists new ids,
    (set_all peer file bps results newIds a).1.1 = results ++ new
    /\ (set_all peer file bps results newIds a).1.2 = newIds ++ ids
    /\ length new = length bps
    /\ length ids = length (filter (fun r => has_id r = true) new)
    /\ forall i bp, bps !! i = Some bp ->
         exists r, new !! i = Some r
                   /\ result_for (length results + i) bp r.
Proof.
  induction bps as [|bp bps IH]; intros results newIds a; cbn [set_all].
  - exists [], []. cbn. rewrite !app_nil_r. split_and!; auto.
    intros i bp Hi. by rewrite lookup_nil in Hi.
  - destruct (request peer _ _ a) as [[response|m] a'].
    + destruct (IH (results ++
                    [{| br_id := Some (Z.of_nat (length results));
                        br_verified :=
                          (0 <? length (locations response))%nat;
                        br_line :=
                          Some (match locations response with
                                | l0 :: _ => cl_lineNumber l0 + 1
                                | [] => sb_line bp
                                end);
                        br_message := None |}])
                  (newIds ++ [breakpointId response]) a')
        as (new & ids & H1 & H2 & H3 & H4 & H5).
      eexists (_ :: new), (_ :: ids).
      rewrite H1, H2, <- !app_assoc. cbn [app].
      split; [reflexivity|]. split; [reflexivity|].
      split; [cbn; by rewrite H3|].
      split.
      * rewrite filter_cons. cbn [has_id br_id]. rewrite decide_True by done.
        cbn. by rewrite H4.
      * intros [|i] bp0 Hi; cbn in Hi.
        -- injection Hi as <-. eexists. split; [reflexivity|].
           rewrite Nat.add_0_r. unfold result_for. cbn.
           split_and!; eauto.
           destruct (locations response); [done|]. cbn. discriminate.
        -- destruct (H5 i bp0 Hi) as (r & Hr & Hres).
           exists r. split; [done|].
           rewrite length_app in Hres. cbn in Hres.
           by replace (length results + S i)%nat
             with (length results + 1 + i)%nat by lia.
    + destruct (IH (results ++
                    [{| br_id := None; br_verified := false;
                        br_line := Some (sb_line bp);
                        br_message := Some m |}]) newIds a')
        as (new & ids & H1 & H2 & H3 & H4 & H5).
      eexists (_ :: new), ids.
      rewrite H1, H2, <- !app_assoc. cbn [app].
      split; [reflexivity|]. split; [reflexivity|].
      split; [cbn; by rewrite H3|].
      split.
      * rewrite filter_cons. cbn [has_id br_id].
        rewrite decide_False by done. done.
      * intros [|i] bp0 Hi; cbn in Hi.
        -- injection Hi as <-. eexists. split; [reflexivity|].
           unfold result_for. cbn. split_and!; eauto.
        -- destruct (H5 i bp0 Hi) as (r & Hr & Hres).
           exists r. split; [done|].
           rewrite length_app in Hres. cbn in Hres.
           by replace (length results + S i)%nat
             with (length results + 1 + i)%nat by lia.
Qed.

(** X13. [NodeAdapter.setBreakpoints], when it returns, returns one
    result for each breakpoint requested, in order.  Each result has a
    line; the result of an accepted request has its index as id and no
    message; the result of a rejected request has no id, is unverified and
    carries the error message; and an unverified result is always on the
    requested line.  One breakpoint id is recorded for the file for each
    result that has an id. *)
Theorem node_results_mirror_requests :
  forall (a : T) (file : string) (bps : list SourceBreakpoint)
         (results : list BreakpointResult),
    fst (setBreakpoints peer a file bps) = Ok results ->
    length results = length bps
    /\ (forall i bp, bps !! i = Some bp ->
          exists r, results !! i = Some r /\ result_for i bp r)
    /\ exists ids,
         breakpointIds (snd (setBreakpoints peer a file bps)) !! file
         = Some ids
         /\ length ids = length (filter (fun r => has_id r = true) results).
Proof.
  intros a file bps results. unfold setBreakpoints.
  destruct (remove_all peer _ a) as [[[]|e] a1]; [|discriminate].
  destruct (set_all_shape file bps [] [] a1)
    as (new & ids & H1 & H2 & H3 & H4 & H5).
  destruct (set_all peer file bps [] [] a1) as [[results' newIds] a2].
  cbn [fst snd app] in *. subst results' newIds. intros [= <-].
  split; [done|]. split; [exact H5|].
  exists ids. split; [|done]. apply lookup_insert_eq.
Qed.

(** X14. [NodeAdapter.setBreakpoints] on an adapter without a connection
    (never started, or disconnected).  When no breakpoint id is recorded
    for the file it does not throw: it returns for each breakpoint an
    unverified result on the requested line with the message
    "Not connected", sends nothing and records the empty list of ids.
    When ids are recorded, the first removal throws "Not connected" and
    the adapter is left as it was. *)
Theorem node_offline_reports_unverified :
  forall (a : T) (file : string) (bps : list SourceBreakpoint),
    ws a = false ->
    match default [] (breakpointIds a !! file) with
    | [] =>
        setBreakpoints peer a file bps
        = (Ok (map not_connected bps), set_breakpointIds a file [])
    | _ :: _ => setBreakpoints peer a file bps = (Throw "Not connected", a)
    end.
Proof.
  intros a file bps Hws. unfold setBreakpoints.
  destruct (default [] (breakpointIds a !! file)) as [|bpId rest].
  - cbn [remove_all]. by rewrite set_all_offline.
  - cbn [remove_all]. by rewrite request_offline.
Qed.

Lemma set_all_wire file : forall bps bps' results newIds a,
  map wire bps = map wire bps' ->
  set_all peer file bps results newIds a
  = set_all peer file bps' results newIds a.
Proof.
  induction bps as [|bp bps IH]; intros [|bp' bps'] results newIds a Heq;
    try discriminate Heq; [done|].
  cbn [map] in Heq. injection Heq as Hl Hc Hcond Hrest.
  cbn [set_all]. rewrite Hl, Hc, Hcond.
  destruct (request peer _ _ a) as [[response|m] a']; by apply IH.
Qed.

(** X15. The inspector is told the line, the column and the condition of
    a breakpoint and nothing else: two requests that differ only in
    [hitCondition] or [logMessage] send the same messages, leave the
    adapter in the same state and get the same results.  The hit count
    and the log message of a breakpoint have no effect on a Node
    session. *)
Theorem node_ignores_hit_count_and_log_message :
  forall (a : T) (file : string) (bps bps' : list SourceBreakpoint),
    map wire bps = map wire bps' ->
    setBreakpoints peer a file bps = setBreakpoints peer a file bps'.
Proof.
  intros a file bps bps' Hwire. unfold setBreakpoints.
  destruct (remove_all peer _ a) as [[[]|e] a1]; [|done].
  by rewrite (set_all_wire file bps bps').
Qed.








End WithPeer.

Lemma file_url path :
  JS.startsWith path "file://" = false ->
  pathToFileUrl path = "file://" +:+ path.
Proof. intros Hpath. unfold pathToFileUrl. by rewrite Hpath. Qed.

(** X17. Paths and file urls.  For a path that is not itself a file url,
    [fileUrlToPath] undoes [pathToFileUrl], and [pathToFileUrl] applied
    twice is [pathToFileUrl].  So a script announced under the url that
    [setBreakpoints] uses for a file is found again under the path of the
    file by [scriptIdToPath], provided its id is not the empty string; the
    other scripts are not affected; and a script whose url is not a file
    url is not recorded. *)
Theorem script_paths_round_trip :
  forall (a : T) (scriptId path : string),
    JS.startsWith path "file://" = false ->
    let a' := onScriptParsed scriptId (Some (pathToFileUrl path)) a in
    fileUrlToPath (pathToFileUrl path) = path
    /\ pathToFileUrl (pathToFileUrl path) = pathToFileUrl path
    /\ (scriptId <> "" -> scriptIdToPath a' (Some scriptId) = Some path)
    /\ scriptIdToPath a' (Some "") = None
    /\ (forall other, other <> scriptId ->
          scriptIdToPath a' (Some other) = scriptIdToPath a (Some other))
    /\ onScriptParsed scriptId (Some path) a = a
    /\ onScriptParsed scriptId None a = a.
Proof.
  intros a scriptId path Hpath a'. subst a'.
  rewrite (file_url path Hpath).
  assert (JS.startsWith ("file://" +:+ path) "file://" = true) as Hurl
    by (destruct path; reflexivity).
  assert (fileUrlToPath ("file://" +:+ path) = path) as Hback.
  { unfold fileUrlToPath. rewrite Hurl. reflexivity. }
  assert (onScriptParsed scriptId (Some ("file://" +:+ path)) a
          = set_scripts a (<[scriptId := path]> (scripts a))) as ->.
  { unfold onScriptParsed. rewrite Hurl, Hback. done. }
  split; [done|].
  split; [unfold pathToFileUrl; by rewrite Hurl|].
  split.
  { intros Hid. unfold scriptIdToPath.
    destruct scriptId; [done|]. cbn [scripts set_scripts].
    apply lookup_insert_eq. }
  split; [done|]. split.
  { intros other Hne. unfold scriptIdToPath.
    destruct other; [done|]. cbn [scripts set_scripts].
    by rewrite lookup_insert_ne. }
  split; [|done].
  unfold onScriptParsed. rewrite Hpath. by rewrite andb_false_r.
Qed.

Lemma ids_imap (g : nat -> CallFrame -> StackFrame) l : forall n,
  (forall i x, sf_id (g i x) = Z.of_nat (n + i)) ->
  map sf_id (imap g l) = map Z.of_nat (List.seq n (length l)).
Proof.
  revert g. induction l as [|x l IH]; intros g n Hg; [done|].
  cbn [imap map length List.seq]. f_equal.
  - by rewrite Hg, Nat.add_0_r.
  - apply IH. intros i y. unfold compose. rewrite Hg. f_equal. lia.
Qed.

(** X18. [getCallStack] of the CDP adapter against the stop that it
    reports.  After a pause notification has been handed to a waiter, the
    call stack has one frame for each call frame of the notification, with
    ids 0, 1, 2, ... in order; the waiter is resolved with the reason of
    the notification (or "breakpoint") and with the location of the top
    frame of the call stack: the same line, column and name, counted from
    1, and the same file unless the script has no path or an empty one;
    without call frames there is no location.  After [Debugger.resumed]
    the call stack is empty. *)
Theorem call_stack_matches_stop_location :
  forall (a : T) (frames : option (list CallFrame))
         (reason : option string) (k : nat),
    let info := fst (on_paused_event frames reason a) in
    let a' := waiter_stopped k info (snd (on_paused_event frames reason a)) in
    map sf_id (getCallStack a')
    = map Z.of_nat (List.seq 0 (length (default [] frames)))
    /\ (exists result,
          resolved a' = resolved a ++ [(k, result)]
          /\ sr_reason result = default "breakpoint" reason
          /\ sr_threadId result = Some (pausedThreadId a)
          /\ sr_terminated result = false
          /\ match head (getCallStack a'), sr_location result with
             | Some top, Some loc =>
                 loc_line loc = Some (sf_line top)
                 /\ loc_column loc = Some (sf_column top)
                 /\ loc_name loc = Some (sf_name top)
                 /\ (sf_source top = None
                     \/ src_path <$> sf_source top = loc_file loc)
                 /\ (loc_file loc <> None -> loc_file loc <> Some "" ->
                     src_path <$> sf_source top = loc_file loc)
             | None, None => frames = None \/ frames = Some []
             | _, _ => False
             end)
    /\ getCallStack (on_resumed a') = [].
Proof.
  intros a frames reason k info a'. subst info a'.
  split; [|split; [|done]].
  - unfold getCallStack. cbn [pausedFrames waiter_stopped resolve cleanup
                               on_paused_event fst snd].
    by apply ids_imap.
  - eexists. split; [reflexivity|]. cbn [sr_reason sr_threadId sr_terminated
      sr_location on_paused_event fst snd si_reason si_threadId].
    split; [done|]. split; [done|]. split; [done|].
    unfold getCallStack.
    cbn [pausedFrames waiter_stopped resolve cleanup on_paused_event
         fst snd].
    destruct frames as [[|frame rest]|]; cbn [default head imap fmap
      option_fmap option_map]; [by right|..|by left].
    unfold toStackFrame.
    cbn [loc_line loc_column loc_name loc_file sf_line sf_column sf_name
         sf_source scriptIdToPath scripts cleanup waiter_stopped resolve].
    split; [done|]. split; [done|]. split; [done|].
    destruct (scriptIdToPath _ (cf_scriptId frame)) as [[|c p]|] eqn:Hpath.
    + split; [by left|]. intros _ Hne. by destruct Hne.
    + split; [by right|]. done.
    + split; [by left|]. intros Hne. by destruct Hne.
Qed.

(** A started adapter, and a breakpoint that is a logpoint. *)
Definition started : T :=
  snd (start BreakpointExamples.exact_inspector new).

Definition logpoint (l : Z) (text : string) : SourceBreakpoint :=
  {| sb_line := l; sb_column := None; sb_condition := None;
     sb_hitCondition := None; sb_logMessage := Some text |}.

Lemma node_results_mirror_requests_witness :
  length [BreakpointExamples.resolved_at 0 10;
          BreakpointExamples.resolved_at 1 20]
  = length [BreakpointExamples.at_line 10; BreakpointExamples.at_line 20].
Proof.
  apply (node_results_mirror_requests BreakpointExamples.exact_inspector
           started "/tmp/a.js").
  vm_compute. reflexivity.
Defined.


Lemma script_paths_round_trip_witness :
  scriptIdToPath
    (onScriptParsed "7" (Some (pathToFileUrl "/tmp/a.js")) new) (Some "7")
  = Some "/tmp/a.js".
Proof.
  destruct (script_paths_round_trip new "7" "/tmp/a.js" eq_refl)
    as (_ & _ & Hfound & _).
  by apply Hfound.
Defined.

Lemma node_offline_reports_unverified_witness :
  fst (setBreakpoints BreakpointExamples.exact_inspector new "/tmp/a.js"
         [BreakpointExamples.at_line 10])
  = Ok [not_connected (BreakpointExamples.at_line 10)].
Proof.
  pose proof (node_offline_reports_unverified
                BreakpointExamples.exact_inspector new "/tmp/a.js"
                [BreakpointExamples.at_line 10] eq_refl) as Hoff.
  change (breakpointIds new) with (∅ : gmap string (list string)) in Hoff.
  rewrite lookup_empty in Hoff. cbn [default] in Hoff.
  by rewrite Hoff.
Defined.

Lemma node_ignores_hit_count_and_log_message_witness :
  setBreakpoints BreakpointExamples.exact_inspector started "/tmp/a.js"
    [BreakpointExamples.at_line 10]
  = setBreakpoints BreakpointExamples.exact_inspector started "/tmp/a.js"
      [logpoint 10 "i"].
Proof.
  by apply (node_ignores_hit_count_and_log_message
              BreakpointExamples.exact_inspector started "/tmp/a.js").
Defined.

End NodeFacts.

(** ** Pause notifications and outstanding waits *)
Module WaiterFacts.
Import Session SessionManager SessionFacts.

#[local] Arguments PythonAdapter.request : simpl never.

(** Every other element of a list, from the first and from the second. *)
Fixpoint evens {X} (l : list X) : list X :=
  match l with
  | [] => []
  | x :: rest =>
      x :: match rest with
           | [] => []
           | _ :: rest' => evens rest'
           end
  end.

Definition odds {X} (l : list X) : list X := evens (tail l).

(** The waiters whose promise has been resolved, in order. *)
Definition resolved_ids (a : AnyAdapter) : list nat :=
  match a with
  | ANode n => map fst (NodeAdapter.resolved n)
  | APython p => map fst (PythonAdapter.resolved p)
  end.

Lemma evens_cons2 {X} (x y : X) l : evens (x :: y :: l) = x :: evens l.
Proof. done. Qed.

Lemma odds_cons2 {X} (x y : X) l : odds (x :: y :: l) = y :: odds l.
Proof. unfold odds. cbn [tail]. by destruct l. Qed.

Lemma remove_first_middle pre k rest :
  CbWaiter k ∉ pre ->
  remove_first (CbWaiter k) (pre ++ CbWaiter k :: rest) = pre ++ rest.
Proof.
  induction pre as [|c pre IH]; intros Hnot; cbn.
  - by rewrite bool_decide_true.
  - apply not_elem_of_cons in Hnot as [Hne Hnot].
    rewrite bool_decide_false by done. by rewrite IH.
Qed.

Section WithPeers.
Variable dap_peer : Dap.Request -> PythonAdapter.Reply.

Lemma python_getCallStack_resolved tid a :
  PythonAdapter.resolved (snd (PythonAdapter.getCallStack dap_peer tid a))
  = PythonAdapter.resolved a.
Proof.
  unfold PythonAdapter.getCallStack.
  destruct (PythonAdapter.client a); [|done].
  by destruct (PythonAdapter.request dap_peer _ _ _) as [[?|?] ?].
Qed.

Lemma waiter_stopped_resolved k info a :
  resolved_ids (waiter_stopped dap_peer k info a) = resolved_ids a ++ [k].
Proof.
  destruct a as [n|p]; cbn.
  - by rewrite map_app.
  - unfold PythonAdapter.waiter_stopped.
    pose proof (python_getCallStack_resolved (si_threadId info)
                  (PythonAdapter.cleanup k p)) as Hcs.
    destruct (PythonAdapter.getCallStack dap_peer _ _) as [[?|?] ?];
      cbn in *; by rewrite map_app, Hcs.
Qed.

Lemma fire_waiters fuel : forall rest pre info s,
  stoppedCallbacks (adapter s) = pre ++ map CbWaiter rest ->
  NoDup rest ->
  (forall k, k ∈ rest -> CbWaiter k ∉ pre) ->
  (length rest <= fuel)%nat ->
  let s' := fire dap_peer fuel (length pre) info s in
  stoppedCallbacks (adapter s') = pre ++ map CbWaiter (odds rest)
  /\ resolved_ids (adapter s') = resolved_ids (adapter s) ++ evens rest
  /\ fields s' = fields s.
Proof.
  induction fuel as [|fuel IH]; intros rest pre info s Hcbs Hnd Hpre Hfuel.
  - destruct rest; [|cbn in Hfuel; lia].
    cbn. rewrite Hcbs, !app_nil_r. done.
  - cbn [fire]. rewrite Hcbs.
    destruct rest as [|w rest].
    { cbn [map]. rewrite app_nil_r.
      rewrite lookup_ge_None_2 by lia. rewrite Hcbs. cbn.
      by rewrite !app_nil_r. }
    rewrite lookup_app_r by lia. rewrite Nat.sub_diag. cbn [map lookup
      list_lookup].
    set (s1 := with_adapter s (waiter_stopped dap_peer w info (adapter s))).
    assert (stoppedCallbacks (adapter s1) = pre ++ map CbWaiter rest)
      as Hcbs1.
    { subst s1. cbn [adapter with_adapter].
      rewrite waiter_stopped_callbacks, Hcbs. cbn [map].
      apply remove_first_middle, Hpre, list_elem_of_here. }
    assert (resolved_ids (adapter s1) = resolved_ids (adapter s) ++ [w])
      as Hres1.
    { subst s1. cbn [adapter with_adapter]. apply waiter_stopped_resolved. }
    apply NoDup_cons in Hnd as [Hw Hnd].
    destruct rest as [|x rest].
    { cbn [map] in Hcbs1. rewrite app_nil_r in Hcbs1.
      assert (fire dap_peer fuel (S (length pre)) info s1 = s1) as ->.
      { destruct fuel; [done|]. cbn [fire]. rewrite Hcbs1.
        by rewrite lookup_ge_None_2 by lia. }
      rewrite Hcbs1, Hres1. cbn. by rewrite app_nil_r. }
    apply NoDup_cons in Hnd as [Hx Hnd].
    destruct (IH rest (pre ++ [CbWaiter x]) info s1) as (H1 & H2 & H3).
    + rewrite Hcbs1. cbn [map]. by rewrite <- app_assoc.
    + done.
    + intros k Hk. apply not_elem_of_app. split.
      * apply Hpre. by do 2 apply list_elem_of_further.
      * intros Hin. apply list_elem_of_singleton in Hin.
        injection Hin as ->. done.
    + cbn in Hfuel. lia.
    + rewrite length_app in H1, H2, H3. cbn [length] in H1, H2, H3.
      rewrite Nat.add_1_r in H1, H2, H3.
      rewrite H1, H2, H3, Hres1, odds_cons2, evens_cons2.
      cbn [map]. rewrite <- !app_assoc. done.
Qed.

(** X19. A pause notification while several waits are outstanding.  The
    callbacks are called by index while each waiter takes its listener out
    of the array, so the listener that follows a waiter moves into the
    place just visited and is passed over.  With the tracker first and the
    waiters [ks] after it, the notification sets the recorded stop,
    resolves the first, third, fifth, ... waiter in this order, and leaves
    the second, fourth, ... registered and unresolved.  In particular a
    single waiter is resolved and the callbacks are the tracker alone
    again; of two waiters the older one only is resolved. *)
Theorem pause_resolves_every_other_waiter :
  forall (s : SessionState AnyAdapter) (e : StopEvent) (ks : list nat),
    stoppedCallbacks (adapter s) = CbTracker :: map CbWaiter ks ->
    NoDup ks ->
    let s' := deliver_stopped dap_peer e s in
    stoppedCallbacks (adapter s') = CbTracker :: map CbWaiter (odds ks)
    /\ resolved_ids (adapter s') = resolved_ids (adapter s) ++ evens ks
    /\ fields s' = noted (fst (note_stop e (adapter s))).
Proof.
  intros s e ks Hcbs Hnd s'. subst s'. unfold deliver_stopped.
  destruct (note_stop_spec e (adapter s)) as (t & r & d & a1 & Hnote & Hcbs1).
  assert (resolved_ids a1 = resolved_ids (adapter s)) as Hres1.
  { apply (f_equal snd) in Hnote. cbn [snd] in Hnote. subst a1.
    by destruct (adapter s) as [n|p]. }
  rewrite Hnote. cbn [fst]. rewrite Hcbs1, Hcbs.
  cbn [length fire with_adapter adapter]. rewrite Hcbs1, Hcbs.
  cbn [lookup list_lookup].
  match goal with
  | |- context [fire dap_peer _ 1 ?info ?s1] =>
      destruct (fire_waiters (length (map CbWaiter ks)) ks [CbTracker]
                  info s1) as (H1 & H2 & H3)
  end.
  - cbn. by rewrite Hcbs1, Hcbs.
  - done.
  - intros k _ Hin. apply list_elem_of_singleton in Hin. discriminate Hin.
  - by rewrite length_map.
  - cbn [length] in H1, H2, H3. rewrite H1, H2, H3.
    cbn [adapter with_adapter tracker]. by rewrite Hres1.
Qed.

End WithPeers.

Import BreakpointExamples.

(** A Node session in which [continue_execution] is called before the
    initial pause has been announced: two waits are outstanding. *)
Definition two_waits : SessionState AnyAdapter :=
  with_adapter (node_session exact_inspector)
    (snd (resume Continue None (adapter (node_session exact_inspector)))).

Lemma pause_resolves_every_other_waiter_witness :
  stoppedCallbacks
    (adapter (deliver_stopped quiet_server breakpoint_hit two_waits))
  = [CbTracker; CbWaiter 1]
  /\ resolved_ids
       (adapter (deliver_stopped quiet_server breakpoint_hit two_waits))
     = resolved_ids (adapter two_waits) ++ [0%nat].
Proof.
  destruct (pause_resolves_every_other_waiter quiet_server two_waits
              breakpoint_hit [0%nat; 1%nat]) as (Hcbs & Hres & _).
  - vm_compute. reflexivity.
  - apply NoDup_cons. split; [|apply NoDup_singleton].
    intros Hin. apply list_elem_of_singleton in Hin. discriminate Hin.
  - split; [exact Hcbs|exact Hres].
Defined.

End WaiterFacts.

(** ** The read loop of the DAP client *)
Module StreamFacts.
Import Dap DapStream DecoderFacts.

Lemma round_big z : JS.MAX_EXACT < z -> JS.MAX_EXACT <= JS.round z.
Proof.
  intros Hz. unfold JS.round.
  assert (0 < JS.MAX_EXACT) as Hmax by done.
  rewrite Z.abs_eq by lia.
  destruct (Z.leb_spec z JS.MAX_EXACT) as [|_]; [lia|].
  rewrite Z.sgn_pos by lia.
  assert (53 <= Z.log2 z) as Hlog.
  { apply Z.log2_le_pow2; [lia|]. unfold JS.MAX_EXACT in Hz. lia. }
  set (e := Z.log2 z - 52).
  assert (1 <= e) as He by (subst e; lia).
  assert (2 ^ 52 <= z / 2 ^ e) as Hq.
  { apply Z.div_le_lower_bound; [by apply Z.pow_pos_nonneg; lia|].
    rewrite <- Z.pow_add_r by lia.
    replace (e + 52) with (Z.log2 z) by (subst e; lia).
    apply Z.log2_spec. lia. }
  set (q := z / 2 ^ e) in *.
  assert (q <= (if z mod 2 ^ e <? 2 ^ (e - 1) then q
                else if 2 ^ (e - 1) <? z mod 2 ^ e then q + 1
                else if Z.even q then q else q + 1)) as Hq'.
  { repeat match goal with |- context [if ?b then _ else _] =>
      destruct b end; lia. }
  set (q' := if z mod 2 ^ e <? 2 ^ (e - 1) then q
             else if 2 ^ (e - 1) <? z mod 2 ^ e then q + 1
             else if Z.even q then q else q + 1) in *.
  assert (2 ^ 1 <= 2 ^ e) as Hpow by (apply Z.pow_le_mono_r; lia).
  change (2 ^ 1) with 2 in Hpow.
  unfold JS.MAX_EXACT. change (2 ^ 53) with (2 ^ 52 * 2). nia.
Qed.

Lemma round_ge k z :
  0 <= k <= JS.MAX_EXACT -> k <= z -> k <= JS.round z.
Proof.
  intros Hk Hz. destruct (Z_le_gt_dec z JS.MAX_EXACT) as [Hle|Hgt].
  - rewrite JSFacts.round_exact by lia. lia.
  - pose proof (round_big z ltac:(lia)). lia.
Qed.

(** *** Searching a buffer that grows *)

Lemma starts_with_length n : forall h,
  starts_with n h = true -> (length n <= length h)%nat.
Proof.
  induction n as [|x n IH]; intros [|y h] Hs; cbn in *;
    try lia; try discriminate Hs.
  apply andb_true_iff in Hs as [_ Hs]. apply IH in Hs. lia.
Qed.

Lemma starts_with_grow n : forall h d,
  starts_with n h = true -> starts_with n (h ++ d) = true.
Proof.
  induction n as [|x n IH]; intros [|y h] d Hs; cbn in *; try done.
  apply andb_true_iff in Hs as [Hxy Hs]. by rewrite Hxy, IH.
Qed.

Lemma starts_with_grow_false n : forall h d,
  starts_with n h = false -> (length n <= length h)%nat ->
  starts_with n (h ++ d) = false.
Proof.
  induction n as [|x n IH]; intros [|y h] d Hs Hlen; cbn in *;
    try done; try lia.
  apply andb_false_iff in Hs as [Hxy|Hs].
  - by rewrite Hxy.
  - rewrite IH by (done || lia). apply andb_false_r.
Qed.

Lemma indexOf_bound n : forall h i,
  indexOf n h = Some i -> (i + length n <= length h)%nat.
Proof.
  induction h as [|y h IH]; intros i.
  - cbn [indexOf]. destruct (starts_with n []) eqn:Hs; [|done].
    intros [= <-]. by apply starts_with_length in Hs.
  - cbn [indexOf]. destruct (starts_with n (y :: h)) eqn:Hs.
    + intros [= <-]. by apply starts_with_length in Hs.
    + destruct (indexOf n h) as [j|]; [|done]. intros [= <-].
      specialize (IH j eq_refl). cbn. lia.
Qed.

Lemma indexOf_grow n : forall h d i,
  indexOf n h = Some i -> indexOf n (h ++ d) = Some i.
Proof.
  induction h as [|y h IH]; intros d i.
  - cbn [indexOf]. destruct (starts_with n []) eqn:Hs; [|done].
    intros [= <-]. destruct n; [|done]. by destruct d.
  - cbn [indexOf app]. destruct (starts_with n (y :: h)) eqn:Hs.
    + intros [= <-].
      change (y :: h ++ d) with ((y :: h) ++ d).
      by rewrite (starts_with_grow n _ d Hs).
    + destruct (indexOf n h) as [j|] eqn:Hj; [|done]. intros [= <-].
      pose proof (indexOf_bound n h j Hj) as Hb.
      change (y :: h ++ d) with ((y :: h) ++ d).
      rewrite starts_with_grow_false by (done || cbn; lia).
      by rewrite (IH d j eq_refl).
Qed.

(** *** The digits of the header *)

Lemma take_digits_digits l : forallb is_digit (take_digits l) = true.
Proof.
  induction l as [|b l IH]; [done|]. cbn [take_digits].
  destruct (is_digit b) eqn:Hb; [|done]. cbn. by rewrite Hb.
Qed.

Lemma header_match_digits : forall h ds,
  header_match h = Some ds -> forallb is_digit ds = true.
Proof.
  induction h as [|b h IH]; intros ds; cbn [header_match].
  - unfold match_here.
    destruct (match_literal literal []) as [rest|]; [|done].
    pose proof (take_digits_digits (skip_space rest)) as Hd.
    destruct (take_digits (skip_space rest)); [done|]. by intros [= <-].
  - destruct (match_here (b :: h)) as [ds'|] eqn:Hm.
    + intros [= <-]. unfold match_here in Hm.
      destruct (match_literal literal (b :: h)) as [rest|]; [|done].
      pose proof (take_digits_digits (skip_space rest)) as Hd.
      destruct (take_digits (skip_space rest)); [done|].
      by injection Hm as <-.
    + apply IH.
Qed.

Lemma decimal_nonneg ds : forallb is_digit ds = true -> 0 <= decimal ds.
Proof.
  unfold decimal.
  assert (forall acc, 0 <= acc -> forallb is_digit ds = true ->
            0 <= fold_left
                   (fun acc b => acc * 10 + (Z.of_N (code b) - 48)) ds acc)
    as Hgen.
  { induction ds as [|b ds IH]; intros acc Hacc Hd; cbn in *; [done|].
    apply andb_true_iff in Hd as [Hb Hd]. apply IH; [|done].
    unfold is_digit in Hb. apply andb_true_iff in Hb as [Hlo _].
    apply N.leb_le in Hlo. lia. }
  by apply Hgen.
Qed.

(** *** The loop *)

(** The client with [data] added to its buffer. *)
Definition grow (c : DapClient) (data : list Byte.byte) : DapClient :=
  set_buffer c (buffer c ++ data).

Lemma apply_call_buffer c call : buffer (apply_call c call) = buffer c.
Proof.
  destruct call as [cmd args|ev h|ev h|]; cbn; try done.
  unfold off. by destruct (eventHandlers c !! ev).
Qed.

Lemma calls_buffer calls : forall c,
  buffer (fold_left apply_call calls c) = buffer c.
Proof.
  induction calls as [|call calls IH]; intros c; cbn; [done|].
  by rewrite IH, apply_call_buffer.
Qed.

Lemma handleResponse_buffer r c : buffer (handleResponse r c) = buffer c.
Proof.
  unfold handleResponse. by destruct (JSMap.get (request_seq r) (pending c)).
Qed.

Lemma apply_call_set_buffer c call x :
  apply_call (set_buffer c x) call = set_buffer (apply_call c call) x.
Proof.
  destruct call as [cmd args|ev h|ev h|]; cbn; try done.
  unfold off. cbn [eventHandlers set_buffer].
  by destruct (eventHandlers c !! ev).
Qed.

Lemma calls_set_buffer calls : forall c x,
  fold_left apply_call calls (set_buffer c x)
  = set_buffer (fold_left apply_call calls c) x.
Proof.
  induction calls as [|call calls IH]; intros c x; cbn; [done|].
  by rewrite apply_call_set_buffer, IH.
Qed.

Lemma handleResponse_set_buffer r c x :
  handleResponse r (set_buffer c x) = set_buffer (handleResponse r c) x.
Proof.
  unfold handleResponse. cbn [pending set_buffer].
  by destruct (JSMap.get (request_seq r) (pending c)).
Qed.

Lemma set_buffer_twice c x y : set_buffer (set_buffer c x) y = set_buffer c y.
Proof. done. Qed.

Lemma set_buffer_same c : set_buffer c (buffer c) = c.
Proof. by destruct c. Qed.

(** How far a run of turns gets. *)
Inductive settles {parse : list Byte.byte -> option DapMessage}
    {calls : DapClient -> string -> Body -> list ApiCall}
  : DapClient -> DapClient -> Prop :=
| settles_here c : turn parse calls c = None -> settles c c
| settles_turn c c' r :
    turn parse calls c = Some c' -> settles c' r -> settles c r.
Arguments settles : clear implicits.

Section Stream.
Variable JSON_parse : list Byte.byte -> option DapMessage.
Variable handler_calls : DapClient -> string -> Body -> list ApiCall.

Abbreviation turn' := (turn JSON_parse handler_calls).
Abbreviation drain' := (drain JSON_parse handler_calls).
Abbreviation onData' := (onData JSON_parse handler_calls).
Abbreviation deliver' := (deliver JSON_parse handler_calls).
Abbreviation settles' := (settles JSON_parse handler_calls).

Lemma handleMessage_buffer m c :
  buffer (handleMessage handler_calls m c) = buffer c.
Proof.
  destruct m as [r|ev b|]; cbn; [apply handleResponse_buffer| |done].
  destruct (eventHandlers c !! ev); [apply calls_buffer|done].
Qed.

Lemma deliver_buffer c content : buffer (deliver' c content) = buffer c.
Proof.
  unfold deliver. destruct (JSON_parse content); [|done].
  apply handleMessage_buffer.
Qed.

Lemma drain_turn fuel c :
  drain' (S fuel) c
  = match turn' c with
    | None => Some c
    | Some c' => drain' fuel c'
    end.
Proof.
  rewrite drain_step. unfold turn.
  destruct (indexOf CRLFCRLF (buffer c)) as [headerEnd|]; [|done].
  destruct (header_match (take headerEnd (buffer c))) as [ds|]; [|done].
  cbv zeta. by destruct (_ <? _).
Qed.

Lemma turn_buffer c c' :
  turn' c = Some c' ->
  exists k, (4 <= k <= length (buffer c))%nat
            /\ buffer c' = drop k (buffer c).
Proof.
  unfold turn.
  destruct (indexOf CRLFCRLF (buffer c)) as [headerEnd|] eqn:Hi; [|done].
  apply indexOf_bound in Hi. change (length CRLFCRLF) with 4%nat in Hi.
  destruct (header_match (take headerEnd (buffer c))) as [ds|] eqn:Hm.
  - cbv zeta.
    assert (4 <= JS.add (Z.of_nat headerEnd + 4) (parseInt ds)) as Hend.
    { unfold JS.add. apply round_ge; [done|].
      assert (0 <= parseInt ds); [|lia].
      unfold parseInt. apply round_ge; [done|].
      by apply decimal_nonneg, (header_match_digits _ _ Hm). }
    destruct (Z.ltb_spec (Z.of_nat (length (buffer c)))
                (JS.add (Z.of_nat headerEnd + 4) (parseInt ds)))
      as [|Hfit]; [done|].
    intros [= <-].
    exists (Z.to_nat (JS.add (Z.of_nat headerEnd + 4) (parseInt ds))).
    split; [lia|].
    destruct (JSON_parse _); [|done]. by rewrite handleMessage_buffer.
  - intros [= <-]. exists (headerEnd + 4)%nat. split; [lia|done].
Qed.

Lemma turn_shrinks c c' :
  turn' c = Some c' -> (length (buffer c') + 4 <= length (buffer c))%nat.
Proof.
  intros (k & Hk & ->)%turn_buffer. rewrite length_drop. lia.
Qed.

Lemma drain_settles fuel : forall c r, drain' fuel c = Some r -> settles' c r.
Proof.
  induction fuel as [|fuel IH]; intros c r; [done|].
  rewrite drain_turn. destruct (turn' c) as [c'|] eqn:Ht.
  - intros Hd. eapply settles_turn; eauto.
  - intros [= <-]. by apply settles_here.
Qed.

Lemma settles_drain c r :
  settles' c r ->
  forall fuel, (length (buffer c) < fuel)%nat -> drain' fuel c = Some r.
Proof.
  induction 1 as [c Ht|c c' r Ht _ IH]; intros [|fuel] Hfuel; try lia;
    rewrite drain_turn, Ht; [done|].
  apply IH. apply turn_shrinks in Ht. lia.
Qed.

Lemma drain_enough fuel : forall c,
  (length (buffer c) < fuel)%nat -> exists r, drain' fuel c = Some r.
Proof.
  induction fuel as [|fuel IH]; intros c Hfuel; [lia|].
  rewrite drain_turn. destruct (turn' c) as [c'|] eqn:Ht; [|eauto].
  apply IH. apply turn_shrinks in Ht. lia.
Qed.

Lemma settles_last c r : settles' c r -> turn' r = None.
Proof. by induction 1. Qed.

Lemma settles_suffix c r :
  settles' c r -> exists k, buffer r = drop k (buffer c).
Proof.
  induction 1 as [c Ht|c c' r Ht _ [k IH]]; [by exists 0%nat|].
  apply turn_buffer in Ht as (j & _ & Hj). rewrite Hj, drop_drop in IH.
  eauto.
Qed.

Lemma onData_settles data c r :
  onData' data c = Some r <-> settles' (grow c data) r.
Proof.
  unfold onData. fold (grow c data). split.
  - apply drain_settles.
  - intros Hs. apply (settles_drain _ _ Hs). lia.
Qed.

Lemma onData_ends data c :
  exists c',
    onData' data c = Some c'
    /\ turn' c' = None
    /\ (exists k, buffer c' = drop k (buffer c ++ data))
    /\ onData' [] c' = Some c'.
Proof.
  destruct (drain_enough (S (length (buffer (grow c data)))) (grow c data))
    as [r Hr]; [lia|].
  exists r. split; [exact Hr|].
  apply drain_settles in Hr as Hs.
  pose proof (settles_last _ _ Hs) as Hlast.
  split; [done|]. split; [by apply settles_suffix in Hs|].
  apply onData_settles. unfold grow. rewrite app_nil_r, set_buffer_same.
  by apply settles_here.
Qed.

(** X20. [onData] always comes to an end: every turn of its loop that
    does not leave it takes at least four bytes off the buffer.  When it
    returns, no further turn is possible on what is left, what is left is
    a part at the end of the old buffer followed by the data, and feeding
    no data then changes nothing. *)
Theorem onData_comes_to_an_end :
  forall (data : list Byte.byte) (c : DapClient),
    exists c',
      onData' data c = Some c'
      /\ turn' c' = None
      /\ (exists k, buffer c' = drop k (buffer c ++ data))
      /\ onData' [] c' = Some c'.
Proof. intros data c. apply onData_ends. Qed.

(** The handlers do not look at the buffer, which is private to the
    client. *)
Definition buffer_blind : Prop :=
  forall c x event b,
    handler_calls (set_buffer c x) event b = handler_calls c event b.

Section Blind.
Hypothesis handlers_blind : buffer_blind.

Lemma handleMessage_set_buffer m c x :
  handleMessage handler_calls m (set_buffer c x)
  = set_buffer (handleMessage handler_calls m c) x.
Proof.
  destruct m as [r|ev b|]; cbn [handleMessage];
    [apply handleResponse_set_buffer| |done].
  cbn [eventHandlers set_buffer]. rewrite handlers_blind.
  destruct (eventHandlers c !! ev); [apply calls_set_buffer|done].
Qed.

Lemma deliver_set_buffer c x content :
  deliver' (set_buffer c x) content = set_buffer (deliver' c content) x.
Proof.
  unfold deliver. destruct (JSON_parse content); [|done].
  apply handleMessage_set_buffer.
Qed.

Lemma turn_grow c c' data :
  turn' c = Some c' -> turn' (grow c data) = Some (grow c' data).
Proof.
  unfold turn. cbn [buffer grow set_buffer].
  destruct (indexOf CRLFCRLF (buffer c)) as [headerEnd|] eqn:Hi; [|done].
  rewrite (indexOf_grow _ _ data _ Hi).
  apply indexOf_bound in Hi. change (length CRLFCRLF) with 4%nat in Hi.
  rewrite take_app_le by lia.
  destruct (header_match (take headerEnd (buffer c))) as [ds|] eqn:Hm.
  - cbv zeta.
    assert (4 <= JS.add (Z.of_nat headerEnd + 4) (parseInt ds)) as Hend.
    { unfold JS.add. apply round_ge; [done|].
      assert (0 <= parseInt ds); [|lia].
      unfold parseInt. apply round_ge; [done|].
      by apply decimal_nonneg, (header_match_digits _ _ Hm). }
    set (contentEnd := JS.add (Z.of_nat headerEnd + 4) (parseInt ds)) in *.
    destruct (Z.ltb_spec (Z.of_nat (length (buffer c))) contentEnd)
      as [|Hfit]; [done|].
    rewrite length_app.
    destruct (Z.ltb_spec (Z.of_nat (length (buffer c) + length data))
                contentEnd) as [|_]; [lia|].
    intros [= <-]. f_equal.
    rewrite !drop_app_le by lia. rewrite take_app_le
      by (rewrite length_drop; lia).
    destruct (JSON_parse _) as [m|]; unfold grow;
      rewrite ?handleMessage_set_buffer; reflexivity.
  - intros [= <-]. by rewrite drop_app_le by lia.
Qed.

Lemma settles_grow c r data :
  settles' c r -> forall r2,
  settles' (grow r data) r2 -> settles' (grow c data) r2.
Proof.
  induction 1 as [c Ht|c c' r Ht _ IH]; intros r2 Hr2; [done|].
  eapply settles_turn; [by apply turn_grow|]. by apply IH.
Qed.

Lemma grow_grow c d1 d2 : grow (grow c d1) d2 = grow c (d1 ++ d2).
Proof. unfold grow. cbn [buffer set_buffer]. by rewrite app_assoc. Qed.

(** X21. The decoder does not depend on how the stream is cut into
    chunks: when the handlers do not look at the buffer, feeding two
    chunks one after the other leaves the client in the state that
    feeding their concatenation at once does. *)
Theorem onData_is_chunk_invariant :
  forall (d1 d2 : list Byte.byte) (c : DapClient),
    onData' (d1 ++ d2) c
    = match onData' d1 c with
      | Some c1 => onData' d2 c1
      | None => None
      end.
Proof.
  intros d1 d2 c.
  destruct (onData_ends d1 c) as (c1 & H1 & _).
  destruct (onData_ends d2 c1) as (c2 & H2 & _).
  rewrite H1, H2. apply onData_settles. rewrite <- grow_grow.
  apply (settles_grow _ c1); by apply onData_settles.
Qed.

(** A frame whose header announces the length of its content, within
    the exact range of JS numbers. *)
Definition well_formed (f : list Byte.byte * list Byte.byte) : Prop :=
  f.1 <> []
  /\ forallb is_digit f.1 = true
  /\ decimal f.1 = Z.of_nat (length f.2)
  /\ Z.of_nat (length (frame f.1 f.2)) <= JS.MAX_EXACT.

Definition stream (frames : list (list Byte.byte * list Byte.byte))
  : list Byte.byte :=
  concat (map (fun f => frame f.1 f.2) frames).

Lemma turn_frame c ds body rest :
  well_formed (ds, body) ->
  buffer c = frame ds body ++ rest ->
  turn' c = Some (deliver' (set_buffer c rest) body).
Proof.
  intros (Hsome & Hdigits & Hlen & Hbound) Hbuf. cbn [fst snd] in *.
  assert (buffer c = header_of ds ++ CRLFCRLF ++ body ++ rest) as Hb.
  { rewrite Hbuf. unfold frame. by rewrite <- !app_assoc. }
  unfold turn. rewrite Hb.
  rewrite (indexOf_no_cr (header_of ds)) by by apply header_of_no_cr.
  rewrite take_app_length.
  rewrite <- (app_nil_l (header_of ds)) at 1.
  rewrite (header_match_before_header ds [] Hsome Hdigits eq_refl).
  cbv zeta. rewrite length_frame in Hbound.
  assert (parseInt ds = Z.of_nat (length body)) as ->.
  { unfold parseInt. rewrite Hlen. apply JSFacts.round_exact. lia. }
  rewrite JSFacts.add_exact by lia.
  rewrite !length_app. change (length CRLFCRLF) with 4%nat.
  destruct (Z.ltb_spec
              (Z.of_nat (length (header_of ds)
                         + (4 + (length body + length rest))))
              (Z.of_nat (length (header_of ds)) + 4
               + Z.of_nat (length body))) as [Hlt|_]; [lia|].
  replace (Z.to_nat (Z.of_nat (length (header_of ds)) + 4
                     + Z.of_nat (length body))
           - Z.to_nat (Z.of_nat (length (header_of ds)) + 4))%nat
    with (length body) by lia.
  rewrite (app_assoc (header_of ds) CRLFCRLF).
  rewrite (drop_app_length' (header_of ds ++ CRLFCRLF))
    by (rewrite length_app; change (length CRLFCRLF) with 4%nat; lia).
  rewrite take_app_length.
  rewrite (app_assoc (header_of ds ++ CRLFCRLF) body).
  rewrite (drop_app_length' ((header_of ds ++ CRLFCRLF) ++ body))
    by (rewrite !length_app; change (length CRLFCRLF) with 4%nat; lia).
  done.
Qed.

Lemma frames_settle frames : forall c rest,
  Forall well_formed frames ->
  indexOf CRLFCRLF rest = None ->
  settles' (set_buffer c (stream frames ++ rest))
    (set_buffer (fold_left deliver' (map snd frames) c) rest).
Proof.
  induction frames as [|[ds body] frames IH]; intros c rest Hwf Hrest.
  - apply settles_here. unfold turn, stream.
    cbn [map concat app buffer set_buffer]. by rewrite Hrest.
  - apply Forall_cons in Hwf as [Hf Hwf].
    eapply settles_turn.
    + apply (turn_frame _ ds body (stream frames ++ rest) Hf).
      unfold stream. cbn. by rewrite <- app_assoc.
    + rewrite set_buffer_twice, deliver_set_buffer. cbn [map fold_left snd].
      by apply IH.
Qed.

(** X22. Well-formed frames are delivered one by one and in order.  When
    the handlers do not look at the buffer and the buffer is empty, a
    chunk made of frames whose headers announce the length of their
    content, followed by bytes that hold no header separator, leaves the
    client as handling the content of each frame in turn does, with those
    last bytes in the buffer.  A frame whose content the JSON parser
    rejects counts for nothing and does not disturb the frames after
    it. *)
Theorem frames_are_delivered_in_order :
  forall (frames : list (list Byte.byte * list Byte.byte))
         (rest : list Byte.byte) (c : DapClient),
    buffer c = [] ->
    Forall well_formed frames ->
    indexOf CRLFCRLF rest = None ->
    onData' (stream frames ++ rest) c
    = Some (set_buffer (fold_left deliver' (map snd frames) c) rest).
Proof.
  intros frames rest c Hempty Hwf Hrest.
  apply onData_settles. unfold grow. rewrite Hempty. cbn [app].
  by apply frames_settle.
Qed.

End Blind.
End Stream.

Lemma blind_no_calls : buffer_blind no_calls.
Proof. done. Qed.

Lemma onData_is_chunk_invariant_witness :
  onData parse7 no_calls
    (misspelt_frame
     ++ frame (list_byte_of_string "80") (list_byte_of_string response7_text))
    waiting_for_7
  = match onData parse7 no_calls misspelt_frame waiting_for_7 with
    | Some c1 =>
        onData parse7 no_calls
          (frame (list_byte_of_string "80")
             (list_byte_of_string response7_text)) c1
    | None => None
    end.
Proof.
  apply (onData_is_chunk_invariant parse7 no_calls blind_no_calls).
Defined.

Lemma frames_are_delivered_in_order_witness :
  onData parse7 no_calls
    (stream [(list_byte_of_string "80", list_byte_of_string response7_text)]
     ++ [])
    Dap.new
  = Some (set_buffer
            (fold_left (deliver parse7 no_calls)
               [list_byte_of_string response7_text] Dap.new) []).
Proof.
  apply (frames_are_delivered_in_order parse7 no_calls blind_no_calls
           [(list_byte_of_string "80", list_byte_of_string response7_text)]
           [] Dap.new).
  - reflexivity.
  - constructor; [|constructor].
    split; [discriminate|].
    split; [vm_compute; reflexivity|].
    split; [vm_compute; reflexivity|].
    vm_compute. discriminate.
  - reflexivity.
Defined.

End StreamFacts.

(** ** Responses reach the promise of their own request *)
Module CorrelationFacts.
Import Dap CorrelatorFacts.

Lemma get_elem {V} k (m : list (Z * V)) v :
  JSMap.get k m = Some v -> (k, v) ∈ m.
Proof.
  induction m as [|[k' v'] m IH]; cbn; [done|].
  destruct (Z.eqb_spec k' k) as [->|_].
  - intros [= ->]. apply list_elem_of_here.
  - intros Hget. by apply list_elem_of_further, IH.
Qed.

Lemma set_elem {V} k v (m : list (Z * V)) x :
  x ∈ JSMap.set k v m -> x = (k, v) \/ exists v', (x.1, v') ∈ m /\ (x.1 = k \/ x.2 = v').
Proof.
  induction m as [|[k' v'] m IH]; cbn.
  - intros Hx. apply list_elem_of_singleton in Hx. by left.
  - destruct (Z.eqb_spec k' k) as [->|Hne].
    + intros Hx. apply elem_of_cons in Hx as [->|Hx]; [by left|].
      right. exists x.2. split; [|by right].
      destruct x. by apply list_elem_of_further.
    + intros Hx. apply elem_of_cons in Hx as [->|Hx].
      * right. exists v'. split; [apply list_elem_of_here|by right].
      * apply IH in Hx as [->|(v0 & Hin & Hor)]; [by left|].
        right. exists v0. split; [by apply list_elem_of_further|done].
Qed.

Lemma delete_elem {V} k (m : list (Z * V)) x :
  x ∈ JSMap.delete k m -> x ∈ m.
Proof.
  induction m as [|[k' v'] m IH]; cbn; [done|].
  destruct (k' =? k).
  - apply list_elem_of_further.
  - intros Hx. apply elem_of_cons in Hx as [->|Hx];
      [apply list_elem_of_here|by apply list_elem_of_further, IH].
Qed.

(** How a promise may have been settled, given the number of its
    request. *)
Definition settled_by_own_response (p : Promise) (o : Outcome) : Prop :=
  match o with
  | Fulfilled r => request_seq r = Z.of_nat p + 1 /\ success r = true
  | Rejected m =>
      m = "Connection closed"
      \/ exists r, request_seq r = Z.of_nat p + 1 /\ success r = false
                   /\ m = failure_message r
  end.

Record matched (c : DapClient) : Prop := {
  seq_next : seq c = Z.of_nat (promises c) + 1;
  written_all : length (written c) = promises c;
  written_numbered :
    forall p rq, written c !! p = Some rq -> rq_seq rq = Z.of_nat p + 1;
  pending_numbered :
    forall k p, (k, p) ∈ pending c ->
      k = Z.of_nat p + 1 /\ (p < promises c)%nat;
  settled_own :
    forall p o, (p, o) ∈ settled c -> settled_by_own_response p o
}.

Lemma new_matched : matched Dap.new.
Proof.
  split; try done.
  - intros k p Hin. by apply elem_of_nil in Hin.
  - intros p o Hin. by apply elem_of_nil in Hin.
Qed.

Lemma send_matched cmd args c :
  matched c -> seq c < JS.MAX_EXACT ->
  matched (snd (sendRequest cmd args c)).
Proof.
  intros [Hseq Hlen Hnum Hpend Hset] Hbound. split; cbn.
  - rewrite JSFacts.succ_exact by lia. lia.
  - rewrite length_app. cbn. lia.
  - intros p rq Hp. apply lookup_app_Some in Hp as [Hp|[Hge Hp]].
    + by apply Hnum.
    + rewrite Hlen in *.
      destruct (p - promises c)%nat as [|n] eqn:Hsub; [|done].
      cbn in Hp. injection Hp as <-. cbn. lia.
  - intros k p Hin. apply set_elem in Hin as [[= -> ->]|(v' & Hin & Hor)].
    + split; [lia|lia].
    + cbn [fst snd] in *. destruct (Hpend _ _ Hin) as [Hk Hlt].
      destruct Hor as [->| ->]; [|split; [done|lia]].
      lia.
  - done.
Qed.

Lemma response_matched r c : matched c -> matched (handleResponse r c).
Proof.
  intros [Hseq Hlen Hnum Hpend Hset]. unfold handleResponse.
  destruct (JSMap.get (request_seq r) (pending c)) as [p|] eqn:Hget;
    [|by split].
  split; cbn; try done.
  - intros k q Hin. by apply Hpend, (delete_elem (request_seq r)).
  - intros q o Hin. apply elem_of_app in Hin as [Hin|Hin]; [by apply Hset|].
    apply list_elem_of_singleton in Hin. injection Hin as -> ->.
    apply get_elem, Hpend in Hget as [Hk _].
    unfold settled_by_own_response.
    destruct (success r) eqn:Hok; [done|]. right. by exists r.
Qed.

Lemma close_matched c : matched c -> matched (on_close c).
Proof.
  intros [Hseq Hlen Hnum Hpend Hset]. split; cbn; try done.
  - intros k p Hin. by apply elem_of_nil in Hin.
  - intros q o Hin. apply elem_of_app in Hin as [Hin|Hin]; [by apply Hset|].
    apply list_elem_of_fmap in Hin as (p & [= -> ->] & _). by left.
Qed.

Lemma run_matched ops : forall c,
  matched c ->
  seq c + Z.of_nat (length ops) <= JS.MAX_EXACT ->
  matched (run ops c).
Proof.
  induction ops as [|op ops IH]; intros c Hc Hbound; cbn; [done|].
  cbn [length] in Hbound.
  assert (matched (apply_op c op) /\ seq (apply_op c op) <= seq c + 1)
    as [Hc' Hseq].
  { destruct op as [cmd args|r|]; cbn [apply_op].
    - split; [apply send_matched; [done|lia]|].
      cbn. rewrite JSFacts.succ_exact; [lia|].
      destruct Hc as [Hs _ _ _ _]. lia.
    - split; [by apply response_matched|].
      unfold handleResponse. destruct (JSMap.get _ _); cbn; lia.
    - split; [by apply close_matched|cbn; lia]. }
  apply IH; [done|lia].
Qed.

(** X23. Requests and responses are matched by number.  After any
    history of requests sent, responses decoded and closes of the
    transport (of fewer than 2^53 events), the requests written carry the
    numbers 1, 2, 3, ... in the order of their promises; a promise is
    fulfilled only with a successful response that names the number of
    its own request, and rejected only by the close of the transport or
    with the message of a failed response that names that number.  A
    response never settles the promise of another request, in whatever
    order the responses arrive. *)
Theorem responses_reach_their_own_promise :
  forall ops : list Op,
    1 + Z.of_nat (length ops) <= JS.MAX_EXACT ->
    let c := run ops Dap.new in
    length (written c) = promises c
    /\ (forall p rq, written c !! p = Some rq -> rq_seq rq = Z.of_nat p + 1)
    /\ (forall k p, JSMap.get k (pending c) = Some p ->
          exists rq, written c !! p = Some rq /\ rq_seq rq = k)
    /\ (forall p o, (p, o) ∈ settled c ->
          settled_by_own_response p o
          /\ exists rq, written c !! p = Some rq
                        /\ rq_seq rq = Z.of_nat p + 1).
Proof.
  intros ops Hbound c.
  assert (matched c) as [Hseq Hlen Hnum Hpend Hset]
    by (apply run_matched; [apply new_matched|exact Hbound]).
  assert (consistent c) as [_ _ _ Hperm]
    by (apply run_consistent; [apply new_consistent|exact Hbound]).
  assert (forall p, (p < promises c)%nat ->
            exists rq, written c !! p = Some rq
                       /\ rq_seq rq = Z.of_nat p + 1) as Hreq.
  { intros p Hp. destruct (lookup_lt_is_Some_2 (written c) p) as [rq Hrq];
      [lia|]. exists rq. split; [done|]. by apply Hnum. }
  split; [done|]. split; [done|]. split.
  - intros k p Hget. apply get_elem, Hpend in Hget as [-> Hlt].
    by apply Hreq.
  - intros p o Hin. split; [by apply Hset|]. apply Hreq.
    assert (p ∈ JSMap.values (pending c) ++ map fst (settled c)) as Hp.
    { apply elem_of_app. right. apply list_elem_of_fmap. by exists (p, o). }
    rewrite Hperm in Hp. apply list_elem_of_In, in_seq in Hp. lia.
Qed.

(** Two requests, answered in the opposite order. *)
Definition crossed : DapClient :=
  run [OpSend "continue" None; OpSend "next" None;
       OpResponse (answer 2); OpResponse (answer 1)] Dap.new.

Lemma responses_reach_their_own_promise_witness :
  settled_by_own_response 1 (Fulfilled (answer 2))
  /\ settled_by_own_response 0 (Fulfilled (answer 1)).
Proof.
  assert (settled crossed
          = [(1%nat, Fulfilled (answer 2)); (0%nat, Fulfilled (answer 1))])
    as Hsettled by (vm_compute; reflexivity).
  destruct (responses_reach_their_own_promise
              [OpSend "continue" None; OpSend "next" None;
               OpResponse (answer 2); OpResponse (answer 1)])
    as (_ & _ & _ & Hown).
  - vm_compute. discriminate.
  - fold crossed in Hown. rewrite Hsettled in Hown. split.
    + apply Hown, list_elem_of_here.
    + apply Hown, list_elem_of_further, list_elem_of_here.
Defined.

End CorrelationFacts.

(** ** The DAP adapter: default frame and default thread *)
Module PythonFacts.
Import Session SessionManager PythonAdapter.

#[local] Arguments PythonAdapter.request : simpl never.

Section WithPeer.
Variable peer : Dap.Request -> Reply.
Variable toLowerCase : string -> string.

(** X24. The frame that [PythonAdapter.getVariables] looks into when no
    [frameId] is given is the top frame of the call stack fetched last:
    after [getCallStack] has returned frames, omitting [frameId] is the
    same as giving the id of the first of them.  When no call stack has
    been fetched, or the last one was empty, nothing is asked of the
    server and the result is the empty list; without a connection both
    operations throw "Not connected". *)
Theorem getVariables_defaults_to_top_frame :
  forall (a : T) (tid : option Z) (scope : option string),
    let fetched := getCallStack peer tid a in
    (forall top rest,
        fst fetched = Ok (top :: rest) ->
        frameIds (snd fetched) = map Dap.f_id (top :: rest)
        /\ getVariables peer toLowerCase None scope (snd fetched)
           = getVariables peer toLowerCase (Some (Dap.f_id top)) scope
               (snd fetched))
    /\ (fst fetched = Ok [] ->
        getVariables peer toLowerCase None scope (snd fetched)
        = (Ok [], snd fetched))
    /\ (client a <> None -> frameIds a = [] ->
        getVariables peer toLowerCase None scope a = (Ok [], a))
    /\ (client a = None ->
        fetched = (Throw "Not connected", a)
        /\ getVariables peer toLowerCase None scope a
           = (Throw "Not connected", a)).
Proof.
  intros a tid scope fetched. subst fetched. unfold getCallStack.
  destruct (client a) as [c|] eqn:Hc.
  2:{ split_and!; try done. unfold getVariables. by rewrite Hc. }
  destruct (request peer "stackTrace" _ c) as [[response|e] c'];
    cbv zeta; cbn [fst snd].
  - split_and!; try done.
    + intros top rest [= Hframes]. rewrite Hframes. split; [done|].
      unfold getVariables. cbn [client set_frameIds set_client frameIds].
      done.
    + intros [= Hframes]. rewrite Hframes.
      unfold getVariables. by cbn [client set_frameIds set_client frameIds
                                     map head].
    + intros _ Hids. unfold getVariables. by rewrite Hc, Hids.
  - split_and!; try done.
    intros _ Hids. unfold getVariables. by rewrite Hc, Hids.
Qed.

Lemma waiter_stopped_threadId k info p :
  threadId (PythonAdapter.waiter_stopped peer k info p) = threadId p.
Proof.
  unfold PythonAdapter.waiter_stopped, getCallStack.
  cbn [client cleanup].
  destruct (client p) as [c|]; cbn; [|done].
  by destruct (request peer _ _ _) as [[?|?] ?].
Qed.

Lemma fire_python_thread fuel : forall i info s p,
  adapter s = APython p ->
  exists p',
    adapter (fire peer fuel i info s) = APython p'
    /\ threadId p' = threadId p.
Proof.
  induction fuel as [|fuel IH]; intros i info s p Hp; cbn [fire]; [eauto|].
  destruct (SessionManager.stoppedCallbacks (adapter s) !! i) as [[|k]|];
    [| |eauto].
  - by apply IH.
  - destruct (IH (S i) info
                (with_adapter s
                   (SessionManager.waiter_stopped peer k info (adapter s)))
                (PythonAdapter.waiter_stopped peer k info p))
      as (p' & Hp' & Ht).
    + cbn [adapter with_adapter]. by rewrite Hp.
    + exists p'. split; [done|]. by rewrite Ht, waiter_stopped_threadId.
Qed.

(** X25. On a Python session the thread that a resume operation names
    when it is given none is the thread of the latest stop, the one
    recorded in the session.  After a ["stopped"] event has been handed
    to the callbacks (the tracker first), the session records the thread
    of the event, or thread 1 when the event names none, and [continue],
    [stepOver], [stepIn] and [stepOut] called without a thread write a
    request for exactly that thread; a thread given explicitly is used
    instead. *)
Theorem python_resume_names_the_stopped_thread :
  forall (s : SessionState AnyAdapter) (p : T) (e : StopEvent)
         (op : ResumeOp) (tid : option Z),
    adapter s = APython p ->
    head (SessionManager.stoppedCallbacks (adapter s)) = Some CbTracker ->
    let s' := deliver_stopped peer e s in
    let t := default 1 (ev_threadId e) in
    exists p',
      adapter s' = APython p'
      /\ threadId p' = t
      /\ stoppedThreadId s' = Some t
      /\ forall c,
           client p' = Some c ->
           Dap.written <$> client (snd (PythonAdapter.resume op tid p'))
           = Some (Dap.written c
                   ++ [{| Dap.rq_seq := Dap.seq c;
                          Dap.rq_command := dap_command op;
                          Dap.rq_arguments :=
                            Some (Dap.ArgsThread (default t tid)) |}]).
Proof.
  intros s p e op tid Hp Hhead s' t. subst s' t.
  unfold deliver_stopped. rewrite Hp in *. cbn [note_stop on_stopped_event].
  cbn [SessionManager.stoppedCallbacks stoppedCallbacks set_threadId].
  cbn [SessionManager.stoppedCallbacks] in Hhead.
  destruct (stoppedCallbacks p) as [|cb cbs] eqn:Hcbs; [done|].
  injection Hhead as ->.
  cbn [length fire with_adapter adapter SessionManager.stoppedCallbacks
       stoppedCallbacks set_threadId].
  rewrite Hcbs. cbn [lookup list_lookup].
  match goal with
  | |- context [fire peer (length cbs) 1 ?info ?s1] =>
      destruct (fire_python_thread (length cbs) 1 info s1
                  (set_threadId p (default 1 (ev_threadId e))) eq_refl)
        as (p' & Hp' & Ht);
      destruct (SessionFacts.fire_fields peer (length cbs) 1 info s1)
        as [_ Hf]
  end.
  { cbn. by rewrite Hcbs. }
  exists p'. split; [exact Hp'|]. cbn [threadId set_threadId] in Ht.
  split; [exact Ht|]. split.
  - unfold SessionFacts.fields, SessionFacts.noted in Hf.
    destruct Hf as [Hf|Hf]; injection Hf as Hth _; exact Hth.
  - intros c Hc. unfold resume. rewrite Hc.
    unfold waitForStop. rewrite Hc. cbn. by rewrite Ht.
Qed.

End WithPeer.

(** A Python session that has started against a server that answers
    every request, and a stop of thread 7. *)
Definition python_session : SessionState AnyAdapter :=
  createSessionState "session-1"
    (APython
       (snd (start BreakpointExamples.quiet_server
               (PythonAdapter.onStopped CbTracker PythonAdapter.new)))).

Definition stop_of_thread (t : Z) : StopEvent :=
  {| ev_reason := Some "step"; ev_threadId := Some t;
     ev_description := None; ev_callFrames := None |}.

Lemma python_resume_names_the_stopped_thread_witness :
  stoppedThreadId
    (deliver_stopped BreakpointExamples.quiet_server (stop_of_thread 7)
       python_session)
  = Some 7.
Proof.
  destruct (python_resume_names_the_stopped_thread
              BreakpointExamples.quiet_server python_session
              (snd (start BreakpointExamples.quiet_server
                      (PythonAdapter.onStopped CbTracker PythonAdapter.new)))
              (stop_of_thread 7) Continue None)
    as (p' & _ & _ & Hrecorded & _).
  - reflexivity.
  - vm_compute. reflexivity.
  - exact Hrecorded.
Defined.

End PythonFacts.

(** ** The event handlers of the DAP client *)
Module HandlerFacts.
Import Dap.

(** The handlers registered for an event, in the order of their calls. *)
Definition handlers_of (c : DapClient) (event : string) : list Handler :=
  default [] (eventHandlers c !! event).

Lemma existsb_elem h hs : existsb (Nat.eqb h) hs = true <-> h ∈ hs.
Proof.
  rewrite existsb_exists. split.
  - intros (x & Hin & Heq). apply Nat.eqb_eq in Heq. subst x.
    by apply list_elem_of_In.
  - intros Hin. exists h. split; [by apply list_elem_of_In|].
    apply Nat.eqb_refl.
Qed.

Lemma set_add_spec h hs :
  set_add h hs = if decide (h ∈ hs) then hs else hs ++ [h].
Proof.
  unfold set_add. destruct (existsb (Nat.eqb h) hs) eqn:Hex.
  - apply existsb_elem in Hex. by rewrite decide_True.
  - rewrite decide_False; [done|]. intros Hin. apply existsb_elem in Hin.
    congruence.
Qed.

Lemma filter_all {X} (P : X -> Prop) `{forall x, Decision (P x)}
    (l : list X) :
  (forall x, x ∈ l -> P x) -> filter P l = l.
Proof.
  induction l as [|x l IH]; intros Hall; [done|].
  rewrite filter_cons, decide_True by (apply Hall, list_elem_of_here).
  rewrite IH; [done|]. intros y Hy. by apply Hall, list_elem_of_further.
Qed.

(** X27. The handlers of an event behave as a set.  Registering a handler
    that is registered already changes nothing; [on] makes the handler
    registered, once; [off] makes it not registered and keeps the others
    in their order, so [off] after [on] of a handler that was not
    registered gives back the handlers there were; [off] for an event
    that never had a handler leaves the client as it is; and neither
    touches the handlers of another event. *)
Theorem handlers_form_a_set :
  forall (c : DapClient) (event : string) (h : Handler),
    NoDup (handlers_of c event) ->
    on event h (on event h c) = on event h c
    /\ (h ∈ handlers_of (on event h c) event
        /\ NoDup (handlers_of (on event h c) event))
    /\ ((h ∉ handlers_of (off event h c) event)
        /\ NoDup (handlers_of (off event h c) event))
    /\ handlers_of (off event h (on event h c)) event
       = filter (fun h' => h' <> h) (handlers_of c event)
    /\ ((h ∉ handlers_of c event) ->
        handlers_of (off event h (on event h c)) event = handlers_of c event)
    /\ (eventHandlers c !! event = None -> off event h c = c)
    /\ (forall other, other <> event ->
          handlers_of (on event h c) other = handlers_of c other
          /\ handlers_of (off event h c) other = handlers_of c other).
Proof.
  intros c event h Hnd. unfold handlers_of in *.
  set (hs := default [] (eventHandlers c !! event)) in *.
  assert (eventHandlers (on event h c) !! event = Some (set_add h hs))
    as Hon by (cbn; by rewrite lookup_insert_eq).
  assert (h ∈ set_add h hs /\ NoDup (set_add h hs)) as [Hin Hnd'].
  { rewrite set_add_spec. case_decide as Hh; [done|]. split.
    - apply elem_of_app. right. by apply list_elem_of_singleton.
    - apply NoDup_app. split; [done|]. split; [|apply NoDup_singleton].
      intros x Hx Hx'. apply list_elem_of_singleton in Hx'. by subst x. }
  assert (filter (fun h' => h' <> h) (set_add h hs)
          = filter (fun h' => h' <> h) hs) as Hfilter.
  { rewrite set_add_spec. case_decide; [done|].
    rewrite filter_app, filter_cons, decide_False by (intros Hne; by apply Hne).
    by rewrite filter_nil, app_nil_r. }
  split_and!.
  - unfold on at 1. rewrite Hon. cbn [from_option Datatypes.id].
    assert (set_add h (set_add h hs) = set_add h hs) as ->.
    { rewrite (set_add_spec h (set_add h hs)). by rewrite decide_True. }
    unfold on. cbn [eventHandlers set_handlers]. fold hs.
    by rewrite insert_insert_eq.
  - by rewrite Hon.
  - by rewrite Hon.
  - unfold off. destruct (eventHandlers c !! event) as [l|] eqn:Hl.
    + cbn. rewrite lookup_insert_eq. cbn. unfold set_delete.
      rewrite list_elem_of_filter. by intros [Hne _].
    + rewrite Hl. cbn. apply not_elem_of_nil.
  - unfold off. destruct (eventHandlers c !! event) as [l|] eqn:Hl.
    + cbn. rewrite lookup_insert_eq. cbn. by apply NoDup_filter.
    + by rewrite Hl.
  - unfold off. rewrite Hon. cbn [eventHandlers set_handlers].
    rewrite lookup_insert_eq. cbn [from_option Datatypes.id]. exact Hfilter.
  - intros Hfresh. unfold off. rewrite Hon.
    cbn [eventHandlers set_handlers]. rewrite lookup_insert_eq.
    cbn [from_option Datatypes.id]. unfold set_delete. rewrite Hfilter.
    apply filter_all. intros x Hx ->. done.
  - intros Hnone. unfold off. by rewrite Hnone.
  - intros other Hne. split.
    + cbn. by rewrite lookup_insert_ne.
    + unfold off. destruct (eventHandlers c !! event); [|done].
      cbn. by rewrite lookup_insert_ne.
Qed.

Lemma handlers_form_a_set_witness :
  handlers_of (off "stopped" 3 (on "stopped" 3 Dap.new)) "stopped"
  = handlers_of Dap.new "stopped".
Proof.
  destruct (handlers_form_a_set Dap.new "stopped" 3)
    as (_ & _ & _ & _ & Hback & _).
  - apply NoDup_nil_2.
  - apply Hback. apply not_elem_of_nil.
Defined.

End HandlerFacts.

(** ** The breakpoint tools on a Node session *)
Module NodeSessionFacts.
Import Session SessionManager BreakpointTools BreakpointFacts
  BreakpointToolFacts.

Section WithPeers.
Variable cdp_peer : NodeAdapter.CdpRequest -> NodeAdapter.CdpReply.
Variable dap_peer : Dap.Request -> PythonAdapter.Reply.

#[local] Existing Instance AnyAdapter_DebugAdapter.

Abbreviation set_tool :=
  (set_breakpoints (H := AnyAdapter_DebugAdapter cdp_peer dap_peer)).

(** X28. The first [set_breakpoints] for a file on a Node session never
    throws, connected or not.  When the adapter holds no breakpoint id
    for the file, the tool returns a report with one entry for each
    breakpoint of the merged list; an entry reported as unverified is on
    the line of the merged list (no line is corrected without a resolved
    location); and without a connection every entry is reported
    unverified, the failure showing in no other way. *)
Theorem first_set_on_node_never_throws :
  forall (session : SessionState AnyAdapter) (n : NodeAdapter.T)
         (file : string) (bps : list SourceBreakpoint),
    adapter session = ANode n ->
    default [] (NodeAdapter.breakpointIds n !! file) = [] ->
    let merged := merge (getBreakpointsForFile session file) bps in
    exists reported,
      fst (set_tool file bps session) = Ok reported
      /\ length reported = length merged
      /\ (forall i bp rp,
            merged !! i = Some bp -> reported !! i = Some rp ->
            rp_condition rp = condition bp
            /\ (rp_verified rp = false -> rp_line rp = line bp))
      /\ (NodeAdapter.ws n = false ->
          Forall (fun rp => rp_verified rp = false) reported).
Proof.
  intros session n file bps Hn Hids merged.
  unfold set_breakpoints. fold merged. rewrite Hn.
  cbn [setBreakpoints AnyAdapter_DebugAdapter].
  unfold NodeAdapter.setBreakpoints. rewrite Hids.
  cbn [NodeAdapter.remove_all].
  destruct (NodeFacts.set_all_shape cdp_peer file
              (toSourceBreakpoints merged) [] [] n)
    as (new & ids & H1 & _ & H3 & _ & H5).
  pose proof (NodeFacts.set_all_offline cdp_peer file
                (toSourceBreakpoints merged) [] [] n) as Hoff.
  destruct (NodeAdapter.set_all cdp_peer file (toSourceBreakpoints merged)
              [] [] n) as [[results newIds] n2].
  cbn [fst snd app] in *. subst results.
  eexists. split; [reflexivity|].
  split; [by rewrite length_map, apply_results_length|].
  split.
  - intros i bp rp Hbp Hrp.
    rewrite list_lookup_fmap, apply_results_lookup, Hbp in Hrp.
    cbn in Hrp. injection Hrp as <-.
    split; [done|].
    destruct (H5 i (toSourceBreakpoint bp)) as (r & Hr & Hline & _).
    { unfold toSourceBreakpoints.
      change (map toSourceBreakpoint merged !! i)
        with ((toSourceBreakpoint <$> merged) !! i).
      by rewrite list_lookup_fmap, Hbp. }
    rewrite Hr. cbn. intros Hunv. by rewrite (Hline Hunv).
  - intros Hws. specialize (Hoff Hws). injection Hoff as -> _ _.
    apply Forall_forall. intros rp Hrp.
    apply list_elem_of_fmap in Hrp as (e & -> & He).
    apply list_elem_of_lookup in He as (i & Hi).
    rewrite apply_results_lookup in Hi.
    destruct (merged !! i) as [bp|] eqn:Hbp; [|discriminate Hi].
    cbn in Hi. injection Hi as <-.
    unfold toSourceBreakpoints.
    change (map NodeFacts.not_connected (map toSourceBreakpoint merged) !! i)
      with ((NodeFacts.not_connected <$> (toSourceBreakpoint <$> merged))
              !! i).
    by rewrite !list_lookup_fmap, Hbp.
Qed.

End WithPeers.

Import BreakpointExamples.

(** A session whose adapter was never started. *)
Definition cold_session : SessionState AnyAdapter :=
  createSessionState "session-1" (ANode NodeAdapter.new).

Lemma first_set_on_node_never_throws_witness :
  exists reported,
    fst (set_breakpoints (H := with_inspector exact_inspector) "/tmp/a.js"
           [at_line 10] cold_session) = Ok reported
    /\ Forall (fun rp => rp_verified rp = false) reported.
Proof.
  destruct (first_set_on_node_never_throws exact_inspector quiet_server
              cold_session NodeAdapter.new "/tmp/a.js" [at_line 10]
              eq_refl eq_refl)
    as (reported & Hok & _ & _ & Hoff).
  exists reported. split; [exact Hok|]. by apply Hoff.
Defined.

End NodeSessionFacts.
